(** * Key-state reconciliation and caching engine of the license-key bot

    A shallow embedding of the reconciliation, cache and batching code of
    the bot ([safeBatchCommit], [isKeyExpired], [refreshUserKeys],
    [refreshUserKeysBackground], [getUserActiveKeys], [invalidateUserCache]
    and the [redeem_submit] branch of the interaction handler, in the
    version of the source that has the soft refresh), followed by the
    properties of the specification that hold of it.

    Conventions of the embedding:
    - the document store, the in-memory collections, the clock and the
      console are fields of one [World]; an [async] function is a function
      from worlds to an outcome and a world ([Task]);
    - every [await] on the store is recorded in [io] as one round (the
      requests of one [Promise.all] share a round), together with the
      outcome of each request; whether a request is rejected and how long
      a round takes is chosen by the environment ([rejects], [latency]);
    - the [keys] collection is an association list in the order in which
      the store returns documents, because [limit(5)] and the order of the
      resulting array depend on it; the collections read by document id
      only are finite maps;
    - where what another call sees while a function waits matters
      ([refreshUserKeysBackground]), the function is given with its
      [await] explicit ([Async]) and its [Task] is that call run to its
      end. *)

From stdpp Require Import gmap strings list fin_maps.
From Stdlib Require Import ZArith Ascii.
From Stdlib Require Strings.Byte.
From Stdlib Require DecimalString.

Open Scope Z_scope.

(** ** Constants *)

Definition CACHE_DURATION : Z := 300000.
Definition CACHE_SOFT_REFRESH : Z := 60000.
Definition COOLDOWN_DURATION : Z := 3000.
Definition BATCH_LIMIT : nat := 450.

(** ** JavaScript values *)

(** The values [isKeyExpired] can return: a boolean, or the number that
    made the conjunction [expiryTime && ...] stop early. *)
Inductive JsValue :=
| JsBool (b : bool)
| JsNumber (n : Z).

Definition truthy (v : JsValue) : bool :=
  match v with
  | JsBool b => b
  | JsNumber n => negb (n =? 0)
  end.

(** A string field that may be missing: [undefined], [null] and the empty
    string are falsy. *)
Definition truthy_string (o : option string) : bool :=
  match o with
  | Some s => negb (String.eqb s "")
  | None => false
  end.

(** ** Documents *)

(** The [expiresAt] field: [null] (permanent), missing, a store timestamp
    (an object with [toMillis]) or a plain number of milliseconds. *)
Inductive ExpiresAt :=
| ExpNull
| ExpUndefined
| ExpTimestamp (ms : Z)
| ExpNumber (ms : Z).

(** [usedAt] and [createdAt]: a timestamp, or the server-timestamp sentinel
    of a write that the store resolves when the batch commits. *)
Inductive TimeField :=
| TimeMissing
| TimeAt (ms : Z)
| ServerTimestamp.

Record KeyData := {
  k_used : bool;
  k_alreadyRedeem : bool;
  k_userId : option string;
  k_usedByDiscord : option string;
  k_hwid : string;
  k_hwidLimit : Z;
  k_usedAt : TimeField;
  k_expiresAt : ExpiresAt;
  k_createdAt : TimeField;
  k_whitelisted : bool
}.

Record WhitelistData := {
  wl_userId : option string;
  wl_discordTag : option string;
  wl_key : option string;
  wl_addedBy : option string;
  wl_addedAt : TimeField
}.

Record PendingData := {
  p_expiresInDays : option Z
}.

(** A document of the [keys] collection: its id (the key string) and its
    data. *)
Definition Doc : Type := string * KeyData.

(** The object passed to [batch.update]: only the fields that were
    assigned are present. *)
Record Updates := {
  u_userId : option string;
  u_usedByDiscord : option string;
  u_whitelisted : option bool
}.

Definition no_updates : Updates :=
  {| u_userId := None; u_usedByDiscord := None; u_whitelisted := None |}.

(** [Object.keys(updates).length] *)
Definition own_key {A} (field : option A) : nat :=
  match field with Some _ => 1%nat | None => 0%nat end.

Definition Object_keys_length (u : Updates) : nat :=
  (own_key (u_userId u) + own_key (u_usedByDiscord u) + own_key (u_whitelisted u))%nat.

(** The deferred writes pushed on an operation list: each closure
    [(batch) => batch.set(ref, data)], [batch.update(ref, updates)] or
    [batch.delete(ref)] is the command it applies. *)
Inductive WriteOp :=
| BatchSetKey (keyId : string) (data : KeyData)
| BatchUpdateKey (keyId : string) (updates : Updates)
| BatchDeletePending (keyId : string).

(** ** The document store *)

Record Store := {
  keys_collection : list Doc;
  whitelist_collection : gmap string WhitelistData;
  generated_keys_collection : gmap string PendingData;
  blacklist_collection : gset string
}.

(** [db.collection('keys').doc(id).get()]: [None] when [!doc.exists]. *)
Fixpoint keys_doc (id : string) (docs : list Doc) : option KeyData :=
  match docs with
  | [] => None
  | (i, d) :: rest => if String.eqb i id then Some d else keys_doc id rest
  end.

Definition option_string_eqb (o : option string) (s : string) : bool :=
  match o with
  | Some x => String.eqb x s
  | None => false
  end.

(** [db.collection('keys').where('userId', '==', userId).get()] *)
Definition keys_where_userId (userId : string) (docs : list Doc) : list Doc :=
  List.filter (fun doc => option_string_eqb (k_userId (snd doc)) userId) docs.

(** [db.collection('keys').where('usedByDiscord', '==', label).limit(n).get()] *)
Definition keys_where_usedByDiscord (label : string) (n : nat) (docs : list Doc)
  : list Doc :=
  firstn n (List.filter (fun doc => option_string_eqb (k_usedByDiscord (snd doc)) label) docs).

(** What a committed batch does to the [keys] collection. *)

Definition resolve_time (now : Z) (t : TimeField) : TimeField :=
  match t with
  | ServerTimestamp => TimeAt now
  | _ => t
  end.

Definition resolve_server_timestamps (now : Z) (d : KeyData) : KeyData :=
  {| k_used := k_used d;
     k_alreadyRedeem := k_alreadyRedeem d;
     k_userId := k_userId d;
     k_usedByDiscord := k_usedByDiscord d;
     k_hwid := k_hwid d;
     k_hwidLimit := k_hwidLimit d;
     k_usedAt := resolve_time now (k_usedAt d);
     k_expiresAt := k_expiresAt d;
     k_createdAt := resolve_time now (k_createdAt d);
     k_whitelisted := k_whitelisted d |}.

Definition apply_updates (u : Updates) (d : KeyData) : KeyData :=
  {| k_used := k_used d;
     k_alreadyRedeem := k_alreadyRedeem d;
     k_userId := match u_userId u with Some x => Some x | None => k_userId d end;
     k_usedByDiscord :=
       match u_usedByDiscord u with Some x => Some x | None => k_usedByDiscord d end;
     k_hwid := k_hwid d;
     k_hwidLimit := k_hwidLimit d;
     k_usedAt := k_usedAt d;
     k_expiresAt := k_expiresAt d;
     k_createdAt := k_createdAt d;
     k_whitelisted :=
       match u_whitelisted u with Some b => b | None => k_whitelisted d end |}.

(** [set] overwrites the document or creates it at its place in the
    document-id order. *)
Fixpoint keys_set (id : string) (d : KeyData) (docs : list Doc) : list Doc :=
  match docs with
  | [] => [(id, d)]
  | (i, x) :: rest =>
      if String.eqb i id then (id, d) :: rest
      else if String.ltb id i then (id, d) :: (i, x) :: rest
      else (i, x) :: keys_set id d rest
  end.

(** [update] merges into an existing document; the store rejects the
    whole batch when the document does not exist. *)
Fixpoint keys_update (id : string) (u : Updates) (docs : list Doc)
  : option (list Doc) :=
  match docs with
  | [] => None
  | (i, x) :: rest =>
      if String.eqb i id then Some ((i, apply_updates u x) :: rest)
      else match keys_update id u rest with
           | Some rest' => Some ((i, x) :: rest')
           | None => None
           end
  end.

Definition with_keys (docs : list Doc) (s : Store) : Store :=
  {| keys_collection := docs;
     whitelist_collection := whitelist_collection s;
     generated_keys_collection := generated_keys_collection s;
     blacklist_collection := blacklist_collection s |}.

Definition with_generated_keys (g : gmap string PendingData) (s : Store) : Store :=
  {| keys_collection := keys_collection s;
     whitelist_collection := whitelist_collection s;
     generated_keys_collection := g;
     blacklist_collection := blacklist_collection s |}.

Definition apply_op (now : Z) (op : WriteOp) (s : Store) : option Store :=
  match op with
  | BatchSetKey id d =>
      Some (with_keys (keys_set id (resolve_server_timestamps now d) (keys_collection s)) s)
  | BatchUpdateKey id u =>
      match keys_update id u (keys_collection s) with
      | Some docs => Some (with_keys docs s)
      | None => None
      end
  | BatchDeletePending id =>
      Some (with_generated_keys (delete id (generated_keys_collection s)) s)
  end.

(** A batch is atomic: all of its writes are applied, or none. *)
Fixpoint apply_batch (now : Z) (ops : list WriteOp) (s : Store) : option Store :=
  match ops with
  | [] => Some s
  | op :: rest =>
      match apply_op now op s with
      | Some s' => apply_batch now rest s'
      | None => None
      end
  end.

(** ** The process: in-memory collections, clock, store traffic, console *)

Record CacheEntry := {
  c_keys : list string;
  c_expires : Z;
  c_lastRefresh : Z
}.

(** The requests sent to the store. *)
Inductive Request :=
| KeysWhereUserId (userId : string)
| KeysWhereUsedByDiscord (label : string) (limit : nat)
| KeysDoc (keyId : string)
| WhitelistDoc (userId : string)
| BlacklistDoc (userId : string)
| GeneratedKeysDoc (keyId : string)
| BatchCommit (ops : list WriteOp).

(** The exceptions of this part of the program: a store request that is
    rejected, and a time that the store's timestamp type cannot hold. *)
Inductive Error :=
| StoreError (request : Request)
| TimestampOutOfRange (milliseconds : Z).

Inductive LogLine :=
| LogBatchCommitted (operations batches : nat)
| LogBatchError (error : Error)
| LogKeys (isBackground : bool) (discordTag : string) (count : nat) (duration : Z)
| LogRefreshError (discordTag : string) (error : Error)
| LogBgRefreshError (discordTag : string) (error : Error)
| LogCacheInvalidated (discordTag : string)
| LogCacheRefreshError (discordTag : string) (error : Error)
| LogCleanup (cooldowns cache operations : nat)
| LogMemory (cooldowns cache operations : nat).

(** One [await] on the store: the requests sent together, each with
    whether the store accepted it. *)
Definition Round : Type := list (Request * bool).

Record World := {
  db : Store;
  userKeyCache : gmap string CacheEntry;
  cooldowns : gmap string Z;
  activeOperations : gmap string Z;
  backgroundRefreshQueue : gset string;
  clock : Z;                 (* what [Date.now()] returns *)
  latency : nat -> nat;      (* milliseconds taken by the n-th round *)
  rejects : nat -> bool;     (* whether the store rejects the n-th request *)
  io : list Round;
  console : list LogLine
}.

Definition with_db (s : Store) (w : World) : World :=
  {| db := s; userKeyCache := userKeyCache w; cooldowns := cooldowns w;
     activeOperations := activeOperations w;
     backgroundRefreshQueue := backgroundRefreshQueue w; clock := clock w;
     latency := latency w; rejects := rejects w; io := io w; console := console w |}.

Definition with_userKeyCache (c : gmap string CacheEntry) (w : World) : World :=
  {| db := db w; userKeyCache := c; cooldowns := cooldowns w;
     activeOperations := activeOperations w;
     backgroundRefreshQueue := backgroundRefreshQueue w; clock := clock w;
     latency := latency w; rejects := rejects w; io := io w; console := console w |}.

Definition with_cooldowns (c : gmap string Z) (w : World) : World :=
  {| db := db w; userKeyCache := userKeyCache w; cooldowns := c;
     activeOperations := activeOperations w;
     backgroundRefreshQueue := backgroundRefreshQueue w; clock := clock w;
     latency := latency w; rejects := rejects w; io := io w; console := console w |}.

Definition with_activeOperations (a : gmap string Z) (w : World) : World :=
  {| db := db w; userKeyCache := userKeyCache w; cooldowns := cooldowns w;
     activeOperations := a;
     backgroundRefreshQueue := backgroundRefreshQueue w; clock := clock w;
     latency := latency w; rejects := rejects w; io := io w; console := console w |}.

Definition with_backgroundRefreshQueue (q : gset string) (w : World) : World :=
  {| db := db w; userKeyCache := userKeyCache w; cooldowns := cooldowns w;
     activeOperations := activeOperations w;
     backgroundRefreshQueue := q; clock := clock w;
     latency := latency w; rejects := rejects w; io := io w; console := console w |}.

Definition with_clock (t : Z) (w : World) : World :=
  {| db := db w; userKeyCache := userKeyCache w; cooldowns := cooldowns w;
     activeOperations := activeOperations w;
     backgroundRefreshQueue := backgroundRefreshQueue w; clock := t;
     latency := latency w; rejects := rejects w; io := io w; console := console w |}.

Definition with_io (t : list Round) (w : World) : World :=
  {| db := db w; userKeyCache := userKeyCache w; cooldowns := cooldowns w;
     activeOperations := activeOperations w;
     backgroundRefreshQueue := backgroundRefreshQueue w; clock := clock w;
     latency := latency w; rejects := rejects w; io := t; console := console w |}.

Definition with_console (c : list LogLine) (w : World) : World :=
  {| db := db w; userKeyCache := userKeyCache w; cooldowns := cooldowns w;
     activeOperations := activeOperations w;
     backgroundRefreshQueue := backgroundRefreshQueue w; clock := clock w;
     latency := latency w; rejects := rejects w; io := io w; console := c |}.

(** ** Asynchronous functions *)

Inductive Outcome (A : Type) :=
| Resolved (value : A)
| Thrown (error : Error).
Arguments Resolved {A} value.
Arguments Thrown {A} error.

Definition Task (A : Type) : Type := World -> Outcome A * World.

Definition ret {A} (a : A) : Task A := fun w => (Resolved a, w).

Definition throw {A} (e : Error) : Task A := fun w => (Thrown e, w).

(** A computation that has returned or thrown already: a promise that
    has settled, an expression that was evaluated. *)
Definition settle {X} (outcome : Outcome X) : Task X := fun w => (outcome, w).

Definition bind {A B} (m : Task A) (k : A -> Task B) : Task B :=
  fun w =>
    match m w with
    | (Resolved a, w') => k a w'
    | (Thrown e, w') => (Thrown e, w')
    end.

(** [try { body } catch (error) { handler }] *)
Definition try_catch {A} (body : Task A) (handler : Error -> Task A) : Task A :=
  fun w =>
    match body w with
    | (Resolved a, w') => (Resolved a, w')
    | (Thrown e, w') => handler e w'
    end.

(** [try { body } finally { cleanup }], for a cleanup that cannot throw. *)
Definition try_finally {A} (body : Task A) (cleanup : World -> World) : Task A :=
  fun w => let (r, w') := body w in (r, cleanup w').

Declare Scope task_scope.
Delimit Scope task_scope with task.
Notation "x <- m ;; k" := (bind m (fun x => k))
  (at level 100, m at next level, right associativity) : task_scope.
Notation "m ;; k" := (bind m (fun _ => k))
  (at level 100, right associativity) : task_scope.
Open Scope task_scope.

Definition Date_now : Task Z := fun w => (Resolved (clock w), w).

Definition console_log (l : LogLine) : Task unit :=
  fun w => (Resolved tt, with_console (console w ++ [l]) w).

(** The store as seen from the process. A read is the request that goes
    on the wire and the answer the store computes for it. *)
Record Read (A : Type) := {
  request : Request;
  answer : Store -> A
}.
Arguments request {A} r.
Arguments answer {A} r s.

Definition db_keys_where_userId (userId : string) : Read (list Doc) :=
  {| request := KeysWhereUserId userId;
     answer := fun s => keys_where_userId userId (keys_collection s) |}.

Definition db_keys_where_usedByDiscord (label : string) (limit : nat) : Read (list Doc) :=
  {| request := KeysWhereUsedByDiscord label limit;
     answer := fun s => keys_where_usedByDiscord label limit (keys_collection s) |}.

Definition db_keys_doc (keyId : string) : Read (option KeyData) :=
  {| request := KeysDoc keyId;
     answer := fun s => keys_doc keyId (keys_collection s) |}.

Definition db_whitelist_doc (userId : string) : Read (option WhitelistData) :=
  {| request := WhitelistDoc userId;
     answer := fun s => whitelist_collection s !! userId |}.

Definition db_blacklist_doc (userId : string) : Read bool :=
  {| request := BlacklistDoc userId;
     answer := fun s => bool_decide (userId ∈ blacklist_collection s) |}.

Definition db_generated_keys_doc (keyId : string) : Read (option PendingData) :=
  {| request := GeneratedKeysDoc keyId;
     answer := fun s => generated_keys_collection s !! keyId |}.

(** Number of requests sent so far; the k-th request of the next round is
    accepted unless the environment rejects it. *)
Definition sent (w : World) : nat := length (concat (io w)).

Definition accepted (w : World) (k : nat) : bool := negb (rejects w (sent w + k)%nat).

(** The end of an [await]: the round is on record and its latency has
    passed. *)
Definition end_round (r : Round) (w : World) : World :=
  with_clock (clock w + Z.of_nat (latency w (length (io w)))) (with_io (io w ++ [r]) w).

(** [await read.get()] *)
Definition get {A} (r : Read A) : Task A :=
  fun w =>
    let ok := accepted w 0 in
    let w' := end_round [(request r, ok)] w in
    if ok then (Resolved (answer r (db w)), w')
    else (Thrown (StoreError (request r)), w').

(** [await Promise.all([r1.get(), r2.get()])]: both requests are sent; the
    promise rejects with the first rejection. *)
Definition Promise_all2 {A B} (r1 : Read A) (r2 : Read B) : Task (A * B) :=
  fun w =>
    let ok1 := accepted w 0 in
    let ok2 := accepted w 1 in
    let w' := end_round [(request r1, ok1); (request r2, ok2)] w in
    if ok1 then
      if ok2 then (Resolved (answer r1 (db w), answer r2 (db w)), w')
      else (Thrown (StoreError (request r2)), w')
    else (Thrown (StoreError (request r1)), w').

(** The commits of one [Promise.all(batches.map(b => b.commit()))]: every
    batch is sent; a batch the store accepts is applied atomically, a
    rejected one leaves the store as it was. *)
Fixpoint commit_batches (w : World) (k : nat) (batches : list (list WriteOp)) (s : Store)
  : Round * Store * option Error :=
  match batches with
  | [] => ([], s, None)
  | b :: rest =>
      let applied := if accepted w k then apply_batch (clock w) b s else None in
      let s1 := match applied with Some s' => s' | None => s end in
      let ok := match applied with Some _ => true | None => false end in
      let '(round, s2, failure) := commit_batches w (S k) rest s1 in
      ((BatchCommit b, ok) :: round, s2,
       if ok then failure else Some (StoreError (BatchCommit b)))
  end.

Definition Promise_all_commit (batches : list (list WriteOp)) : Task unit :=
  fun w =>
    let '(round, s, failure) := commit_batches w 0 batches (db w) in
    let w' := end_round round (with_db s w) in
    match failure with
    | None => (Resolved tt, w')
    | Some e => (Thrown e, w')
    end.

(** ** safeBatchCommit *)

(** The [for (const op of operations)] loop: [op(currentBatch)] appends
    the write to the current batch. *)
Fixpoint batch_loop (operations : list WriteOp) (batches : list (list WriteOp))
    (currentBatch : list WriteOp) (count : nat)
  : list (list WriteOp) * list WriteOp * nat :=
  match operations with
  | [] => (batches, currentBatch, count)
  | op :: rest =>
      let currentBatch := currentBatch ++ [op] in
      let count := S count in
      if (BATCH_LIMIT <=? count)%nat
      then batch_loop rest (batches ++ [currentBatch]) [] 0%nat
      else batch_loop rest batches currentBatch count
  end.

Definition make_batches (operations : list WriteOp) : list (list WriteOp) :=
  let '(batches, currentBatch, count) := batch_loop operations [] [] 0%nat in
  if (0 <? count)%nat then batches ++ [currentBatch] else batches.

Definition safeBatchCommit (operations : list WriteOp) : Task nat :=
  if (length operations =? 0)%nat then ret 0%nat
  else
    let batches := make_batches operations in
    try_catch
      (Promise_all_commit batches ;;
       console_log (LogBatchCommitted (length operations) (length batches)) ;;
       ret (length batches))
      (fun error =>
         console_log (LogBatchError error) ;;
         throw error).

(** ** isKeyExpired *)

(** [keyData.expiresAt?.toMillis ? keyData.expiresAt.toMillis() : keyData.expiresAt]
    for an [expiresAt] that is neither [null] nor [undefined]. *)
Definition expiryTime_of (e : ExpiresAt) : Z :=
  match e with
  | ExpTimestamp ms => ms
  | ExpNumber ms => ms
  | ExpNull | ExpUndefined => 0
  end.

(** [now] is the reading of [Date.now()]. The [catch] branch of the source
    guards [toMillis()]; a store timestamp does not throw there. *)
Definition isKeyExpired (now : Z) (keyData : option KeyData) : JsValue :=
  match keyData with
  | None => JsBool true
  | Some keyData =>
      if k_whitelisted keyData then JsBool false
      else
        match k_expiresAt keyData with
        | ExpNull | ExpUndefined => JsBool false
        | e =>
            let expiryTime := expiryTime_of e in
            (* expiryTime && expiryTime < Date.now() *)
            if truthy (JsNumber expiryTime) then JsBool (expiryTime <? now)
            else JsNumber expiryTime
        end
  end.

(** ** refreshUserKeys *)

(** The local [keys = new Set()]: insertion order, no duplicates;
    [Array.from(keys)] is the list itself. *)
Definition Set_has (k : string) (keys : list string) : bool :=
  existsb (String.eqb k) keys.

Definition Set_add (k : string) (keys : list string) : list string :=
  if Set_has k keys then keys else keys ++ [k].

(** [discordTag.includes('#')] and [discordTag.split('#')[0]] *)
Fixpoint includes_hash (s : string) : bool :=
  match s with
  | EmptyString => false
  | String c rest => if Ascii.eqb c "#"%char then true else includes_hash rest
  end.

Fixpoint before_hash (s : string) : string :=
  match s with
  | EmptyString => EmptyString
  | String c rest => if Ascii.eqb c "#"%char then EmptyString else String c (before_hash rest)
  end.

Definition username_of (discordTag : string) : string :=
  if includes_hash discordTag then before_hash discordTag else discordTag.

Definition is_null (e : ExpiresAt) : bool :=
  match e with ExpNull => true | _ => false end.

(** The accumulator of the passes: the [keys] set and [updateOperations]. *)
Definition Acc : Type := list string * list WriteOp.

Definition push_update (keyId : string) (updates : Updates) (ops : list WriteOp)
  : list WriteOp :=
  if (0 <? Object_keys_length updates)%nat
  then ops ++ [BatchUpdateKey keyId updates]
  else ops.

(** Body of [userIdSnapshot.forEach]. [now] is what [Date.now()] reads
    inside [isKeyExpired]. *)
Definition userId_step (now : Z) (discordTag : string) (acc : Acc) (doc : Doc) : Acc :=
  let '(keys, updateOperations) := acc in
  let data := snd doc in
  let keyId := fst doc in
  if negb (k_whitelisted data) && negb (truthy (isKeyExpired now (Some data))) then
    let updates :=
      if negb (truthy_string (k_usedByDiscord data))
      then {| u_userId := None; u_usedByDiscord := Some discordTag; u_whitelisted := None |}
      else no_updates in
    (Set_add keyId keys, push_update keyId updates updateOperations)
  else if k_whitelisted data || is_null (k_expiresAt data) then
    (Set_add keyId keys, updateOperations)
  else
    (keys, updateOperations).

(** Body of the inner [snapshot.forEach] of the fallback. *)
Definition fallback_step (now : Z) (userId : string) (acc : Acc) (doc : Doc) : Acc :=
  let '(keys, updateOperations) := acc in
  let data := snd doc in
  let keyId := fst doc in
  if Set_has keyId keys then acc
  else if negb (truthy (isKeyExpired now (Some data))) then
    let updates :=
      if negb (truthy_string (k_userId data))
      then {| u_userId := Some userId; u_usedByDiscord := None; u_whitelisted := None |}
      else no_updates in
    (Set_add keyId keys, push_update keyId updates updateOperations)
  else acc.

(** The document created for a whitelist entry whose key is missing. *)
Definition whitelist_key_data (userId discordTag : string) : KeyData :=
  {| k_used := false;
     k_alreadyRedeem := true;
     k_userId := Some userId;
     k_usedByDiscord := Some discordTag;
     k_hwid := "";
     k_hwidLimit := 1;
     k_usedAt := ServerTimestamp;
     k_expiresAt := ExpNull;
     k_createdAt := ServerTimestamp;
     k_whitelisted := true |}.

(** The [updates] object built for an existing whitelist key. *)
Definition whitelist_updates (userId discordTag : string) (keyData : KeyData) : Updates :=
  {| u_userId := if negb (truthy_string (k_userId keyData)) then Some userId else None;
     u_usedByDiscord :=
       if negb (truthy_string (k_usedByDiscord keyData)) then Some discordTag else None;
     u_whitelisted := if negb (k_whitelisted keyData) then Some true else None |}.

(** The [// Process whitelist] block. *)
Definition process_whitelist (userId discordTag : string)
    (whitelistDoc : option WhitelistData) (acc : Acc) : Task Acc :=
  let '(keys, updateOperations) := acc in
  match whitelistDoc with
  | Some whitelistData =>
      match wl_key whitelistData with
      | Some key =>
          if truthy_string (Some key) && negb (Set_has key keys) then
            let keys := Set_add key keys in
            keyDoc <- get (db_keys_doc key) ;;
            match keyDoc with
            | None =>
                ret (keys,
                     updateOperations ++ [BatchSetKey key (whitelist_key_data userId discordTag)])
            | Some keyData =>
                ret (keys,
                     push_update key (whitelist_updates userId discordTag keyData)
                       updateOperations)
            end
          else ret acc
      | None => ret acc
      end
  | None => ret acc
  end.

(** The [// Fallback] block. *)
Definition process_fallback (userId discordTag username : string) (isBackground : bool)
    (acc : Acc) : Task Acc :=
  if (length (fst acc) =? 0)%nat && negb isBackground then
    snapshots <- Promise_all2 (db_keys_where_usedByDiscord discordTag 5)
                              (db_keys_where_usedByDiscord username 5) ;;
    now <- Date_now ;;
    ret (fold_left (fun acc snapshot => fold_left (fallback_step now userId) snapshot acc)
                   [fst snapshots; snd snapshots] acc)
  else ret acc.

Definition userKeyCache_set (userId : string) (entry : CacheEntry) : Task unit :=
  fun w => (Resolved tt, with_userKeyCache (<[userId := entry]> (userKeyCache w)) w).

Definition refreshUserKeys (userId discordTag : string) (isBackground : bool)
  : Task (list string) :=
  startTime <- Date_now ;;
  let username := username_of discordTag in
  try_catch
    (snapshots <- Promise_all2 (db_keys_where_userId userId) (db_whitelist_doc userId) ;;
     let userIdSnapshot := fst snapshots in
     let whitelistDoc := snd snapshots in
     now <- Date_now ;;
     let acc := fold_left (userId_step now discordTag) userIdSnapshot ([], []) in
     acc <- process_fallback userId discordTag username isBackground acc ;;
     acc <- process_whitelist userId discordTag whitelistDoc acc ;;
     let keys := fst acc in
     let updateOperations := snd acc in
     (if (0 <? length updateOperations)%nat
      then (safeBatchCommit updateOperations ;; ret tt)
      else ret tt) ;;
     let result := keys in
     finished <- Date_now ;;
     let duration := finished - startTime in
     console_log (LogKeys isBackground discordTag (length result) duration) ;;
     userKeyCache_set userId
       {| c_keys := result;
          c_expires := finished + CACHE_DURATION;
          c_lastRefresh := finished |} ;;
     ret result)
    (fun error =>
       console_log (LogRefreshError discordTag error) ;;
       throw error).

(** ** refreshUserKeysBackground *)

(** An [async] function as the event loop sees it: the call runs until
    it returns, or until its [await]; there it hands over the awaited
    task and waits, with the rest of its body, for the outcome. Whatever
    runs in the meantime finds the process as the call left it. *)
Inductive Step (A : Type) : Type :=
| Finished (r : Outcome A)
| Awaiting {X : Type} (pending : Task X) (resume : Outcome X -> Task A).
Arguments Finished {A} r.
Arguments Awaiting {A X} pending resume.

Definition Async (A : Type) : Type := World -> Step A * World.

(** The call run to its end with nothing in between. *)
Definition complete {A} (call : Async A) : Task A :=
  fun w =>
    match call w with
    | (Finished r, w') => (r, w')
    | (Awaiting pending resume, w') => let (x, w'') := pending w' in resume x w''
    end.

(** Two calls that overlap: [second] is made, and runs to its end, while
    [first] waits. *)
Definition overlapped {A B} (first : Async A) (second : Task B) : Task A :=
  fun w =>
    match first w with
    | (Finished r, w') => (r, w')
    | (Awaiting pending resume, w') =>
        let (_, w1) := second w' in
        let (x, w2) := pending w1 in resume x w2
    end.

Definition refreshUserKeysBackground_async (userId discordTag : string) : Async unit :=
  fun w =>
    if bool_decide (userId ∈ backgroundRefreshQueue w) then (Finished (Resolved tt), w)
    else
      (Awaiting (refreshUserKeys userId discordTag true)
         (fun settled =>
            try_finally
              (try_catch
                 (settle settled ;; ret tt)
                 (fun error => console_log (LogBgRefreshError discordTag error)))
              (fun w' =>
                 with_backgroundRefreshQueue (backgroundRefreshQueue w' ∖ {[userId]}) w')),
       with_backgroundRefreshQueue ({[userId]} ∪ backgroundRefreshQueue w) w).

Definition refreshUserKeysBackground (userId discordTag : string) : Task unit :=
  complete (refreshUserKeysBackground_async userId discordTag).

(** ** getUserActiveKeys and invalidateUserCache *)

(** A promise that is not awaited and whose rejection is dropped by
    [.catch(() => { })]. In this sequential model the detached task runs
    to completion where it is started; the caller sees neither its value
    nor its error. *)
Definition detach {A} (m : Task A) : Task unit :=
  fun w => let (_, w') := m w in (Resolved tt, w').

Definition userKeyCache_get (userId : string) : Task (option CacheEntry) :=
  fun w => (Resolved (userKeyCache w !! userId), w).

Definition getUserActiveKeys (userId discordTag : string) (forceRefresh : bool)
  : Task (list string) :=
  cached <- userKeyCache_get userId ;;
  now <- Date_now ;;
  if forceRefresh then refreshUserKeys userId discordTag false
  else
    match cached with
    | Some cached =>
        if c_expires cached >? now then
          (if truthy (JsNumber (c_lastRefresh cached))
              && (now - c_lastRefresh cached >? CACHE_SOFT_REFRESH)
           then detach (refreshUserKeysBackground userId discordTag)
           else ret tt) ;;
          ret (c_keys cached)
        else refreshUserKeys userId discordTag false
    | None => refreshUserKeys userId discordTag false
    end.

Definition invalidateUserCache (userId discordTag : string) : Task unit :=
  (fun w => (Resolved tt, with_userKeyCache (delete userId (userKeyCache w)) w)) ;;
  console_log (LogCacheInvalidated discordTag) ;;
  try_catch
    (refreshUserKeys userId discordTag false ;; ret tt)
    (fun error => console_log (LogCacheRefreshError discordTag error)).

(** ** Rate limiter and single-flight guard *)

Definition setCooldown (userId : string) (duration : Z) : Task unit :=
  fun w => (Resolved tt, with_cooldowns (<[userId := clock w + duration]> (cooldowns w)) w).

(** The object [checkCooldown] returns: [{ onCooldown: true, remaining }]
    or [{ onCooldown: false }]. *)
Inductive CooldownCheck :=
| OnCooldown (remaining : Z)
| NoCooldown.

(** [Math.ceil(x / 1000)] for an integer [x]. *)
Definition ceil_seconds (x : Z) : Z := - ((- x) / 1000).

(** The [duration] parameter is not used by the body. *)
Definition checkCooldown (userId : string) (duration : Z) : Task CooldownCheck :=
  fun w =>
    let now := clock w in
    match cooldowns w !! userId with
    | Some userCooldown =>
        if truthy (JsNumber userCooldown) && (now <? userCooldown)
        then (Resolved (OnCooldown (ceil_seconds (userCooldown - now))), w)
        else (Resolved NoCooldown, w)
    | None => (Resolved NoCooldown, w)
    end.

(** The template [`${userId}-${operationType}`]. *)
Definition operation_key (userId operationType : string) : string :=
  userId +:+ "-" +:+ operationType.

Definition startOperation (userId operationType : string) : Task bool :=
  fun w =>
    let key := operation_key userId operationType in
    match activeOperations w !! key with
    | Some _ => (Resolved false, w)
    | None => (Resolved true, with_activeOperations (<[key := clock w]> (activeOperations w)) w)
    end.

Definition endOperation (userId operationType : string) (w : World) : World :=
  with_activeOperations (delete (operation_key userId operationType) (activeOperations w)) w.

(** ** The redeem_submit branch of the interaction handler *)

Definition KEY_PREFIX : string := "VORAHUB".

(** [[A-F0-9]] *)
Definition is_key_char (c : ascii) : bool :=
  let n := nat_of_ascii c in
  ((48 <=? n) && (n <=? 57) || (65 <=? n) && (n <=? 70))%nat.

(** [-[A-F0-9]{6}] at the front of [s]; the rest of [s] when it matches. *)
Fixpoint key_chars (n : nat) (s : string) : option string :=
  match n with
  | O => Some s
  | S n' =>
      match s with
      | String c rest => if is_key_char c then key_chars n' rest else None
      | EmptyString => None
      end
  end.

Definition key_group (s : string) : option string :=
  match s with
  | String c rest => if Ascii.eqb c "-"%char then key_chars 6 rest else None
  | EmptyString => None
  end.

Fixpoint strip_prefix (p s : string) : option string :=
  match p with
  | EmptyString => Some s
  | String a p' =>
      match s with
      | String b s' => if Ascii.eqb a b then strip_prefix p' s' else None
      | EmptyString => None
      end
  end.

(** The test of [^VORAHUB-[A-F0-9]{6}-[A-F0-9]{6}-[A-F0-9]{6}$]. *)
Definition isValidKeyFormat (key : string) : bool :=
  match strip_prefix KEY_PREFIX key with
  | Some s1 =>
      match key_group s1 with
      | Some s2 =>
          match key_group s2 with
          | Some s3 =>
              match key_group s3 with
              | Some EmptyString => true
              | _ => false
              end
          | None => false
          end
      | None => false
      end
  | None => false
  end.

(** [a || b || "Unknown"] on two string fields. *)
Definition holder_label (activeData : KeyData) : string :=
  match k_usedByDiscord activeData with
  | Some tag =>
      if truthy_string (Some tag) then tag
      else match k_userId activeData with
           | Some uid => if truthy_string (Some uid) then uid else "Unknown"
           | None => "Unknown"
           end
  | None =>
      match k_userId activeData with
      | Some uid => if truthy_string (Some uid) then uid else "Unknown"
      | None => "Unknown"
      end
  end.

(** The content of the reply for a key that is already in [keys]. *)
Definition key_already_used_message (activeData : KeyData) : string :=
  "❌ Key sudah dipakai oleh **" +:+ holder_label activeData +:+ "**!".

Definition newline : string := String (ascii_of_nat 10) EmptyString.

Definition redeem_success_message (inputKey : string) : string :=
  "✅ Key `" +:+ inputKey +:+ "` berhasil diredeem!" +:+ newline +:+ newline
  +:+ "🎉 Kamu sekarang bisa pakai semua fitur panel." +:+ newline
  +:+ "👑 Role Premium otomatis diberikan jika kamu di server.".

(** [admin.firestore.Timestamp.fromMillis] of the store's client
    library: a timestamp holds whole seconds between the years 1 and
    9999, and its constructor throws outside. *)
Definition TIMESTAMP_MIN_SECONDS : Z := -62135596800.
Definition TIMESTAMP_MAX_SECONDS : Z := 253402300799.

Definition Timestamp_fromMillis (milliseconds : Z) : Outcome ExpiresAt :=
  let seconds := milliseconds / 1000 in
  if (TIMESTAMP_MIN_SECONDS <=? seconds) && (seconds <=? TIMESTAMP_MAX_SECONDS)
  then Resolved (ExpTimestamp milliseconds)
  else Thrown (TimestampOutOfRange milliseconds).

(** The document of the first deferred write of a redemption. The object
    literal is evaluated when [safeBatchCommit] calls the closure, before
    anything is sent; it throws when [Timestamp.fromMillis] does. *)
Definition redeemed_key_data (userId discordTag : string) (now : Z)
    (pendingData : PendingData) : Outcome KeyData :=
  let document expiresAt :=
    {| k_used := false;
       k_alreadyRedeem := true;
       k_userId := Some userId;
       k_usedByDiscord := Some discordTag;
       k_hwid := "";
       k_hwidLimit := 1;
       k_usedAt := ServerTimestamp;
       k_expiresAt := expiresAt;
       k_createdAt := ServerTimestamp;
       k_whitelisted := false |} in
  match p_expiresInDays pendingData with
  | None => Resolved (document ExpNull)
  | Some days =>
      match Timestamp_fromMillis (now + days * 86400000) with
      | Resolved expiresAt => Resolved (document expiresAt)
      | Thrown error => Thrown error
      end
  end.

(** The [try] block of the [redeem_submit] branch; its value is the
    [content] handed to [safeReply]. [inputKey] is the text of the modal
    after [trim().toUpperCase()]. The calls into the chat platform
    ([deferReply], the webhook of [logAction], the role assignment) are
    outside the model. *)
Definition redeem_try (userId discordTag inputKey : string) : Task string :=
  blacklisted <- get (db_blacklist_doc userId) ;;
  if blacklisted then ret "❌ Kamu di-blacklist dan tidak bisa redeem key!"
  else if negb (isValidKeyFormat inputKey)
  then ret "❌ Format key salah! Harus: `VORAHUB-XXXXXX-XXXXXX-XXXXXX`"
  else
    activeDoc <- get (db_keys_doc inputKey) ;;
    match activeDoc with
    | Some activeData => ret (key_already_used_message activeData)
    | None =>
        pendingDoc <- get (db_generated_keys_doc inputKey) ;;
        match pendingDoc with
        | None => ret "❌ Key tidak valid atau sudah kadaluarsa!"
        | Some pendingData =>
            now <- Date_now ;;
            data <- settle (redeemed_key_data userId discordTag now pendingData) ;;
            safeBatchCommit [BatchSetKey inputKey data; BatchDeletePending inputKey] ;;
            invalidateUserCache userId discordTag ;;
            setCooldown userId COOLDOWN_DURATION ;;
            ret (redeem_success_message inputKey)
        end
    end.

(** [`${cooldownCheck.remaining}`] for a whole number of seconds. *)
Definition Number_toString (n : Z) : string :=
  DecimalString.NilZero.string_of_int (Z.to_int n).

Definition cooldown_message (remaining : Z) : string :=
  "⏰ Tunggu " +:+ Number_toString remaining
  +:+ " detik sebelum menggunakan fitur ini lagi!".

(** The handler of the [redeem_submit] modal: the cooldown gate that
    every button and modal but [redeem_modal] passes first, then the
    branch of the modal. *)
Definition redeem_submit (userId discordTag inputKey : string) : Task string :=
  cooldownCheck <- checkCooldown userId COOLDOWN_DURATION ;;
  match cooldownCheck with
  | OnCooldown remaining => ret (cooldown_message remaining)
  | NoCooldown =>
      started <- startOperation userId "redeem" ;;
      if negb started then ret "⚠️ Kamu sedang melakukan redeem. Tunggu hingga selesai!"
      else
        try_finally
          (redeem_try userId discordTag inputKey)
          (endOperation userId "redeem")
  end.

(** * Vocabulary of the properties *)

(** ** Observing a run *)

(** The rounds a task added to the store traffic. *)
Definition new_rounds (w w' : World) : list Round := skipn (length (io w)) (io w').

Definition all_accepted (rounds : list Round) : bool :=
  forallb (forallb snd) rounds.

(** A write is queued by a run when a batch sent to the store during the
    run contains it. *)
Definition queued (op : WriteOp) (w w' : World) : Prop :=
  exists ops ok, In (BatchCommit ops, ok) (concat (new_rounds w w')) /\ In op ops.

(** The time at which the n-th round after [w] ends. *)
Fixpoint clock_after (n : nat) (w : World) : Z :=
  match n with
  | O => clock w
  | S n' => clock_after n' w + Z.of_nat (latency w (length (io w) + n')%nat)
  end.

(** Time passes between two calls. *)
Definition later (d : Z) (w : World) : World := with_clock (clock w + d) w.

(** ** Records seen by a refresh *)

(** The test both passes apply to a record: [!isKeyExpired(data)]. *)
Definition not_expired (now : Z) (data : KeyData) : bool :=
  negb (truthy (isKeyExpired now (Some data))).

(** The records a query returned. *)
Definition returned_by (s : Store) (rq : Request) (doc : Doc) : Prop :=
  match rq with
  | KeysWhereUserId userId => In doc (keys_where_userId userId (keys_collection s))
  | KeysWhereUsedByDiscord label limit =>
      In doc (keys_where_usedByDiscord label limit (keys_collection s))
  | _ => False
  end.

(** A record is considered by a run from [w] to [w'] when a query of the
    run returned it. *)
Definition considered (doc : Doc) (w w' : World) : Prop :=
  exists rq, In (rq, true) (concat (new_rounds w w')) /\ returned_by (db w) rq doc.

(** The self-heal update of the alias pass. *)
Definition bind_userId (userId : string) : Updates :=
  {| u_userId := Some userId; u_usedByDiscord := None; u_whitelisted := None |}.

(** What the cache answers without a refresh: an entry that is not
    hard-expired. *)
Definition cache_hit (userId : string) (w : World) : bool :=
  match userKeyCache w !! userId with
  | Some cached => c_expires cached >? clock w
  | None => false
  end.

(** The reply for a key that is already bound, around the name shown. *)
Definition already_used_by (shown : string) : string :=
  "❌ Key sudah dipakai oleh **" +:+ shown +:+ "**!".

(** ** Properties of tasks *)

(** A task leaves a part [f] of the world as it found it, whatever its
    outcome. *)
Definition preserves {X A} (f : World -> X) (m : Task A) : Prop :=
  forall w, f (snd (m w)) = f w.

(** A task only adds rounds to the store traffic; when it returns, the
    store accepted every request of these rounds; when it throws, it
    throws the error of a request the store rejected in these rounds. *)
Definition traced {A} (m : Task A) : Prop :=
  forall w, exists rounds,
    io (snd (m w)) = io w ++ rounds
    /\ match fst (m w) with
       | Resolved _ => all_accepted rounds = true
       | Thrown e => exists rq, e = StoreError rq /\ In (rq, false) (concat rounds)
       end.

(** A task that throws leaves the key cache as it found it. *)
Definition cache_safe {A} (m : Task A) : Prop :=
  forall w, match fst (m w) with
            | Resolved _ => True
            | Thrown _ => userKeyCache (snd (m w)) = userKeyCache w
            end.

(** * Sample stores and processes *)

Definition sample_key (userId usedByDiscord : option string) (expiresAt : ExpiresAt)
    (whitelisted : bool) : KeyData :=
  {| k_used := false; k_alreadyRedeem := true;
     k_userId := userId; k_usedByDiscord := usedByDiscord;
     k_hwid := ""; k_hwidLimit := 1; k_usedAt := TimeAt 1000;
     k_expiresAt := expiresAt; k_createdAt := TimeAt 1000;
     k_whitelisted := whitelisted |}.

Definition sample_whitelist (userId discordTag key : string) : WhitelistData :=
  {| wl_userId := Some userId; wl_discordTag := Some discordTag; wl_key := Some key;
     wl_addedBy := Some "staff#0001"; wl_addedAt := TimeAt 1000 |}.

(** A process that has just started, at time [now], in front of a store
    that accepts every request and answers in 20 ms. *)
Definition fresh_world (docs : list Doc) (whitelist : gmap string WhitelistData)
    (now : Z) : World :=
  {| db := {| keys_collection := docs;
              whitelist_collection := whitelist;
              generated_keys_collection := ∅;
              blacklist_collection := ∅ |};
     userKeyCache := ∅; cooldowns := ∅; activeOperations := ∅;
     backgroundRefreshQueue := ∅;
     clock := now; latency := fun _ => 20%nat; rejects := fun _ => false;
     io := []; console := [] |}.

(** The same process in front of a store that rejects the requests
    chosen by [r]. *)
Definition with_rejects (r : nat -> bool) (w : World) : World :=
  {| db := db w; userKeyCache := userKeyCache w; cooldowns := cooldowns w;
     activeOperations := activeOperations w;
     backgroundRefreshQueue := backgroundRefreshQueue w; clock := clock w;
     latency := latency w; rejects := r; io := io w; console := console w |}.

(** Nobody is known to the store. *)
Definition empty_world : World := fresh_world [] ∅ 1700000000000.

(** A permanent key bound to user 1001, and a permanent key that predates
    identity binding: it carries the alias bob and no [userId]. *)
Definition bound_doc : Doc :=
  ("VORAHUB-AAAAAA-111111-BBBBBB", sample_key (Some "1001") (Some "bob") ExpNull false).

Definition legacy_doc : Doc :=
  ("VORAHUB-EEEEEE-333333-FFFFFF", sample_key None (Some "bob") ExpNull false).

Definition labelled_world : World := fresh_world [bound_doc] ∅ 1700000000000.

Definition legacy_world : World := fresh_world [legacy_doc] ∅ 1700000000000.

Definition mixed_world : World := fresh_world [bound_doc; legacy_doc] ∅ 1700000000000.

(** A key of user 1001 that expired on 2 January 1970, and the same key
    with an expiry of exactly 0 ms. *)
Definition long_expired_doc : Doc :=
  ("VORAHUB-AAAAAA-111111-BBBBBB",
   sample_key (Some "1001") (Some "bob") (ExpTimestamp 86400000) false).

Definition zero_expiry_doc : Doc :=
  ("VORAHUB-AAAAAA-111111-BBBBBB",
   sample_key (Some "1001") (Some "bob") (ExpTimestamp 0) false).



Definition zero_expiry_world : World :=
  fresh_world [zero_expiry_doc] ∅ 1700000000000.

(** The long expired key of user 1001 is the one the whitelist entry of
    that user links. *)
Definition whitelist_link_world : World :=
  fresh_world [long_expired_doc]
    {[ "1001" := sample_whitelist "1001" "bob" "VORAHUB-AAAAAA-111111-BBBBBB" ]}
    1700000000000.

(** User 1001 is whitelisted with a key that has no document in [keys]. *)
Definition dangling_whitelist_world : World :=
  fresh_world []
    {[ "1001" := sample_whitelist "1001" "bob" "VORAHUB-AAAAAA-111111-BBBBBB" ]}
    1700000000000.

(** A key held by user 1001 whose document carries no alias, in the
    store in which user 2002 tries to redeem it. *)
Definition unlabelled_doc : Doc :=
  ("VORAHUB-AAAAAA-111111-BBBBBB", sample_key (Some "1001") None ExpNull false).

Definition unlabelled_world : World := fresh_world [unlabelled_doc] ∅ 1700000000000.

(** User 1001 was refreshed 30 seconds ago. *)
Definition warm_cache_world : World :=
  with_userKeyCache
    {[ "1001" := {| c_keys := ["VORAHUB-AAAAAA-111111-BBBBBB"];
                    c_expires := 1700000270000;
                    c_lastRefresh := 1699999970000 |} ]}
    (fresh_world [bound_doc] ∅ 1700000000000).

(** User 1001 has a hard-expired cache entry and the store is down: it
    rejects every request. *)
Definition outage_world : World :=
  with_rejects (fun _ => true)
    (with_userKeyCache
       {[ "1001" := {| c_keys := ["VORAHUB-AAAAAA-111111-BBBBBB"];
                       c_expires := 1699999000000;
                       c_lastRefresh := 1699998700000 |} ]}
       (fresh_world [bound_doc] ∅ 1700000000000)).

(** The store is down and the cache entry of user 1001 is still valid but
    was refreshed more than a minute ago. *)
Definition soft_stale_outage_world : World :=
  with_rejects (fun _ => true)
    (with_userKeyCache
       {[ "1001" := {| c_keys := ["VORAHUB-AAAAAA-111111-BBBBBB"];
                       c_expires := 1700000100000;
                       c_lastRefresh := 1699999800000 |} ]}
       (fresh_world [bound_doc] ∅ 1700000000000)).

(** * The rest of the utilities *)

(** ** generateKey *)

(** One hexadecimal digit of [bytes.toString('hex')]. *)
Definition hex_digit (d : N) : ascii :=
  if (d <? 10)%N then ascii_of_N (48 + d) else ascii_of_N (87 + d).

(** [bytes.toString('hex')]: two lowercase digits per byte. *)
Fixpoint toString_hex (bytes : list Byte.byte) : string :=
  match bytes with
  | [] => EmptyString
  | b :: rest =>
      String (hex_digit (Byte.to_N b / 16))
        (String (hex_digit (Byte.to_N b mod 16)) (toString_hex rest))
  end.

(** [toUpperCase()] on the letters a to z, the only ones a hexadecimal
    string has. *)
Definition ascii_toUpperCase (c : ascii) : ascii :=
  let n := N_of_ascii c in
  if ((97 <=? n) && (n <=? 122))%N then ascii_of_N (n - 32) else c.

Fixpoint toUpperCase (s : string) : string :=
  match s with
  | EmptyString => EmptyString
  | String c rest => String (ascii_toUpperCase c) (toUpperCase rest)
  end.

(** [s.match(/.{1,6}/g)] on a string without line terminators: the
    greedy groups of six characters, the last one possibly shorter.
    [current] is the group being filled and [count] its length. *)
Fixpoint match_groups (s : string) (current : string) (count : nat) : list string :=
  match s with
  | EmptyString => if (count =? 0)%nat then [] else [current]
  | String c rest =>
      let current := current +:+ String c EmptyString in
      if (S count =? 6)%nat
      then current :: match_groups rest EmptyString 0
      else match_groups rest current (S count)
  end.

(** [generateKey()], as a function of the bytes that
    [crypto.randomBytes(9)] returned. *)
Definition generateKey (bytes : list Byte.byte) : string :=
  KEY_PREFIX +:+ "-"
  +:+ String.concat "-" (match_groups (toUpperCase (toString_hex bytes)) EmptyString 0).

(** The two digits of a byte of a key, read back. *)
Definition digit_value (c : ascii) : option N :=
  let n := N_of_ascii c in
  if ((48 <=? n) && (n <=? 57))%N then Some (n - 48)%N
  else if ((65 <=? n) && (n <=? 70))%N then Some (n - 55)%N
  else None.

Definition decode_byte (high low : ascii) : option Byte.byte :=
  match digit_value high, digit_value low with
  | Some h, Some l => Byte.of_N (16 * h + l)
  | _, _ => None
  end.

(** A group of a key: six characters of [[A-F0-9]]. *)
Fixpoint all_key_chars (s : string) : bool :=
  match s with
  | EmptyString => true
  | String c rest => is_key_char c && all_key_chars rest
  end.

Definition key_group_ok (g : string) : Prop :=
  String.length g = 6%nat /\ all_key_chars g = true.

(** The two characters a byte contributes to a key. *)
Definition high_digit (b : Byte.byte) : ascii :=
  ascii_toUpperCase (hex_digit (Byte.to_N b / 16)).

Definition low_digit (b : Byte.byte) : ascii :=
  ascii_toUpperCase (hex_digit (Byte.to_N b mod 16)).

Definition key_group_of (a b c : Byte.byte) : string :=
  String (high_digit a) (String (low_digit a)
    (String (high_digit b) (String (low_digit b)
      (String (high_digit c) (String (low_digit c) EmptyString))))).

Definition sample_bytes : list Byte.byte :=
  [Byte.x00; Byte.xff; Byte.x1a; Byte.xb2; Byte.x3c; Byte.xd4; Byte.x5e; Byte.xf6; Byte.x07].

(** ** The periodic cleanup *)

(** The callback of [setInterval]. Each loop deletes the entries its
    [if] selects and counts them; the [[CLEANUP]] line is printed only
    when one of the counters is positive, the [[MEMORY]] line always,
    with the sizes after the deletions. *)
Definition periodic_cleanup : Task unit :=
  fun w =>
    let now := clock w in
    (* if (expiry < now) { cooldowns.delete(userId); cleanedCooldowns++ } *)
    let cleanedCooldowns :=
      size (filter (fun kv : string * Z => snd kv < now) (cooldowns w)) in
    let cooldowns' := filter (fun kv : string * Z => ~ (snd kv < now)) (cooldowns w) in
    (* if (data.expires < now - (CACHE_DURATION * 2)) { userKeyCache.delete(userId); ... } *)
    let cleanedCache :=
      size (filter (fun kv : string * CacheEntry =>
                      c_expires (snd kv) < now - CACHE_DURATION * 2) (userKeyCache w)) in
    let cache' :=
      filter (fun kv : string * CacheEntry => ~ (c_expires (snd kv) < now - CACHE_DURATION * 2))
        (userKeyCache w) in
    (* if (now - timestamp > 300000) { activeOperations.delete(key); ... } *)
    let cleanedOperations :=
      size (filter (fun kv : string * Z => now - snd kv > 300000) (activeOperations w)) in
    let operations' :=
      filter (fun kv : string * Z => ~ (now - snd kv > 300000)) (activeOperations w) in
    ((if ((0 <? cleanedCooldowns) || (0 <? cleanedCache) || (0 <? cleanedOperations))%nat
      then console_log (LogCleanup cleanedCooldowns cleanedCache cleanedOperations)
      else ret tt) ;;
     console_log (LogMemory (size cooldowns') (size cache') (size operations')))
      (with_activeOperations operations'
         (with_userKeyCache cache' (with_cooldowns cooldowns' w))).

(** [userId] has no hyphen: the ids of the chat platform are decimal. *)
Fixpoint no_hyphen (s : string) : bool :=
  match s with
  | EmptyString => true
  | String c rest => negb (Ascii.eqb c "-"%char) && no_hyphen rest
  end.

(** A process in which user 1001 started a redeem six minutes ago and a
    reset one minute ago, has a cooldown that ran out and one that is
    running, a cache entry that expired eleven minutes ago and one that is
    valid. *)
Definition cluttered_world : World :=
  with_activeOperations
    {[ operation_key "1001" "redeem" := 1699999640000;
       operation_key "1001" "reset" := 1699999940000 ]}
    (with_cooldowns
       {[ "1001" := 1699999999000; "2002" := 1700000002000 ]}
       (with_userKeyCache
          {[ "1001" := {| c_keys := ["VORAHUB-AAAAAA-111111-BBBBBB"];
                          c_expires := 1699999340000;
                          c_lastRefresh := 1699999040000 |};
             "2002" := {| c_keys := [];
                          c_expires := 1700000100000;
                          c_lastRefresh := 1699999800000 |} ]}
          (fresh_world [bound_doc] ∅ 1700000000000))).

(** ** Bounds on the store traffic *)

(** A task adds at most [n] rounds to the store traffic, whatever its
    outcome, and every request it sends satisfies [P]. *)
Definition traffic {A} (n : nat) (P : Request -> Prop) (m : Task A) : Prop :=
  forall w, exists rounds,
    io (snd (m w)) = io w ++ rounds
    /\ (length rounds <= n)%nat
    /\ forall rq ok, In (rq, ok) (concat rounds) -> P rq.

(** The requests [refreshUserKeys(userId, discordTag, isBackground)] can
    send. *)
Definition refresh_request (userId discordTag : string) (isBackground : bool)
    (rq : Request) : Prop :=
  match rq with
  | KeysWhereUserId u => u = userId
  | WhitelistDoc u => u = userId
  | KeysWhereUsedByDiscord label limit =>
      isBackground = false /\ limit = 5%nat
      /\ (label = discordTag \/ label = username_of discordTag)
  | KeysDoc _ => True
  | BatchCommit ops => (0 < length ops <= BATCH_LIMIT)%nat
  | BlacklistDoc _ | GeneratedKeysDoc _ => False
  end.

(** ** What a refresh may write *)

(** A field is assigned only where the record read had none. *)
Definition fills_blank {A} (assigned : option A) (value : A) (blank : bool) : Prop :=
  assigned = None \/ (assigned = Some value /\ blank = true).

(** The writes of a refresh of [userId], relative to the store it read:
    the record of the key that the whitelist entry of [userId] links,
    when that key has no record yet, or an update that assigns at least
    one field and only fields that were blank. *)
Definition repair_write (userId discordTag : string) (s0 : Store) (op : WriteOp) : Prop :=
  match op with
  | BatchSetKey keyId data =>
      keyId <> ""
      /\ (exists whitelistData,
             whitelist_collection s0 !! userId = Some whitelistData
             /\ wl_key whitelistData = Some keyId)
      /\ keys_doc keyId (keys_collection s0) = None
      /\ data = whitelist_key_data userId discordTag
  | BatchUpdateKey keyId updates =>
      (0 < Object_keys_length updates)%nat
      /\ exists data,
          In (keyId, data) (keys_collection s0)
          /\ fills_blank (u_userId updates) userId (negb (truthy_string (k_userId data)))
          /\ fills_blank (u_usedByDiscord updates) discordTag
               (negb (truthy_string (k_usedByDiscord data)))
          /\ fills_blank (u_whitelisted updates) true (negb (k_whitelisted data))
  | BatchDeletePending _ => False
  end.

(** The writes of the batches sent in [rounds], in the order sent. *)
Definition writes_of (rounds : list Round) : list WriteOp :=
  flat_map (fun sent : Request * bool =>
              match fst sent with
              | BatchCommit ops => ops
              | _ => []
              end)
    (concat rounds).

Definition is_creation (op : WriteOp) : bool :=
  match op with
  | BatchSetKey _ _ => true
  | _ => false
  end.

(** What the batches of a refresh hold: repairs, with at most one
    creation among them. *)
Definition repairs (userId discordTag : string) (s0 : Store) (ops : list WriteOp) : Prop :=
  Forall (repair_write userId discordTag s0) ops
  /\ (length (List.filter is_creation ops) <= 1)%nat.

Definition no_writes (ops : list WriteOp) : Prop := ops = [].

(** The stores reached from [s0] by such writes. *)
Inductive repaired_from (userId discordTag : string) (s0 : Store) : Store -> Prop :=
| repaired_refl : repaired_from userId discordTag s0 s0
| repaired_step (s : Store) (now : Z) (op : WriteOp) (s' : Store) :
    repaired_from userId discordTag s0 s ->
    repair_write userId discordTag s0 op ->
    apply_op now op s = Some s' ->
    repaired_from userId discordTag s0 s'.

(** What is left of a record [d] in [d']: the terms of the key, and the
    holder, the label and the whitelist flag where [d] had them. *)
Definition kept (d d' : KeyData) : Prop :=
  k_expiresAt d' = k_expiresAt d
  /\ k_hwid d' = k_hwid d
  /\ k_hwidLimit d' = k_hwidLimit d
  /\ k_used d' = k_used d
  /\ k_alreadyRedeem d' = k_alreadyRedeem d
  /\ k_usedAt d' = k_usedAt d
  /\ k_createdAt d' = k_createdAt d
  /\ (truthy_string (k_userId d) = true -> k_userId d' = k_userId d)
  /\ (truthy_string (k_usedByDiscord d) = true -> k_usedByDiscord d' = k_usedByDiscord d)
  /\ (k_whitelisted d = true -> k_whitelisted d' = true).

(** A run of [m] from a process that satisfies [Pre]: the writes of the
    batches it sends satisfy [W]; when it returns [a] the process
    satisfies [Post a], when it throws, [Fail]. *)
Definition triple {A} (Pre : World -> Prop) (m : Task A) (W : list WriteOp -> Prop)
    (Post : A -> World -> Prop) (Fail : World -> Prop) : Prop :=
  forall w, Pre w ->
    exists rounds,
      io (snd (m w)) = io w ++ rounds
      /\ W (writes_of rounds)
      /\ match fst (m w) with
         | Resolved a => Post a (snd (m w))
         | Thrown _ => Fail (snd (m w))
         end.

(** ** The redemption *)



(** User 1001 holds a key; another key waits in [generated_keys], valid
    for thirty days from its redemption. *)
Definition pending_world : World :=
  with_db
    (with_generated_keys
       {[ "VORAHUB-0A1B2C-3D4E5F-678901" := {| p_expiresInDays := Some 30 |} ]}
       (db labelled_world))
    labelled_world.

(** The same store with a key that is to last three million days, and a
    process in which user 2002 redeemed a second ago. *)
Definition far_future_world : World :=
  with_db
    (with_generated_keys
       {[ "VORAHUB-0A1B2C-3D4E5F-678901" := {| p_expiresInDays := Some 3000000 |} ]}
       (db labelled_world))
    labelled_world.

Definition cooling_world : World :=
  with_cooldowns {[ "2002" := 1700000002000 ]} pending_world.

(** * Properties *)

(** ** Running tasks *)

Lemma bind_run {A B} (m : Task A) (k : A -> Task B) w :
  bind m k w =
  match m w with
  | (Resolved a, w') => k a w'
  | (Thrown e, w') => (Thrown e, w')
  end.
Proof. reflexivity. Qed.

Lemma bind_resolved {A B} (m : Task A) (k : A -> Task B) w b w' :
  bind m k w = (Resolved b, w') ->
  exists a w1, m w = (Resolved a, w1) /\ k a w1 = (Resolved b, w').
Proof.
  unfold bind. destruct (m w) as [[a|e] w1]; intros H.
  - exists a, w1. split; [reflexivity | exact H].
  - discriminate H.
Qed.

Lemma bind_thrown {A B} (m : Task A) (k : A -> Task B) w e w' :
  bind m k w = (Thrown e, w') ->
  m w = (Thrown e, w') \/
  exists a w1, m w = (Resolved a, w1) /\ k a w1 = (Thrown e, w').
Proof.
  unfold bind. destruct (m w) as [[a|e0] w1]; intros H.
  - right. exists a, w1. split; [reflexivity | exact H].
  - left. inversion H; subst. reflexivity.
Qed.

(** A handler that logs and rethrows does not turn a failure into a
    result. *)
Lemma try_catch_rethrow_resolved {A} (body : Task A) (l : Error -> LogLine) w a w' :
  try_catch body (fun error => console_log (l error) ;; throw error) w = (Resolved a, w') ->
  body w = (Resolved a, w').
Proof.
  unfold try_catch. destruct (body w) as [[x|e] w1]; intros H.
  - exact H.
  - discriminate H.
Qed.

Lemma try_catch_rethrow_thrown {A} (body : Task A) (l : Error -> LogLine) w e w' :
  try_catch body (fun error => console_log (l error) ;; throw error) w = (Thrown e, w') ->
  exists w1, body w = (Thrown e, w1) /\ w' = with_console (console w1 ++ [l e]) w1.
Proof.
  unfold try_catch. destruct (body w) as [[x|e0] w1]; intros H.
  - discriminate H.
  - exists w1. cbv [bind console_log throw] in H. inversion H; subst. split; reflexivity.
Qed.

(** ** The batches of safeBatchCommit *)

Lemma batch_loop_fill (a rest : list WriteOp) :
  forall batches current count,
    count = length current ->
    (length current + length a = BATCH_LIMIT)%nat ->
    (0 < length a)%nat ->
    batch_loop (a ++ rest) batches current count
    = batch_loop rest (batches ++ [current ++ a]) [] 0%nat.
Proof.
  induction a as [|op a IH]; intros batches current count Hc Hlen Hpos.
  - simpl in Hpos. lia.
  - cbn [app batch_loop]. cbn [length] in Hlen.
    destruct (Nat.leb_spec BATCH_LIMIT (S count)) as [Hle|Hlt].
    + assert (a = []) as -> by (destruct a; [reflexivity | cbn [length] in Hlen; lia]).
      reflexivity.
    + rewrite IH.
      * rewrite <- app_assoc. reflexivity.
      * rewrite length_app. cbn [length]. lia.
      * rewrite length_app. cbn [length]. lia.
      * destruct a; [cbn [length] in Hlen; lia | cbn [length]; lia].
Qed.

Lemma batch_loop_short (a : list WriteOp) :
  forall batches current count,
    count = length current ->
    (length current + length a < BATCH_LIMIT)%nat ->
    batch_loop a batches current count = (batches, current ++ a, (count + length a)%nat).
Proof.
  induction a as [|op a IH]; intros batches current count Hc Hlen.
  - cbn [batch_loop length]. rewrite app_nil_r, Nat.add_0_r. reflexivity.
  - cbn [batch_loop]. cbn [length] in Hlen.
    destruct (Nat.leb_spec BATCH_LIMIT (S count)) as [Hle|Hlt]; [lia|].
    rewrite IH.
    + rewrite <- app_assoc. cbn [length app]. f_equal. lia.
    + rewrite length_app. cbn [length]. lia.
    + rewrite length_app. cbn [length]. lia.
Qed.

(** The loop neither drops nor reorders a write, and [count] is the size
    of the current batch. *)
Lemma batch_loop_concat (operations : list WriteOp) :
  forall batches current count batches' current' count',
    count = length current ->
    batch_loop operations batches current count = (batches', current', count') ->
    concat batches' ++ current' = concat batches ++ current ++ operations
    /\ count' = length current'.
Proof.
  induction operations as [|op rest IH]; intros batches current count batches' current' count' Hc H.
  - cbn [batch_loop] in H. inversion H; subst. rewrite app_nil_r. split; reflexivity.
  - cbn [batch_loop] in H.
    destruct (BATCH_LIMIT <=? S count)%nat.
    + apply IH in H; [|reflexivity]. destruct H as [H1 H2]. split; [|exact H2].
      rewrite H1. rewrite concat_app. cbn [concat]. rewrite !app_nil_r.
      rewrite <- !app_assoc. reflexivity.
    + apply IH in H; [|rewrite length_app; cbn [length]; lia].
      destruct H as [H1 H2]. split; [|exact H2].
      rewrite H1. rewrite <- !app_assoc. reflexivity.
Qed.

Lemma make_batches_concat (operations : list WriteOp) :
  concat (make_batches operations) = operations.
Proof.
  unfold make_batches.
  destruct (batch_loop operations [] [] 0%nat) as [[batches current] count] eqn:E.
  apply batch_loop_concat in E; [|reflexivity]. destruct E as [E1 E2].
  cbn [concat app] in E1.
  destruct (Nat.ltb_spec 0 count) as [Hpos|Hz].
  - rewrite concat_app. cbn [concat]. rewrite app_nil_r. exact E1.
  - assert (current = []) as -> by (destruct current; [reflexivity | cbn [length] in E2; lia]).
    rewrite app_nil_r in E1. exact E1.
Qed.

Lemma make_batches_1000 (operations : list WriteOp) :
  length operations = 1000%nat ->
  make_batches operations
  = [firstn 450 operations; firstn 450 (skipn 450 operations); skipn 900 operations].
Proof.
  intros Hlen.
  set (a1 := firstn 450 operations).
  set (a2 := firstn 450 (skipn 450 operations)).
  set (a3 := skipn 900 operations).
  assert (Hsplit : operations = a1 ++ a2 ++ a3).
  { subst a1 a2 a3.
    rewrite <- (firstn_skipn 450 operations) at 1. f_equal.
    rewrite <- (firstn_skipn 450 (skipn 450 operations)) at 1. f_equal.
    rewrite skipn_skipn. reflexivity. }
  assert (H1 : length a1 = 450%nat) by (subst a1; rewrite length_firstn; lia).
  assert (H2 : length a2 = 450%nat)
    by (subst a2; rewrite length_firstn, length_skipn; lia).
  assert (H3 : length a3 = 100%nat) by (subst a3; rewrite length_skipn; lia).
  unfold make_batches. rewrite Hsplit.
  rewrite (batch_loop_fill a1 (a2 ++ a3) [] [] 0%nat);
    [|reflexivity | unfold BATCH_LIMIT; cbn [length]; lia | lia].
  rewrite <- (app_nil_r a3) at 1.
  rewrite (batch_loop_fill a2 (a3 ++ []) _ [] 0%nat);
    [|reflexivity | unfold BATCH_LIMIT; cbn [length]; lia | lia].
  rewrite app_nil_r.
  rewrite (batch_loop_short a3);
    [|reflexivity | unfold BATCH_LIMIT; cbn [length]; lia].
  rewrite H3. reflexivity.
Qed.

(** ** Rounds *)

Lemma new_rounds_app (w w' : World) (rounds : list Round) :
  io w' = io w ++ rounds -> new_rounds w w' = rounds.
Proof. intros H. unfold new_rounds. rewrite H. apply drop_app_length. Qed.

Lemma new_rounds_refl (w : World) : new_rounds w w = [].
Proof. apply new_rounds_app. rewrite app_nil_r. reflexivity. Qed.

(** ** Committing batches *)

Lemma commit_batches_requests (w : World) (batches : list (list WriteOp)) :
  forall k s round s' failure,
    commit_batches w k batches s = (round, s', failure) ->
    map fst round = map BatchCommit batches.
Proof.
  induction batches as [|b rest IH]; intros k s round s' failure H.
  - cbn [commit_batches] in H. inversion H; subst. reflexivity.
  - cbn [commit_batches] in H.
    destruct (commit_batches w (S k) rest _) as [[round1 s1] failure1] eqn:E.
    inversion H; subst. cbn [map fst]. f_equal. eapply IH. exact E.
Qed.

(** Either every batch went through, and then the store holds all the
    writes in order, or a rejected batch is on record and is the cause. *)
Lemma commit_batches_outcome (w : World) (batches : list (list WriteOp)) :
  forall k s round s' failure,
    commit_batches w k batches s = (round, s', failure) ->
    match failure with
    | None =>
        round = map (fun b => (BatchCommit b, true)) batches
        /\ apply_batch (clock w) (concat batches) s = Some s'
    | Some e =>
        exists b, e = StoreError (BatchCommit b) /\ In (BatchCommit b, false) round
    end.
Proof.
  induction batches as [|b rest IH]; intros k s round s' failure H.
  - cbn [commit_batches] in H. inversion H; subst. split; reflexivity.
  - cbn [commit_batches] in H.
    destruct (commit_batches w (S k) rest _) as [[round1 s1] failure1] eqn:E.
    apply IH in E.
    destruct (if accepted w k then apply_batch (clock w) b s else None) as [sb|] eqn:Eb.
    + inversion H; subst. destruct failure as [e|].
      * destruct E as [b' [He Hin]]. exists b'. split; [exact He | right; exact Hin].
      * destruct E as [Hr Hs]. split.
        -- cbn [map]. rewrite Hr. reflexivity.
        -- destruct (accepted w k); [|discriminate Eb].
           cbn [concat].
           clear - Eb Hs. revert s Eb. induction b as [|op b IHb]; intros s Eb.
           ++ cbn [apply_batch] in Eb. inversion Eb; subst. exact Hs.
           ++ cbn [apply_batch app] in *. destruct (apply_op (clock w) op s); [|discriminate Eb].
              apply IHb. exact Eb.
    + inversion H; subst. exists b. split; [reflexivity | left; reflexivity].
Qed.

Lemma all_accepted_no_rejection (round : Round) (rq : Request) :
  In (rq, false) round -> forallb snd round = false.
Proof.
  induction round as [|x round IH]; intros Hin.
  - destruct Hin.
  - cbn [forallb]. destruct Hin as [->|Hin].
    + reflexivity.
    + rewrite IH by exact Hin. apply andb_false_r.
Qed.

(** What a call of [safeBatchCommit] on a non-empty list does. *)
Lemma safeBatchCommit_run (operations : list WriteOp) (w : World) :
  operations <> [] ->
  exists round s failure,
    commit_batches w 0 (make_batches operations) (db w) = (round, s, failure)
    /\ map fst round = map BatchCommit (make_batches operations)
    /\ match failure with
       | None =>
           safeBatchCommit operations w
           = (Resolved (length (make_batches operations)),
              with_console
                (console w ++ [LogBatchCommitted (length operations)
                                 (length (make_batches operations))])
                (end_round round (with_db s w)))
           /\ round = map (fun b => (BatchCommit b, true)) (make_batches operations)
           /\ apply_batch (clock w) operations (db w) = Some s
       | Some e =>
           safeBatchCommit operations w
           = (Thrown e,
              with_console (console w ++ [LogBatchError e]) (end_round round (with_db s w)))
           /\ forallb snd round = false
       end.
Proof.
  intros Hne.
  destruct (commit_batches w 0 (make_batches operations) (db w)) as [[round s] failure] eqn:E.
  exists round, s, failure. split; [reflexivity|].
  split; [eapply commit_batches_requests; exact E|].
  pose proof (commit_batches_outcome _ _ _ _ _ _ _ E) as Hout.
  unfold safeBatchCommit.
  destruct operations as [|op rest]; [contradiction|].
  cbn [length Nat.eqb].
  unfold try_catch, bind, Promise_all_commit. rewrite E.
  destruct failure as [e|].
  - destruct Hout as [b [He Hin]]. split; [reflexivity|].
    eapply all_accepted_no_rejection. exact Hin.
  - destruct Hout as [Hr Hs]. split; [reflexivity|]. split; [exact Hr|].
    rewrite make_batches_concat in Hs. exact Hs.
Qed.

(** C7: 1000 deferred operations are split into three batches of 450,
    450 and 100 operations, in order, and the three commits are sent
    together; when the store accepts them the call returns 3 (the number
    of batches), the console line reports 1000 operations in 3 batches and
    the store holds all the writes. An empty operation list returns 0
    without touching the store or the console. *)
Theorem safeBatchCommit_chunks_1000 (operations : list WriteOp) (w : World) :
  let chunks :=
    [firstn 450 operations; firstn 450 (skipn 450 operations); skipn 900 operations] in
  let run := safeBatchCommit operations w in
  safeBatchCommit [] w = (Resolved 0%nat, w)
  /\ (length operations = 1000%nat ->
      map (@length WriteOp) chunks = [450; 450; 100]%nat
      /\ concat chunks = operations
      /\ (exists round,
            new_rounds w (snd run) = [round]
            /\ map fst round = map BatchCommit chunks)
      /\ (all_accepted (new_rounds w (snd run)) = true ->
          new_rounds w (snd run) = [map (fun b => (BatchCommit b, true)) chunks]
          /\ fst run = Resolved 3%nat
          /\ console (snd run) = console w ++ [LogBatchCommitted 1000 3]
          /\ apply_batch (clock w) operations (db w) = Some (db (snd run)))).
Proof.
  intros chunks run. split; [reflexivity|]. intros Hlen.
  assert (Hne : operations <> []) by (intros ->; discriminate Hlen).
  pose proof (make_batches_1000 operations Hlen) as Hb. fold chunks in Hb.
  split.
  { subst chunks. cbn [map]. rewrite !length_firstn, !length_skipn. repeat f_equal; lia. }
  split; [rewrite <- Hb; apply make_batches_concat|].
  destruct (safeBatchCommit_run operations w Hne) as (round & s & failure & _ & Hreq & Hrun).
  rewrite Hb in *. subst run.
  destruct failure as [e|].
  - destruct Hrun as [Hrun Hrej]. rewrite Hrun. cbn [fst snd].
    erewrite new_rounds_app by reflexivity.
    split; [exists round; split; [reflexivity | exact Hreq]|].
    intros Hok. exfalso.
    unfold all_accepted in Hok. cbn [forallb] in Hok. rewrite Hrej in Hok. discriminate Hok.
  - destruct Hrun as (Hrun & Hround & Hstore). rewrite Hrun. cbn [fst snd].
    erewrite new_rounds_app by reflexivity.
    split; [exists round; split; [reflexivity | exact Hreq]|].
    intros _. rewrite Hlen, Hround.
    split; [reflexivity|]. split; [reflexivity|]. split; [reflexivity | exact Hstore].
Qed.

Lemma safeBatchCommit_chunks_1000_witness :
  fst (safeBatchCommit (repeat (BatchDeletePending "VORAHUB-AAAAAA-000000-FFFFFF") 1000)
         empty_world) = Resolved 3%nat
  /\ console (snd (safeBatchCommit
                     (repeat (BatchDeletePending "VORAHUB-AAAAAA-000000-FFFFFF") 1000)
                     empty_world))
     = [LogBatchCommitted 1000 3].
Proof.
  destruct (safeBatchCommit_chunks_1000
              (repeat (BatchDeletePending "VORAHUB-AAAAAA-000000-FFFFFF") 1000)
              empty_world)
    as (_ & H).
  destruct H as (_ & _ & _ & H); [vm_compute; reflexivity|].
  destruct H as (_ & Hr & Hc & _); [vm_compute; reflexivity|].
  split; [exact Hr | exact Hc].
Defined.

(** ** Reads *)

Lemma get_resolved {A} (r : Read A) w a w' :
  get r w = (Resolved a, w') ->
  a = answer r (db w) /\ w' = end_round [(request r, true)] w.
Proof.
  unfold get. destruct (accepted w 0); intros H; inversion H; subst.
  split; reflexivity.
Qed.

Lemma get_thrown {A} (r : Read A) w e w' :
  get r w = (Thrown e, w') ->
  e = StoreError (request r) /\ w' = end_round [(request r, false)] w.
Proof.
  unfold get. destruct (accepted w 0); intros H; inversion H; subst.
  split; reflexivity.
Qed.

Lemma Promise_all2_resolved {A B} (r1 : Read A) (r2 : Read B) w x w' :
  Promise_all2 r1 r2 w = (Resolved x, w') ->
  x = (answer r1 (db w), answer r2 (db w))
  /\ w' = end_round [(request r1, true); (request r2, true)] w.
Proof.
  unfold Promise_all2. destruct (accepted w 0), (accepted w 1);
    intros H; inversion H; subst. split; reflexivity.
Qed.

Lemma Promise_all2_thrown {A B} (r1 : Read A) (r2 : Read B) w e w' :
  Promise_all2 r1 r2 w = (Thrown e, w') ->
  exists ok1 ok2,
    w' = end_round [(request r1, ok1); (request r2, ok2)] w
    /\ ((ok1 = false /\ e = StoreError (request r1))
        \/ (ok2 = false /\ e = StoreError (request r2))).
Proof.
  unfold Promise_all2. intros H. exists (accepted w 0), (accepted w 1).
  destruct (accepted w 0), (accepted w 1); inversion H; subst;
    (split; [reflexivity|]); auto.
Qed.

(** ** The blocks of refreshUserKeys *)

Lemma process_fallback_resolved userId discordTag username isBackground acc w acc' w' :
  process_fallback userId discordTag username isBackground acc w = (Resolved acc', w') ->
  ((fst acc <> [] \/ isBackground = true) /\ acc' = acc /\ w' = w)
  \/ (fst acc = [] /\ isBackground = false
      /\ w' = end_round [(KeysWhereUsedByDiscord discordTag 5, true);
                         (KeysWhereUsedByDiscord username 5, true)] w
      /\ acc' = fold_left (fallback_step (clock w') userId)
                  (keys_where_usedByDiscord username 5 (keys_collection (db w)))
                  (fold_left (fallback_step (clock w') userId)
                     (keys_where_usedByDiscord discordTag 5 (keys_collection (db w)))
                     acc)).
Proof.
  unfold process_fallback. intros H.
  destruct (fst acc) as [|k ks] eqn:Ek; cbn [length Nat.eqb andb] in H.
  - destruct isBackground; cbn [negb] in H.
    + inversion H; subst. left. auto.
    + right. apply bind_resolved in H. destruct H as (x & w1 & H1 & H2).
      apply Promise_all2_resolved in H1. destruct H1 as [-> ->].
      cbv [bind Date_now ret] in H2. inversion H2; subst.
      repeat split; reflexivity.
  - inversion H; subst. left. split; [left; discriminate | auto].
Qed.

Lemma process_whitelist_resolved userId discordTag whitelistDoc acc w acc' w' :
  process_whitelist userId discordTag whitelistDoc acc w = (Resolved acc', w') ->
  (acc' = acc /\ w' = w
   /\ forall whitelistData key,
        whitelistDoc = Some whitelistData -> wl_key whitelistData = Some key ->
        key = "" \/ Set_has key (fst acc) = true)
  \/ (exists whitelistData key,
        whitelistDoc = Some whitelistData /\ wl_key whitelistData = Some key
        /\ key <> "" /\ Set_has key (fst acc) = false
        /\ w' = end_round [(KeysDoc key, true)] w
        /\ fst acc' = Set_add key (fst acc)
        /\ snd acc' =
           match keys_doc key (keys_collection (db w)) with
           | None => snd acc ++ [BatchSetKey key (whitelist_key_data userId discordTag)]
           | Some keyData =>
               push_update key (whitelist_updates userId discordTag keyData) (snd acc)
           end).
Proof.
  unfold process_whitelist. destruct acc as [keys ops]. cbn [fst snd].
  destruct whitelistDoc as [whitelistData|].
  2:{ intros H; inversion H; subst. left. repeat split. intros ? ? Hx; discriminate Hx. }
  destruct (wl_key whitelistData) as [key|] eqn:Ekey.
  2:{ intros H; inversion H; subst. left. repeat split.
      intros ? ? Hx Hy. inversion Hx; subst. rewrite Ekey in Hy. discriminate Hy. }
  cbn [truthy_string].
  destruct (String.eqb_spec key "") as [Hempty|Hne]; cbn [negb andb].
  { intros H; inversion H; subst. left. repeat split.
    intros ? ? Hx Hy. inversion Hx; subst. rewrite Ekey in Hy. inversion Hy; subst. auto. }
  destruct (Set_has key keys) eqn:Ehas; cbn [negb].
  { intros H; inversion H; subst. left. repeat split.
    intros ? ? Hx Hy. inversion Hx; subst. rewrite Ekey in Hy. inversion Hy; subst. auto. }
  intros H. right. exists whitelistData, key.
  apply bind_resolved in H. destruct H as (keyDoc & w1 & H1 & H2).
  apply get_resolved in H1. destruct H1 as [-> ->]. cbn [answer db_keys_doc] in H2.
  destruct (keys_doc key (keys_collection (db w))) as [keyData|];
    inversion H2; subst; cbn [fst snd]; repeat split; auto.
Qed.

(** A refresh that returns went through its blocks in order; the worlds
    between the blocks are named so that later lemmas can refer to the
    time of each pass. *)
Lemma refreshUserKeys_resolved userId discordTag isBackground w keys w' :
  refreshUserKeys userId discordTag isBackground w = (Resolved keys, w') ->
  exists acc2 w2 acc3 w3 w4,
    let w1 := end_round [(KeysWhereUserId userId, true); (WhitelistDoc userId, true)] w in
    let acc1 := fold_left (userId_step (clock w1) discordTag)
                  (keys_where_userId userId (keys_collection (db w))) ([], []) in
    process_fallback userId discordTag (username_of discordTag) isBackground acc1 w1
    = (Resolved acc2, w2)
    /\ process_whitelist userId discordTag (whitelist_collection (db w) !! userId) acc2 w2
       = (Resolved acc3, w3)
    /\ (if (0 <? length (snd acc3))%nat
        then exists n, safeBatchCommit (snd acc3) w3 = (Resolved n, w4)
        else w4 = w3)
    /\ keys = fst acc3
    /\ w' = with_userKeyCache
              (<[userId := {| c_keys := fst acc3;
                              c_expires := clock w4 + CACHE_DURATION;
                              c_lastRefresh := clock w4 |}]> (userKeyCache w4))
              (with_console
                 (console w4 ++ [LogKeys isBackground discordTag (length (fst acc3))
                                   (clock w4 - clock w)])
                 w4).
Proof.
  unfold refreshUserKeys. intros H.
  apply bind_resolved in H. destruct H as (startTime & w0 & H0 & H).
  cbv [Date_now] in H0. inversion H0; subst startTime w0. clear H0.
  apply try_catch_rethrow_resolved in H.
  apply bind_resolved in H. destruct H as (snapshots & w1 & H1 & H).
  apply Promise_all2_resolved in H1. destruct H1 as [-> ->].
  cbn [fst snd answer request db_keys_where_userId db_whitelist_doc] in H.
  apply bind_resolved in H. destruct H as (now & w1' & H1 & H).
  cbv [Date_now] in H1. inversion H1; subst now w1'. clear H1.
  apply bind_resolved in H. destruct H as (acc2 & w2 & H2 & H).
  apply bind_resolved in H. destruct H as (acc3 & w3 & H3 & H).
  apply bind_resolved in H. destruct H as ([] & w4 & H4 & H).
  exists acc2, w2, acc3, w3, w4. cbv zeta.
  split; [exact H2|]. split; [exact H3|].
  split.
  { destruct (0 <? length (snd acc3))%nat.
    - apply bind_resolved in H4. destruct H4 as (n & w4' & H4 & H4').
      cbv [ret] in H4'. inversion H4'; subst. exists n. exact H4.
    - cbv [ret] in H4. inversion H4; subst. reflexivity. }
  cbv [bind Date_now console_log userKeyCache_set ret] in H.
  inversion H; subst. split; reflexivity.
Qed.

(** ** The key set and the passes *)

Lemma Set_has_In (k : string) (keys : list string) :
  Set_has k keys = true <-> In k keys.
Proof.
  unfold Set_has. rewrite existsb_exists. split.
  - intros (x & Hin & Heq). apply String.eqb_eq in Heq. subst. exact Hin.
  - intros Hin. exists k. split; [exact Hin | apply String.eqb_refl].
Qed.

Lemma In_Set_add (x k : string) (keys : list string) :
  In x (Set_add k keys) <-> x = k \/ In x keys.
Proof.
  unfold Set_add. destruct (Set_has k keys) eqn:E.
  - apply Set_has_In in E. split; [auto | intros [->|H]; assumption].
  - rewrite in_app_iff. cbn [In]. split.
    + intros [H|[H|[]]]; auto.
    + intros [H|H]; auto.
Qed.

Lemma In_push_update (op : WriteOp) keyId updates ops :
  In op ops -> In op (push_update keyId updates ops).
Proof.
  unfold push_update. destruct (0 <? Object_keys_length updates)%nat; [|auto].
  intros H. apply in_or_app. left. exact H.
Qed.

(** The identity pass adds exactly the records that are not expired; its
    second branch is the whitelisted ones, for which [isKeyExpired]
    answers [false]. *)
Lemma userId_step_keys now discordTag (acc : Acc) (doc : Doc) :
  fst (userId_step now discordTag acc doc)
  = if not_expired now (snd doc) then Set_add (fst doc) (fst acc) else fst acc.
Proof.
  destruct acc as [keys ops], doc as [keyId data]. unfold userId_step, not_expired.
  cbn [fst snd isKeyExpired].
  destruct (k_whitelisted data); cbn [negb andb orb truthy fst]; [reflexivity|].
  destruct (k_expiresAt data) as [| |ms|ms]; cbn [negb truthy is_null expiryTime_of fst];
    try reflexivity.
  - destruct (Z.eqb ms 0) eqn:E0; cbn [negb truthy]; rewrite ?E0; cbn [negb fst];
      [reflexivity|].
    destruct (ms <? now); reflexivity.
  - destruct (Z.eqb ms 0) eqn:E0; cbn [negb truthy]; rewrite ?E0; cbn [negb fst];
      [reflexivity|].
    destruct (ms <? now); reflexivity.
Qed.

Lemma fallback_step_keys now userId (acc : Acc) (doc : Doc) :
  fst (fallback_step now userId acc doc)
  = if not_expired now (snd doc) then Set_add (fst doc) (fst acc) else fst acc.
Proof.
  destruct acc as [keys ops], doc as [keyId data]. unfold fallback_step, not_expired.
  cbn [fst snd]. destruct (Set_has keyId keys) eqn:E.
  - unfold Set_add. rewrite E. destruct (negb _); reflexivity.
  - destruct (negb _); reflexivity.
Qed.

Lemma userId_step_ops now discordTag (acc : Acc) (doc : Doc) (op : WriteOp) :
  In op (snd acc) -> In op (snd (userId_step now discordTag acc doc)).
Proof.
  destruct acc as [keys ops], doc as [keyId data]. unfold userId_step. cbn [fst snd].
  intros H. repeat match goal with |- context [if ?b then _ else _] => destruct b end;
    cbn [snd]; auto using In_push_update.
Qed.

Lemma fallback_step_ops now userId (acc : Acc) (doc : Doc) (op : WriteOp) :
  In op (snd acc) -> In op (snd (fallback_step now userId acc doc)).
Proof.
  destruct acc as [keys ops], doc as [keyId data]. unfold fallback_step. cbn [fst snd].
  intros H. repeat match goal with |- context [if ?b then _ else _] => destruct b end;
    cbn [snd]; auto using In_push_update.
Qed.

Section Pass.
(** Both passes are folds of a step that adds the key of every record
    that is not expired and never removes a queued write. *)
Variable step : Acc -> Doc -> Acc.
Variable now : Z.
Hypothesis step_keys : forall acc doc,
    fst (step acc doc)
    = if not_expired now (snd doc) then Set_add (fst doc) (fst acc) else fst acc.
Hypothesis step_ops : forall acc doc op, In op (snd acc) -> In op (snd (step acc doc)).

Lemma pass_keys (docs : list Doc) :
  forall acc k,
    In k (fst (fold_left step docs acc))
    <-> In k (fst acc)
        \/ exists doc, In doc docs /\ fst doc = k /\ not_expired now (snd doc) = true.
Proof.
  induction docs as [|d docs IH]; intros acc k; cbn [fold_left].
  - split; [auto | intros [H|(doc & [] & _)]; exact H].
  - rewrite IH, step_keys. split.
    + intros [H|(doc & Hin & Hk & Hne)].
      * destruct (not_expired now (snd d)) eqn:E; [|auto].
        apply In_Set_add in H. destruct H as [->|H]; [|auto].
        right. exists d. cbn [In]. auto.
      * right. exists doc. cbn [In]. auto.
    + intros [H|(doc & [->|Hin] & Hk & Hne)].
      * left. destruct (not_expired now (snd d)); [apply In_Set_add|]; auto.
      * left. rewrite Hne. apply In_Set_add. auto.
      * right. exists doc. auto.
Qed.

Lemma pass_ops (docs : list Doc) :
  forall acc op, In op (snd acc) -> In op (snd (fold_left step docs acc)).
Proof.
  induction docs as [|d docs IH]; intros acc op H; cbn [fold_left]; auto.
Qed.
End Pass.

(** ** The expiry test *)


Lemma isKeyExpired_zero now data :
  k_whitelisted data = false ->
  k_expiresAt data = ExpTimestamp 0 \/ k_expiresAt data = ExpNumber 0 ->
  isKeyExpired now (Some data) = JsNumber 0.
Proof.
  intros Hw [He|He]; cbn [isKeyExpired]; rewrite Hw, He; reflexivity.
Qed.


(** A record that is expired stays expired. *)
Lemma expired_later t t' data :
  not_expired t data = false -> t <= t' -> not_expired t' data = false.
Proof.
  unfold not_expired. cbn [isKeyExpired].
  destruct (k_whitelisted data); [intros H _; exact H|].
  destruct (k_expiresAt data) as [| |ms|ms]; cbn [expiryTime_of truthy];
    try (intros H _; exact H);
    (destruct (Z.eqb ms 0) eqn:E0; cbn [negb truthy]; rewrite ?E0; cbn [negb];
     [intros H _; exact H|];
     intros H Hle; apply negb_false_iff in H; apply Z.ltb_lt in H;
     apply negb_false_iff; apply Z.ltb_lt; lia).
Qed.

(** ** Worlds between the blocks *)

Lemma clock_after_1 (w : World) :
  clock_after 1 w = clock w + Z.of_nat (latency w (length (io w))).
Proof. cbn [clock_after]. rewrite Nat.add_0_r. reflexivity. Qed.


Lemma clock_after_S_le (n : nat) (w : World) : clock_after n w <= clock_after (S n) w.
Proof. cbn [clock_after]. lia. Qed.

Lemma clock_end_round (r : Round) (w : World) :
  clock (end_round r w) = clock_after 1 w.
Proof. rewrite clock_after_1. reflexivity. Qed.

Lemma clock_end_round_2 (r1 r2 : Round) (w : World) :
  clock (end_round r2 (end_round r1 w)) = clock_after 2 w.
Proof.
  cbn [clock_after end_round clock with_clock with_io io latency].
  rewrite length_app. cbn [length]. rewrite Nat.add_0_r. reflexivity.
Qed.

(** The anatomy of a refresh that returns: what each block contributed
    to the key set, to the queued writes and to the store traffic. *)
Lemma refreshUserKeys_anatomy userId discordTag isBackground w keys w' :
  refreshUserKeys userId discordTag isBackground w = (Resolved keys, w') ->
  let docs := keys_collection (db w) in
  let acc1 := fold_left (userId_step (clock_after 1 w) discordTag)
                (keys_where_userId userId docs) ([], []) in
  exists (acc2 acc3 : Acc) (fb wl cm : list Round),
    (((fst acc1 <> [] \/ isBackground = true) /\ acc2 = acc1 /\ fb = [])
     \/ (fst acc1 = [] /\ isBackground = false
         /\ acc2 = fold_left (fallback_step (clock_after 2 w) userId)
                     (keys_where_usedByDiscord (username_of discordTag) 5 docs)
                     (fold_left (fallback_step (clock_after 2 w) userId)
                        (keys_where_usedByDiscord discordTag 5 docs) acc1)
         /\ fb = [[(KeysWhereUsedByDiscord discordTag 5, true);
                   (KeysWhereUsedByDiscord (username_of discordTag) 5, true)]]))
    /\ ((acc3 = acc2 /\ wl = []
         /\ forall whitelistData key,
              whitelist_collection (db w) !! userId = Some whitelistData ->
              wl_key whitelistData = Some key ->
              key = "" \/ In key (fst acc2))
        \/ (exists whitelistData key,
              whitelist_collection (db w) !! userId = Some whitelistData
              /\ wl_key whitelistData = Some key
              /\ key <> "" /\ ~ In key (fst acc2)
              /\ wl = [[(KeysDoc key, true)]]
              /\ fst acc3 = fst acc2 ++ [key]
              /\ snd acc3 =
                 match keys_doc key docs with
                 | None => snd acc2 ++ [BatchSetKey key (whitelist_key_data userId discordTag)]
                 | Some keyData =>
                     push_update key (whitelist_updates userId discordTag keyData) (snd acc2)
                 end))
    /\ ((snd acc3 = [] /\ cm = [] /\ db w' = db w)
        \/ (snd acc3 <> []
            /\ cm = [map (fun b => (BatchCommit b, true)) (make_batches (snd acc3))]
            /\ exists committedAt, apply_batch committedAt (snd acc3) (db w) = Some (db w')))
    /\ keys = fst acc3
    /\ io w' = io w ++ [[(KeysWhereUserId userId, true); (WhitelistDoc userId, true)]]
                    ++ fb ++ wl ++ cm
    /\ userKeyCache w'
       = <[userId := {| c_keys := keys;
                        c_expires := clock w' + CACHE_DURATION;
                        c_lastRefresh := clock w' |}]> (userKeyCache w).
Proof.
  intros H docs acc1.
  apply refreshUserKeys_resolved in H.
  destruct H as (acc2 & w2 & acc3 & w3 & w4 & Hfb & Hwl & Hcm & Hkeys & Hw').
  cbv zeta in Hfb. rewrite clock_end_round in Hfb. fold docs in Hfb. fold acc1 in Hfb.
  set (r1 := [(KeysWhereUserId userId, true); (WhitelistDoc userId, true)]) in *.
  apply process_fallback_resolved in Hfb.
  apply process_whitelist_resolved in Hwl.
  assert (Hfb' : exists fb,
             io w2 = io w ++ [r1] ++ fb /\ db w2 = db w
             /\ userKeyCache w2 = userKeyCache w
             /\ (((fst acc1 <> [] \/ isBackground = true) /\ acc2 = acc1 /\ fb = [])
     \/ (fst acc1 = [] /\ isBackground = false
         /\ acc2 = fold_left (fallback_step (clock_after 2 w) userId)
                     (keys_where_usedByDiscord (username_of discordTag) 5 docs)
                     (fold_left (fallback_step (clock_after 2 w) userId)
                        (keys_where_usedByDiscord discordTag 5 docs) acc1)
         /\ fb = [[(KeysWhereUsedByDiscord discordTag 5, true);
                   (KeysWhereUsedByDiscord (username_of discordTag) 5, true)]]))).
  { destruct Hfb as [(Hc & -> & ->)|(Hk & Hbg & -> & ->)].
    - exists []. repeat split; auto.
    - eexists. split; [|split; [|split; [|right; repeat split; try reflexivity; auto]]].
      + cbn [io end_round with_clock with_io]. rewrite <- app_assoc. reflexivity.
      + reflexivity.
      + reflexivity.
      + rewrite clock_end_round_2. reflexivity. }
  clear Hfb. destruct Hfb' as (fb & Hio2 & Hdb2 & Hcache2 & Hfb).
  assert (Hwl' : exists wl,
             io w3 = io w ++ [r1] ++ fb ++ wl /\ db w3 = db w
             /\ userKeyCache w3 = userKeyCache w
             /\ ((acc3 = acc2 /\ wl = []
         /\ forall whitelistData key,
              whitelist_collection (db w) !! userId = Some whitelistData ->
              wl_key whitelistData = Some key ->
              key = "" \/ In key (fst acc2))
        \/ (exists whitelistData key,
              whitelist_collection (db w) !! userId = Some whitelistData
              /\ wl_key whitelistData = Some key
              /\ key <> "" /\ ~ In key (fst acc2)
              /\ wl = [[(KeysDoc key, true)]]
              /\ fst acc3 = fst acc2 ++ [key]
              /\ snd acc3 =
                 match keys_doc key docs with
                 | None => snd acc2 ++ [BatchSetKey key (whitelist_key_data userId discordTag)]
                 | Some keyData =>
                     push_update key (whitelist_updates userId discordTag keyData) (snd acc2)
                 end))).
  { destruct Hwl as [(-> & -> & Hno)|(wd & key & Hwd & Hkey & Hne & Hhas & -> & Hk3 & Ho3)].
    - exists []. rewrite app_nil_r. repeat split; auto. left. repeat split.
      intros wd key Hwd Hkey. destruct (Hno wd key Hwd Hkey) as [?|Hin]; [auto|].
      right. apply Set_has_In. exact Hin.
    - exists [[(KeysDoc key, true)]]. split; [|split; [exact Hdb2|split; [exact Hcache2|]]].
      + cbn [io end_round with_clock with_io]. rewrite Hio2, <- !app_assoc. reflexivity.
      + right. exists wd, key. rewrite Hdb2 in Ho3. fold docs in Ho3.
        repeat split; auto.
        * intros Hin. apply Set_has_In in Hin. congruence.
        * rewrite Hk3. unfold Set_add. rewrite Hhas. reflexivity. }
  clear Hwl. destruct Hwl' as (wl & Hio3 & Hdb3 & Hcache3 & Hwl).
  assert (Hcm' : exists cm,
             io w4 = io w ++ [r1] ++ fb ++ wl ++ cm
             /\ userKeyCache w4 = userKeyCache w
             /\ ((snd acc3 = [] /\ cm = [] /\ db w4 = db w)
        \/ (snd acc3 <> []
            /\ cm = [map (fun b => (BatchCommit b, true)) (make_batches (snd acc3))]
            /\ exists committedAt, apply_batch committedAt (snd acc3) (db w) = Some (db w4)))).
  { destruct (snd acc3) as [|op ops] eqn:Eops; cbn [length Nat.ltb Nat.leb] in Hcm.
    - subst w4. exists []. rewrite !app_nil_r. repeat split; auto.
    - destruct Hcm as [n Hcm].
      destruct (safeBatchCommit_run (op :: ops) w3) as (round & s & failure & _ & _ & Hrun);
        [discriminate|].
      destruct failure as [e|]; [destruct Hrun as [Hrun _]; congruence|].
      destruct Hrun as (Hrun & Hround & Hstore).
      rewrite Hrun in Hcm. inversion Hcm; subst n w4. clear Hcm.
      eexists. split; [|split; [exact Hcache3|right; split; [discriminate|split; [reflexivity|]]]].
      + cbn [io end_round with_clock with_io with_console with_db].
        rewrite Hio3, Hround, <- !app_assoc. reflexivity.
      + exists (clock w3). rewrite Hdb3 in Hstore. exact Hstore. }
  clear Hcm. destruct Hcm' as (cm & Hio4 & Hcache4 & Hcm).
  exists acc2, acc3, fb, wl, cm.
  split; [exact Hfb|]. split; [exact Hwl|].
  subst w'. cbn [db io userKeyCache clock with_userKeyCache with_console].
  split; [exact Hcm|]. split; [exact Hkeys|]. split; [exact Hio4|].
  rewrite Hcache4, Hkeys. reflexivity.
Qed.

(** ** The key set of a refresh *)

Lemma fallback_pass_keys now userId (snap1 snap2 : list Doc) (acc : Acc) (k : string) :
  In k (fst (fold_left (fallback_step now userId) snap2
               (fold_left (fallback_step now userId) snap1 acc)))
  <-> In k (fst acc)
      \/ exists doc, (In doc snap1 \/ In doc snap2) /\ fst doc = k
                     /\ not_expired now (snd doc) = true.
Proof.
  rewrite !(pass_keys _ now (fallback_step_keys now userId)).
  split.
  - intros [[H|(doc & Hin & Hk & Hne)]|(doc & Hin & Hk & Hne)]; eauto 7.
  - intros [H|(doc & [Hin|Hin] & Hk & Hne)]; eauto 7.
Qed.

Lemma identity_pass_empty now discordTag (snapshot : list Doc) :
  fst (fold_left (userId_step now discordTag) snapshot ([], [])) = []
  <-> forall doc, In doc snapshot -> not_expired now (snd doc) = false.
Proof.
  split.
  - intros Hnil doc Hin. destruct (not_expired now (snd doc)) eqn:E; [|reflexivity].
    exfalso.
    assert (In (fst doc) (fst (fold_left (userId_step now discordTag) snapshot ([], [])))) as Hk.
    { apply (pass_keys _ now (userId_step_keys now discordTag)). right. exists doc. auto. }
    rewrite Hnil in Hk. destruct Hk.
  - intros Hall.
    destruct (fst (fold_left (userId_step now discordTag) snapshot ([], []))) as [|k ks] eqn:E;
      [reflexivity|].
    exfalso.
    assert (In k (fst (fold_left (userId_step now discordTag) snapshot ([], [])))) as Hk
      by (rewrite E; left; reflexivity).
    apply (pass_keys _ now (userId_step_keys now discordTag)) in Hk.
    destruct Hk as [[]|(doc & Hin & _ & Hne)].
    rewrite (Hall doc Hin) in Hne. discriminate Hne.
Qed.

(** The key a refresh returns is the key of a record of the identity
    query that is not expired, or, when that pass found none and the
    refresh is not in the background, of a record of the two alias queries
    that is not expired, or the key linked by the whitelist entry. *)
Lemma refreshUserKeys_keys userId discordTag isBackground w keys w' :
  refreshUserKeys userId discordTag isBackground w = (Resolved keys, w') ->
  let docs := keys_collection (db w) in
  forall k,
    In k keys
    <-> (exists doc, In doc (keys_where_userId userId docs) /\ fst doc = k
                     /\ not_expired (clock_after 1 w) (snd doc) = true)
        \/ ((isBackground = false
             /\ forall doc, In doc (keys_where_userId userId docs) ->
                            not_expired (clock_after 1 w) (snd doc) = false)
            /\ exists doc,
                (In doc (keys_where_usedByDiscord discordTag 5 docs)
                 \/ In doc (keys_where_usedByDiscord (username_of discordTag) 5 docs))
                /\ fst doc = k /\ not_expired (clock_after 2 w) (snd doc) = true)
        \/ (exists whitelistData,
              whitelist_collection (db w) !! userId = Some whitelistData
              /\ wl_key whitelistData = Some k /\ k <> "").
Proof.
  intros H docs k.
  apply refreshUserKeys_anatomy in H. cbv zeta in H. fold docs in H.
  destruct H as (acc2 & acc3 & fb & wl & cm & Hfb & Hwl & _ & -> & _).
  set (acc1 := fold_left (userId_step (clock_after 1 w) discordTag)
                 (keys_where_userId userId docs) ([], [])) in *.
  assert (H1 : forall x, In x (fst acc1)
             <-> exists doc, In doc (keys_where_userId userId docs) /\ fst doc = x
                             /\ not_expired (clock_after 1 w) (snd doc) = true).
  { intros x. subst acc1.
    rewrite (pass_keys _ _ (userId_step_keys (clock_after 1 w) discordTag)).
    cbn [fst In]. tauto. }
  assert (H2 : In k (fst acc2)
             <-> (exists doc, In doc (keys_where_userId userId docs) /\ fst doc = k
                     /\ not_expired (clock_after 1 w) (snd doc) = true)
        \/ ((isBackground = false
             /\ forall doc, In doc (keys_where_userId userId docs) ->
                            not_expired (clock_after 1 w) (snd doc) = false)
            /\ exists doc,
                (In doc (keys_where_usedByDiscord discordTag 5 docs)
                 \/ In doc (keys_where_usedByDiscord (username_of discordTag) 5 docs))
                /\ fst doc = k /\ not_expired (clock_after 2 w) (snd doc) = true)).
  { destruct Hfb as [(Hc & -> & _)|(Hnil & Hbg & -> & _)].
    - rewrite H1. split; [auto|]. intros [Hx|[[Hbg Hall] _]]; [exact Hx|].
      exfalso. destruct Hc as [Hc|Hc]; [|congruence].
      apply Hc. exact (proj2 (identity_pass_empty _ discordTag _) Hall).
    - rewrite fallback_pass_keys, H1. split.
      + intros [Hx|Hx]; [auto|]. right. split; [|exact Hx].
        split; [exact Hbg|]. exact (proj1 (identity_pass_empty _ discordTag _) Hnil).
      + intros [Hx|[_ Hx]]; auto. }
  destruct Hwl as [(-> & _ & Hno)|(wd & key & Hwd & Hkey & Hne & Hnin & _ & Hk3 & _)].
  - rewrite H2. split; [tauto|].
    intros [Hx|[Hx|(wd & Hwd & Hkey & Hne)]]; [auto | auto |].
    destruct (Hno wd k Hwd Hkey) as [?|Hin]; [contradiction|].
    apply H2. exact Hin.
  - rewrite Hk3, in_app_iff, H2. cbn [In]. split.
    + intros [Hx|[<-|[]]]; [tauto|]. right. right. exists wd. auto.
    + intros [Hx|[Hx|(wd' & Hwd' & Hkey' & Hne')]]; [tauto | tauto |].
      right. left. congruence.
Qed.

(** ** The records a refresh considers *)

Lemma In_firstn {A} (n : nat) (l : list A) (x : A) : In x (firstn n l) -> In x l.
Proof.
  intros H. rewrite <- (firstn_skipn n l). apply in_or_app. left. exact H.
Qed.


Lemma NoDup_fst_eq (docs : list Doc) (a b : Doc) :
  List.NoDup (map fst docs) -> In a docs -> In b docs -> fst a = fst b -> a = b.
Proof.
  induction docs as [|d docs IH]; intros Hnd Ha Hb Heq; [destruct Ha|].
  cbn [map] in Hnd. inversion Hnd as [|? ? Hnin Hnd']; subst.
  destruct Ha as [->|Ha], Hb as [->|Hb].
  - reflexivity.
  - exfalso. apply Hnin. rewrite Heq. apply in_map. exact Hb.
  - exfalso. apply Hnin. rewrite <- Heq. apply in_map. exact Ha.
  - apply IH; assumption.
Qed.

Lemma refreshUserKeys_considered userId discordTag isBackground w keys w' doc :
  refreshUserKeys userId discordTag isBackground w = (Resolved keys, w') ->
  let docs := keys_collection (db w) in
  considered doc w w'
  <-> In doc (keys_where_userId userId docs)
      \/ ((isBackground = false
           /\ forall d, In d (keys_where_userId userId docs) ->
                        not_expired (clock_after 1 w) (snd d) = false)
          /\ (In doc (keys_where_usedByDiscord discordTag 5 docs)
              \/ In doc (keys_where_usedByDiscord (username_of discordTag) 5 docs))).
Proof.
  intros H docs.
  apply refreshUserKeys_anatomy in H. cbv zeta in H. fold docs in H.
  destruct H as (acc2 & acc3 & fb & wl & cm & Hfb & Hwl & Hcm & _ & Hio & _).
  unfold considered. rewrite (new_rounds_app _ _ _ Hio).
  assert (Hwlcm : forall rq, In (rq, true) (concat (wl ++ cm)) -> ~ returned_by (db w) rq doc).
  { intros rq Hin. rewrite concat_app, in_app_iff in Hin. destruct Hin as [Hin|Hin].
    - destruct Hwl as [(_ & -> & _)|(wd & key & _ & _ & _ & _ & -> & _)];
        cbn [concat app In] in Hin; [contradiction|].
      destruct Hin as [Hin|[]]. inversion Hin; subst. cbn [returned_by]. tauto.
    - destruct Hcm as [(_ & -> & _)|(_ & -> & _)]; cbn [concat] in Hin; [contradiction|].
      apply in_app_or in Hin. destruct Hin as [Hin|[]].
      apply in_map_iff in Hin. destruct Hin as (b & Hb & _).
      inversion Hb; subst. cbn [returned_by]. tauto. }
  split.
  - intros (rq & Hin & Hret).
    cbn [app concat] in Hin. destruct Hin as [Hin|[Hin|Hin]].
    + inversion Hin; subst. left. exact Hret.
    + inversion Hin; subst. destruct Hret.
    + rewrite concat_app, in_app_iff in Hin. destruct Hin as [Hin|Hin].
      2:{ exfalso. exact (Hwlcm rq Hin Hret). }
      destruct Hfb as [(_ & _ & ->)|(Hnil & Hbg & _ & ->)]; [destruct Hin|].
      right. split.
      * split; [exact Hbg|]. exact (proj1 (identity_pass_empty _ discordTag _) Hnil).
      * cbn [concat app In] in Hin.
        destruct Hin as [Hin|[Hin|[]]]; inversion Hin; subst; cbn [returned_by] in Hret; auto.
  - intros [Hin|[[Hbg Hall] Hin]].
    + exists (KeysWhereUserId userId). split; [|exact Hin].
      cbn [app concat]. left. reflexivity.
    + destruct Hfb as [(Hc & _ & _)|(_ & _ & _ & ->)].
      { exfalso. destruct Hc as [Hc|Hc]; [|congruence].
        apply Hc. exact (proj2 (identity_pass_empty _ discordTag _) Hall). }
      destruct Hin as [Hin|Hin].
      * exists (KeysWhereUsedByDiscord discordTag 5). split; [|exact Hin].
        cbn [app concat In]. auto.
      * exists (KeysWhereUsedByDiscord (username_of discordTag) 5). split; [|exact Hin].
        cbn [app concat In]. auto.
Qed.

(** ** Expiry and the active key set *)


Lemma run_resolved {A} (m : Task A) (w : World) (a : A) :
  fst (m w) = Resolved a -> m w = (Resolved a, snd (m w)).
Proof. destruct (m w) as [r w']. cbn [fst snd]. intros ->. reflexivity. Qed.



(** C10: for a record that is not whitelisted and whose [expiresAt]
    converts to exactly 0 ms, [isKeyExpired] returns the number 0, which is
    falsy, at every time; a refresh that considers the record returns its
    key. *)
Theorem zero_expiry_is_not_expired userId discordTag isBackground w keys w' doc :
  k_whitelisted (snd doc) = false ->
  k_expiresAt (snd doc) = ExpTimestamp 0 \/ k_expiresAt (snd doc) = ExpNumber 0 ->
  (forall now,
      isKeyExpired now (Some (snd doc)) = JsNumber 0
      /\ truthy (isKeyExpired now (Some (snd doc))) = false)
  /\ (refreshUserKeys userId discordTag isBackground w = (Resolved keys, w') ->
      considered doc w w' ->
      In (fst doc) keys).
Proof.
  intros Hwl Hexp.
  assert (Hz : forall now, isKeyExpired now (Some (snd doc)) = JsNumber 0)
    by (intros now; apply isKeyExpired_zero; assumption).
  split; [intros now; rewrite Hz; split; reflexivity|].
  intros Hrun Hcons.
  apply (refreshUserKeys_keys _ _ _ _ _ _ Hrun).
  assert (Hne : forall t, not_expired t (snd doc) = true)
    by (intros t; unfold not_expired; rewrite Hz; reflexivity).
  apply (refreshUserKeys_considered _ _ _ _ _ _ doc Hrun) in Hcons.
  destruct Hcons as [Hin|[Hfb Hin]].
  - left. exists doc. auto.
  - right. left. split; [exact Hfb|]. exists doc. auto.
Qed.

Lemma zero_expiry_is_not_expired_witness :
  isKeyExpired 1700000000000 (Some (snd zero_expiry_doc)) = JsNumber 0
  /\ exists keys,
       fst (refreshUserKeys "1001" "bob" false zero_expiry_world) = Resolved keys
       /\ In (fst zero_expiry_doc) keys.
Proof.
  destruct (zero_expiry_is_not_expired "1001" "bob" false zero_expiry_world
              ["VORAHUB-AAAAAA-111111-BBBBBB"%string]
              (snd (refreshUserKeys "1001" "bob" false zero_expiry_world))
              zero_expiry_doc eq_refl (or_introl eq_refl)) as [Hx Hin].
  split; [exact (proj1 (Hx 1700000000000))|].
  exists ["VORAHUB-AAAAAA-111111-BBBBBB"%string].
  split; [vm_compute; reflexivity|].
  apply Hin.
  - apply run_resolved. vm_compute. reflexivity.
  - exists (KeysWhereUserId "1001"). split; vm_compute; auto.
Defined.

(** ** Queued writes *)

Lemma queued_of_commit (w w' : World) (pre : list Round) (ops : list WriteOp) (op : WriteOp) :
  io w' = io w ++ pre ++ [map (fun b => (BatchCommit b, true)) (make_batches ops)] ->
  In op ops -> queued op w w'.
Proof.
  intros Hio Hin. unfold queued. rewrite (new_rounds_app _ _ _ Hio).
  rewrite <- (make_batches_concat ops) in Hin. apply in_concat in Hin.
  destruct Hin as (b & Hb & Hop).
  exists b, true. split; [|exact Hop].
  rewrite concat_app. apply in_or_app. right. cbn [concat]. apply in_or_app. left.
  apply in_map_iff. exists b. auto.
Qed.

(** The alias pass queues the update that binds [userId] for a record
    without one, the first time it meets the record. *)
Lemma fallback_pass_binds now userId (doc : Doc) (snapshot : list Doc) :
  truthy_string (k_userId (snd doc)) = false ->
  (forall d, In d snapshot -> fst d = fst doc -> d = doc) ->
  forall acc,
    (In (fst doc) (fst acc) -> In (BatchUpdateKey (fst doc) (bind_userId userId)) (snd acc)) ->
    In (fst doc) (fst (fold_left (fallback_step now userId) snapshot acc)) ->
    In (BatchUpdateKey (fst doc) (bind_userId userId))
       (snd (fold_left (fallback_step now userId) snapshot acc)).
Proof.
  intros Hmissing. induction snapshot as [|d rest IH]; intros Hsame acc Hinv Hin.
  - cbn [fold_left] in *. auto.
  - cbn [fold_left] in *. apply IH;
      [intros d0 Hd0 Hk0; apply Hsame; [right; exact Hd0 | exact Hk0] | | exact Hin].
    clear IH Hin. intros Hin.
    destruct acc as [keys ops], d as [keyId data]. unfold fallback_step in *.
    cbn [fst snd] in *.
    destruct (Set_has keyId keys) eqn:Ehas; [cbn [fst snd] in *; auto|].
    destruct (negb (truthy (isKeyExpired now (Some data)))); [|cbn [fst snd] in *; auto].
    cbn [fst snd] in *. apply In_Set_add in Hin. destruct Hin as [Heq|Hin].
    + assert ((keyId, data) = doc) as <- by (apply Hsame; [left; reflexivity | auto]).
      cbn [fst snd] in *. rewrite Hmissing. cbn [negb].
      unfold push_update. cbn. apply in_or_app. right. left. reflexivity.
    + apply In_push_update. auto.
Qed.

(** C2, as the code has it: the alias queries run only when the identity
    pass left the key set empty. Then both are sent, and every record
    among the at most five returned for the tag, or for the user name in
    front of its [#], that is not expired is in the returned key set, and
    the update binding [userId] is queued for it when it has none. When
    the identity pass found a key, no alias query is sent. *)
Theorem alias_fallback_after_empty_identity_pass userId discordTag w keys w' :
  List.NoDup (map fst (keys_collection (db w))) ->
  refreshUserKeys userId discordTag false w = (Resolved keys, w') ->
  let docs := keys_collection (db w) in
  ((forall d, In d (keys_where_userId userId docs) ->
              not_expired (clock_after 1 w) (snd d) = false) ->
   In [(KeysWhereUsedByDiscord discordTag 5, true);
       (KeysWhereUsedByDiscord (username_of discordTag) 5, true)] (new_rounds w w')
   /\ forall doc,
       In doc (keys_where_usedByDiscord discordTag 5 docs)
       \/ In doc (keys_where_usedByDiscord (username_of discordTag) 5 docs) ->
       not_expired (clock_after 2 w) (snd doc) = true ->
       In (fst doc) keys
       /\ (truthy_string (k_userId (snd doc)) = false ->
           queued (BatchUpdateKey (fst doc) (bind_userId userId)) w w'))
  /\ ((exists d, In d (keys_where_userId userId docs)
                 /\ not_expired (clock_after 1 w) (snd d) = true) ->
      forall label limit ok,
        ~ In (KeysWhereUsedByDiscord label limit, ok) (concat (new_rounds w w'))).
Proof.
  intros Hnd Hrun docs.
  pose proof (refreshUserKeys_keys _ _ _ _ _ _ Hrun) as Hkeys. cbv zeta in Hkeys.
  apply refreshUserKeys_anatomy in Hrun. cbv zeta in Hrun. fold docs in Hrun, Hkeys.
  destruct Hrun as (acc2 & acc3 & fb & wl & cm & Hfb & Hwl & Hcm & _ & Hio & _).
  set (acc1 := fold_left (userId_step (clock_after 1 w) discordTag)
                 (keys_where_userId userId docs) ([], [])) in *.
  split.
  - intros Hempty.
    assert (Hnil : fst acc1 = [])
      by exact (proj2 (identity_pass_empty _ discordTag _) Hempty).
    destruct Hfb as [([Hc|Hc] & _)|(_ & _ & Hacc2 & Hfbr)]; [contradiction | discriminate |].
    split.
    { rewrite (new_rounds_app _ _ _ Hio), Hfbr.
      apply in_or_app. right. apply in_or_app. left. left. reflexivity. }
    intros doc Hdoc Hne. split.
    { apply Hkeys. right. left.
      split; [split; [reflexivity | exact Hempty]|]. exists doc. auto. }
    intros Hmissing.
    assert (Hsame : forall snapshot label,
               snapshot = keys_where_usedByDiscord label 5 docs ->
               forall d, In d snapshot -> fst d = fst doc -> d = doc).
    { intros snapshot label -> d Hd Hk.
      apply (NoDup_fst_eq _ _ _ Hnd); [| |exact Hk].
      - apply In_firstn, filter_In in Hd. tauto.
      - destruct Hdoc as [Hx|Hx]; apply In_firstn, filter_In in Hx; tauto. }
    assert (H2 : In (BatchUpdateKey (fst doc) (bind_userId userId)) (snd acc2)).
    { rewrite Hacc2.
      apply fallback_pass_binds; [exact Hmissing | eapply Hsame; reflexivity | |].
      - apply fallback_pass_binds; [exact Hmissing | eapply Hsame; reflexivity |].
        rewrite Hnil. intros [].
      - apply fallback_pass_keys. right. exists doc. auto. }
    assert (H3 : In (BatchUpdateKey (fst doc) (bind_userId userId)) (snd acc3)).
    { destruct Hwl as [(-> & _)|(wd & key & _ & _ & _ & _ & _ & _ & ->)]; [exact H2|].
      destruct (keys_doc key docs); [apply In_push_update | apply in_or_app; left]; exact H2. }
    destruct Hcm as [(Hnone & _)|(_ & -> & _)]; [rewrite Hnone in H3; destruct H3|].
    eapply (queued_of_commit w w' ([_] ++ fb ++ wl)); [|exact H3].
    rewrite Hio, <- !app_assoc. reflexivity.
  - intros (d & Hd & Hlive) label limit ok Hin.
    assert (Hfound : fst acc1 <> []).
    { intros Hnil.
      pose proof (proj1 (identity_pass_empty (clock_after 1 w) discordTag
                           (keys_where_userId userId docs)) Hnil d Hd) as Hdead.
      rewrite Hdead in Hlive. discriminate Hlive. }
    destruct Hfb as [(_ & _ & Hfbr)|(Hnil & _)]; [|contradiction].
    rewrite (new_rounds_app _ _ _ Hio), Hfbr in Hin. cbn [app concat] in Hin.
    rewrite concat_app in Hin.
    destruct Hin as [Hin|[Hin|Hin]]; [discriminate Hin | discriminate Hin|].
    apply in_app_or in Hin. destruct Hin as [Hin|Hin].
    + destruct Hwl as [(_ & -> & _)|(wd & key & _ & _ & _ & _ & -> & _)];
        [destruct Hin|].
      destruct Hin as [Hin|[]]. discriminate Hin.
    + destruct Hcm as [(_ & -> & _)|(_ & -> & _)]; [destruct Hin|].
      cbn [concat] in Hin. rewrite app_nil_r in Hin.
      apply in_map_iff in Hin. destruct Hin as (b & Hb & _). discriminate Hb.
Qed.

Lemma alias_fallback_after_empty_identity_pass_witness :
  exists keys,
    fst (refreshUserKeys "1001" "bob" false legacy_world) = Resolved keys
    /\ In (fst legacy_doc) keys
    /\ queued (BatchUpdateKey (fst legacy_doc) (bind_userId "1001")) legacy_world
         (snd (refreshUserKeys "1001" "bob" false legacy_world)).
Proof.
  exists ["VORAHUB-EEEEEE-333333-FFFFFF"%string].
  split; [vm_compute; reflexivity|].
  destruct (alias_fallback_after_empty_identity_pass "1001" "bob" legacy_world
              ["VORAHUB-EEEEEE-333333-FFFFFF"%string]
              (snd (refreshUserKeys "1001" "bob" false legacy_world)))
    as [Hempty _].
  - cbn. repeat constructor; cbn; intuition discriminate.
  - apply run_resolved. vm_compute. reflexivity.
  - destruct Hempty as [_ Hdoc].
    + intros d Hd. vm_compute in Hd. destruct Hd.
    + destruct (Hdoc legacy_doc) as [Hin Hq].
      * left. vm_compute. auto.
      * vm_compute. reflexivity.
      * split; [exact Hin | apply Hq; reflexivity].
Defined.

(** A refresh that is not in the background and leaves out a record that
    carries the supplied alias and is not expired: the identity query
    found a key, so the alias queries were not sent. *)
Lemma alias_record_left_out :
  exists keys w',
    refreshUserKeys "1001" "bob" false mixed_world = (Resolved keys, w')
    /\ In legacy_doc (keys_collection (db mixed_world))
    /\ k_usedByDiscord (snd legacy_doc) = Some "bob"%string
    /\ (forall now, not_expired now (snd legacy_doc) = true)
    /\ ~ In (fst legacy_doc) keys
    /\ new_rounds mixed_world w'
       = [[(KeysWhereUserId "1001", true); (WhitelistDoc "1001", true)]].
Proof.
  exists ["VORAHUB-AAAAAA-111111-BBBBBB"%string],
    (snd (refreshUserKeys "1001" "bob" false mixed_world)).
  split; [apply run_resolved; vm_compute; reflexivity|].
  split; [right; left; reflexivity|].
  split; [reflexivity|].
  split; [intros now; reflexivity|].
  split; [|vm_compute; reflexivity].
  cbn. intros [H|[]]. discriminate H.
Qed.

(** ** Writes and the store *)

Lemma keys_doc_In (docs : list Doc) (doc : Doc) :
  In doc docs -> keys_doc (fst doc) docs <> None.
Proof.
  induction docs as [|[i d] rest IH]; intros Hin; [destruct Hin|].
  cbn [keys_doc]. destruct (String.eqb_spec i (fst doc)) as [Heq|Hne]; [discriminate|].
  destruct Hin as [<-|Hin]; [cbn [fst] in Hne; contradiction | auto].
Qed.

Lemma keys_doc_keys_set (id : string) (d : KeyData) (docs : list Doc) :
  keys_doc id (keys_set id d docs) = Some d.
Proof.
  induction docs as [|[i x] rest IH]; cbn [keys_set keys_doc].
  - rewrite String.eqb_refl. reflexivity.
  - destruct (String.eqb i id) eqn:E.
    + cbn [keys_doc]. rewrite String.eqb_refl. reflexivity.
    + destruct (String.ltb id i); cbn [keys_doc].
      * rewrite String.eqb_refl. reflexivity.
      * rewrite E. exact IH.
Qed.

Lemma apply_batch_app now (a b : list WriteOp) (s : Store) :
  apply_batch now (a ++ b) s
  = match apply_batch now a s with
    | Some s1 => apply_batch now b s1
    | None => None
    end.
Proof.
  revert s. induction a as [|op a IH]; intros s; cbn [app apply_batch]; [reflexivity|].
  destruct (apply_op now op s); [apply IH | reflexivity].
Qed.

(** The keys of the two passes are keys of documents of the store. *)
Lemma identity_pass_keys_in_store now discordTag userId (docs : list Doc) (k : string) :
  In k (fst (fold_left (userId_step now discordTag) (keys_where_userId userId docs) ([], []))) ->
  exists doc, In doc docs /\ fst doc = k.
Proof.
  intros H. apply (pass_keys _ now (userId_step_keys now discordTag)) in H.
  destruct H as [[]|(doc & Hin & Hk & _)].
  exists doc. unfold keys_where_userId in Hin. apply filter_In in Hin. tauto.
Qed.

Lemma alias_pass_keys_in_store now userId l1 l2 (docs : list Doc) (acc : Acc) (k : string) :
  (forall x, In x (fst acc) -> exists doc, In doc docs /\ fst doc = x) ->
  In k (fst (fold_left (fallback_step now userId) (keys_where_usedByDiscord l2 5 docs)
               (fold_left (fallback_step now userId) (keys_where_usedByDiscord l1 5 docs) acc))) ->
  exists doc, In doc docs /\ fst doc = k.
Proof.
  intros Hacc H. apply fallback_pass_keys in H.
  destruct H as [H|(doc & Hin & Hk & _)]; [auto|].
  exists doc. split; [|exact Hk].
  destruct Hin as [Hin|Hin]; apply In_firstn, filter_In in Hin; tauto.
Qed.

(** C8: when the whitelist entry of the identity links a key that has no
    document in the store, a refresh returns that key and queues the
    creation of a document under exactly that key, permanent
    ([expiresAt] null) and whitelisted; once the batch is committed the
    store holds it. *)
Theorem whitelist_self_repair userId discordTag isBackground w keys w' whitelistData key :
  refreshUserKeys userId discordTag isBackground w = (Resolved keys, w') ->
  whitelist_collection (db w) !! userId = Some whitelistData ->
  wl_key whitelistData = Some key ->
  key <> "" ->
  keys_doc key (keys_collection (db w)) = None ->
  In key keys
  /\ queued (BatchSetKey key (whitelist_key_data userId discordTag)) w w'
  /\ k_expiresAt (whitelist_key_data userId discordTag) = ExpNull
  /\ k_whitelisted (whitelist_key_data userId discordTag) = true
  /\ exists created,
       keys_doc key (keys_collection (db w')) = Some created
       /\ k_expiresAt created = ExpNull
       /\ k_whitelisted created = true
       /\ k_userId created = Some userId.
Proof.
  intros Hrun Hwd Hkey Hne Habsent.
  apply refreshUserKeys_anatomy in Hrun. cbv zeta in Hrun.
  destruct Hrun as (acc2 & acc3 & fb & wl & cm & Hfb & Hwl & Hcm & -> & Hio & _).
  set (docs := keys_collection (db w)) in *.
  assert (Hstore : forall x, In x (fst acc2) -> exists doc, In doc docs /\ fst doc = x).
  { destruct Hfb as [(_ & -> & _)|(_ & _ & -> & _)]; intros x Hx.
    - eapply identity_pass_keys_in_store. exact Hx.
    - eapply alias_pass_keys_in_store; [|exact Hx].
      intros y Hy. eapply identity_pass_keys_in_store. exact Hy. }
  destruct Hwl as [(_ & _ & Hno)|(wd & key' & Hwd' & Hkey' & _ & _ & -> & Hk3 & Ho3)].
  { exfalso. destruct (Hno _ _ Hwd Hkey) as [?|Hin]; [contradiction|].
    destruct (Hstore _ Hin) as (doc & Hdoc & <-).
    exact (keys_doc_In _ _ Hdoc Habsent). }
  assert (wd = whitelistData) as -> by congruence.
  assert (key' = key) as -> by congruence.
  rewrite Habsent in Ho3.
  split; [rewrite Hk3; apply in_or_app; right; left; reflexivity|].
  destruct Hcm as [(Hnone & _)|(_ & -> & tc & Hcommit)].
  { exfalso. rewrite Ho3 in Hnone. destruct (snd acc2); discriminate Hnone. }
  split.
  { eapply (queued_of_commit w w' ([_] ++ fb ++ [_])).
    - rewrite Hio, <- !app_assoc. reflexivity.
    - rewrite Ho3. apply in_or_app. right. left. reflexivity. }
  split; [reflexivity|]. split; [reflexivity|].
  exists (resolve_server_timestamps tc (whitelist_key_data userId discordTag)).
  split; [|repeat split].
  rewrite Ho3, apply_batch_app in Hcommit.
  destruct (apply_batch tc (snd acc2) (db w)) as [s1|]; [|discriminate Hcommit].
  cbn [apply_batch apply_op] in Hcommit. inversion Hcommit as [Hdb].
  cbn [keys_collection with_keys]. apply keys_doc_keys_set.
Qed.

Lemma whitelist_self_repair_witness :
  exists keys,
    fst (refreshUserKeys "1001" "bob" false dangling_whitelist_world) = Resolved keys
    /\ In "VORAHUB-AAAAAA-111111-BBBBBB"%string keys
    /\ queued (BatchSetKey "VORAHUB-AAAAAA-111111-BBBBBB" (whitelist_key_data "1001" "bob"))
         dangling_whitelist_world
         (snd (refreshUserKeys "1001" "bob" false dangling_whitelist_world)).
Proof.
  exists ["VORAHUB-AAAAAA-111111-BBBBBB"%string].
  split; [vm_compute; reflexivity|].
  destruct (whitelist_self_repair "1001" "bob" false dangling_whitelist_world
              ["VORAHUB-AAAAAA-111111-BBBBBB"%string]
              (snd (refreshUserKeys "1001" "bob" false dangling_whitelist_world))
              (sample_whitelist "1001" "bob" "VORAHUB-AAAAAA-111111-BBBBBB")
              "VORAHUB-AAAAAA-111111-BBBBBB")
    as (Hin & Hq & _).
  - apply run_resolved. vm_compute. reflexivity.
  - vm_compute. reflexivity.
  - reflexivity.
  - discriminate.
  - reflexivity.
  - split; [exact Hin | exact Hq].
Defined.

(** ** What a task leaves untouched *)

Section Preserves.
Context {X : Type}.
Variable f : World -> X.
(** [f] is a part of the world that the store traffic, the clock, the
    console and the store itself do not reach. *)
Hypothesis f_round : forall r w, f (end_round r w) = f w.
Hypothesis f_console : forall c w, f (with_console c w) = f w.
Hypothesis f_db : forall s w, f (with_db s w) = f w.

Lemma preserves_ret {A} (a : A) : preserves f (ret a).
Proof. intros w. reflexivity. Qed.

Lemma preserves_throw {A} (e : Error) : preserves f (@throw A e).
Proof. intros w. reflexivity. Qed.

Lemma preserves_bind {A B} (m : Task A) (k : A -> Task B) :
  preserves f m -> (forall a, preserves f (k a)) -> preserves f (bind m k).
Proof.
  intros Hm Hk w. unfold bind. specialize (Hm w).
  destruct (m w) as [[a|e] w1]; cbn [snd] in *.
  - rewrite (Hk a w1). exact Hm.
  - exact Hm.
Qed.

Lemma preserves_try_catch {A} (body : Task A) (handler : Error -> Task A) :
  preserves f body -> (forall e, preserves f (handler e)) ->
  preserves f (try_catch body handler).
Proof.
  intros Hb Hh w. unfold try_catch. specialize (Hb w).
  destruct (body w) as [[a|e] w1]; cbn [snd] in *.
  - exact Hb.
  - rewrite (Hh e w1). exact Hb.
Qed.

Lemma preserves_Date_now : preserves f Date_now.
Proof. intros w. reflexivity. Qed.

Lemma preserves_console_log (l : LogLine) : preserves f (console_log l).
Proof. intros w. apply f_console. Qed.

Lemma preserves_get {A} (r : Read A) : preserves f (get r).
Proof. intros w. unfold get. destruct (accepted w 0); apply f_round. Qed.

Lemma preserves_Promise_all2 {A B} (r1 : Read A) (r2 : Read B) :
  preserves f (Promise_all2 r1 r2).
Proof.
  intros w. unfold Promise_all2.
  destruct (accepted w 0), (accepted w 1); apply f_round.
Qed.

Lemma preserves_Promise_all_commit (batches : list (list WriteOp)) :
  preserves f (Promise_all_commit batches).
Proof.
  intros w. unfold Promise_all_commit.
  destruct (commit_batches w 0 batches (db w)) as [[round s] failure].
  destruct failure; cbn [snd]; rewrite f_round; apply f_db.
Qed.

Lemma preserves_safeBatchCommit (operations : list WriteOp) :
  preserves f (safeBatchCommit operations).
Proof.
  unfold safeBatchCommit. destruct (length operations =? 0)%nat.
  - apply preserves_ret.
  - apply preserves_try_catch.
    + apply preserves_bind; [apply preserves_Promise_all_commit|]. intros _.
      apply preserves_bind; [apply preserves_console_log|]. intros _.
      apply preserves_ret.
    + intros e. apply preserves_bind; [apply preserves_console_log|]. intros _.
      apply preserves_throw.
Qed.

Lemma preserves_process_fallback userId discordTag username isBackground acc :
  preserves f (process_fallback userId discordTag username isBackground acc).
Proof.
  unfold process_fallback.
  destruct ((length (fst acc) =? 0)%nat && negb isBackground).
  - apply preserves_bind; [apply preserves_Promise_all2|]. intros snapshots.
    apply preserves_bind; [apply preserves_Date_now|]. intros now.
    apply preserves_ret.
  - apply preserves_ret.
Qed.

Lemma preserves_process_whitelist userId discordTag whitelistDoc acc :
  preserves f (process_whitelist userId discordTag whitelistDoc acc).
Proof.
  unfold process_whitelist. destruct acc as [keys ops].
  destruct whitelistDoc as [whitelistData|]; [|apply preserves_ret].
  destruct (wl_key whitelistData) as [key|]; [|apply preserves_ret].
  destruct (truthy_string (Some key) && negb (Set_has key keys)); [|apply preserves_ret].
  apply preserves_bind; [apply preserves_get|]. intros keyDoc.
  destruct keyDoc; apply preserves_ret.
Qed.

(** Everything in [refreshUserKeys] but the final [userKeyCache.set]. *)
Lemma preserves_refreshUserKeys userId discordTag isBackground :
  (forall entry, preserves f (userKeyCache_set userId entry)) ->
  preserves f (refreshUserKeys userId discordTag isBackground).
Proof.
  intros Hset. unfold refreshUserKeys.
  apply preserves_bind; [apply preserves_Date_now|]. intros startTime.
  apply preserves_try_catch.
  - apply preserves_bind; [apply preserves_Promise_all2|]. intros snapshots.
    apply preserves_bind; [apply preserves_Date_now|]. intros now.
    apply preserves_bind; [apply preserves_process_fallback|]. intros acc2.
    apply preserves_bind; [apply preserves_process_whitelist|]. intros acc3.
    apply preserves_bind.
    { destruct (0 <? length (snd acc3))%nat; [|apply preserves_ret].
      apply preserves_bind; [apply preserves_safeBatchCommit|]. intros _.
      apply preserves_ret. }
    intros _.
    apply preserves_bind; [apply preserves_Date_now|]. intros finished.
    apply preserves_bind; [apply preserves_console_log|]. intros _.
    apply preserves_bind; [apply Hset|]. intros _.
    apply preserves_ret.
  - intros e. apply preserves_bind; [apply preserves_console_log|]. intros _.
    apply preserves_throw.
Qed.
End Preserves.

Lemma refreshUserKeys_backgroundRefreshQueue userId discordTag isBackground w :
  backgroundRefreshQueue (snd (refreshUserKeys userId discordTag isBackground w))
  = backgroundRefreshQueue w.
Proof.
  apply (preserves_refreshUserKeys backgroundRefreshQueue); try reflexivity.
  intros entry w0. reflexivity.
Qed.

(** ** Store traffic and failures *)

Lemma all_accepted_app (r1 r2 : list Round) :
  all_accepted (r1 ++ r2) = all_accepted r1 && all_accepted r2.
Proof. unfold all_accepted. apply forallb_app. Qed.

Lemma all_accepted_no_failure (rounds : list Round) (rq : Request) :
  all_accepted rounds = true -> ~ In (rq, false) (concat rounds).
Proof.
  unfold all_accepted. intros Hall Hin. apply in_concat in Hin.
  destruct Hin as (round & Hround & Hin).
  rewrite forallb_forall in Hall. specialize (Hall round Hround).
  rewrite (all_accepted_no_rejection round rq Hin) in Hall. discriminate Hall.
Qed.

Lemma traced_silent {A} (m : Task A) :
  (forall w, exists a, fst (m w) = Resolved a /\ io (snd (m w)) = io w) -> traced m.
Proof.
  intros H w. destruct (H w) as (a & Hr & Hio). exists [].
  rewrite Hr, Hio, app_nil_r. split; reflexivity.
Qed.

Lemma traced_ret {A} (a : A) : traced (ret a).
Proof. apply traced_silent. intros w. exists a. split; reflexivity. Qed.

Lemma traced_Date_now : traced Date_now.
Proof. apply traced_silent. intros w. exists (clock w). split; reflexivity. Qed.

Lemma traced_console_log (l : LogLine) : traced (console_log l).
Proof. apply traced_silent. intros w. exists tt. split; reflexivity. Qed.

Lemma traced_userKeyCache_set userId entry : traced (userKeyCache_set userId entry).
Proof. apply traced_silent. intros w. exists tt. split; reflexivity. Qed.

Lemma traced_bind {A B} (m : Task A) (k : A -> Task B) :
  traced m -> (forall a, traced (k a)) -> traced (bind m k).
Proof.
  intros Hm Hk w. unfold bind. destruct (Hm w) as (r1 & Hio1 & Hout1).
  destruct (m w) as [[a|e] w1]; cbn [fst snd] in *.
  - destruct (Hk a w1) as (r2 & Hio2 & Hout2). exists (r1 ++ r2).
    split; [rewrite Hio2, Hio1, app_assoc; reflexivity|].
    destruct (fst (k a w1)) as [b|e].
    + rewrite all_accepted_app, Hout1, Hout2. reflexivity.
    + destruct Hout2 as (rq & He & Hin). exists rq. split; [exact He|].
      rewrite concat_app. apply in_or_app. right. exact Hin.
  - exists r1. split; [exact Hio1 | exact Hout1].
Qed.

Lemma traced_try_catch_rethrow {A} (body : Task A) (l : Error -> LogLine) :
  traced body ->
  traced (try_catch body (fun error => console_log (l error) ;; throw error)).
Proof.
  intros Hb w. unfold try_catch. destruct (Hb w) as (r & Hio & Hout).
  destruct (body w) as [[a|e] w1]; cbn [fst snd] in *; exists r; split; assumption.
Qed.

Lemma traced_get {A} (r : Read A) : traced (get r).
Proof.
  intros w. unfold get. exists [[(request r, accepted w 0)]].
  destruct (accepted w 0); cbn [fst snd]; (split; [reflexivity|]).
  - reflexivity.
  - exists (request r). split; [reflexivity | left; reflexivity].
Qed.

Lemma traced_Promise_all2 {A B} (r1 : Read A) (r2 : Read B) :
  traced (Promise_all2 r1 r2).
Proof.
  intros w. unfold Promise_all2.
  exists [[(request r1, accepted w 0); (request r2, accepted w 1)]].
  destruct (accepted w 0), (accepted w 1); cbn [fst snd]; (split; [reflexivity|]).
  - reflexivity.
  - exists (request r2). split; [reflexivity | right; left; reflexivity].
  - exists (request r1). split; [reflexivity | left; reflexivity].
  - exists (request r1). split; [reflexivity | left; reflexivity].
Qed.

Lemma traced_safeBatchCommit (operations : list WriteOp) : traced (safeBatchCommit operations).
Proof.
  destruct operations as [|op ops]; [apply traced_ret|].
  intros w.
  destruct (safeBatchCommit_run (op :: ops) w) as (round & s & failure & Hc & _ & Hrun);
    [discriminate|].
  exists [round]. pose proof (commit_batches_outcome _ _ _ _ _ _ _ Hc) as Hout.
  destruct failure as [e|].
  - destruct Hrun as [-> _]. cbn [fst snd]. split; [reflexivity|].
    destruct Hout as (b & -> & Hin). exists (BatchCommit b). split; [reflexivity|].
    cbn [concat]. apply in_or_app. left. exact Hin.
  - destruct Hrun as (-> & -> & _). cbn [fst snd]. split; [reflexivity|].
    unfold all_accepted. cbn [forallb]. rewrite andb_true_r.
    apply forallb_forall. intros x Hx. apply in_map_iff in Hx.
    destruct Hx as (b & <- & _). reflexivity.
Qed.

Lemma traced_process_fallback userId discordTag username isBackground acc :
  traced (process_fallback userId discordTag username isBackground acc).
Proof.
  unfold process_fallback.
  destruct ((length (fst acc) =? 0)%nat && negb isBackground).
  - apply traced_bind; [apply traced_Promise_all2|]. intros snapshots.
    apply traced_bind; [apply traced_Date_now|]. intros now.
    apply traced_ret.
  - apply traced_ret.
Qed.

Lemma traced_process_whitelist userId discordTag whitelistDoc acc :
  traced (process_whitelist userId discordTag whitelistDoc acc).
Proof.
  unfold process_whitelist. destruct acc as [keys ops].
  destruct whitelistDoc as [whitelistData|]; [|apply traced_ret].
  destruct (wl_key whitelistData) as [key|]; [|apply traced_ret].
  destruct (truthy_string (Some key) && negb (Set_has key keys)); [|apply traced_ret].
  apply traced_bind; [apply traced_get|]. intros keyDoc.
  destruct keyDoc; apply traced_ret.
Qed.

Lemma traced_refreshUserKeys userId discordTag isBackground :
  traced (refreshUserKeys userId discordTag isBackground).
Proof.
  unfold refreshUserKeys.
  apply traced_bind; [apply traced_Date_now|]. intros startTime.
  apply traced_try_catch_rethrow.
  apply traced_bind; [apply traced_Promise_all2|]. intros snapshots.
  apply traced_bind; [apply traced_Date_now|]. intros now.
  apply traced_bind; [apply traced_process_fallback|]. intros acc2.
  apply traced_bind; [apply traced_process_whitelist|]. intros acc3.
  apply traced_bind.
  { destruct (0 <? length (snd acc3))%nat; [|apply traced_ret].
    apply traced_bind; [apply traced_safeBatchCommit|]. intros _. apply traced_ret. }
  intros _.
  apply traced_bind; [apply traced_Date_now|]. intros finished.
  apply traced_bind; [apply traced_console_log|]. intros _.
  apply traced_bind; [apply traced_userKeyCache_set|]. intros _.
  apply traced_ret.
Qed.

(** ** The cache after a failure *)

Lemma cache_safe_bind {A B} (m : Task A) (k : A -> Task B) :
  preserves userKeyCache m -> (forall a, cache_safe (k a)) -> cache_safe (bind m k).
Proof.
  intros Hm Hk w. unfold bind. specialize (Hm w).
  destruct (m w) as [[a|e] w1]; cbn [fst snd] in *.
  - specialize (Hk a w1). destruct (fst (k a w1)); [exact I|]. rewrite Hk. exact Hm.
  - exact Hm.
Qed.

Lemma cache_safe_total {A} (m : Task A) :
  (forall w, exists a, fst (m w) = Resolved a) -> cache_safe m.
Proof. intros H w. destruct (H w) as (a & ->). exact I. Qed.

Lemma cache_safe_try_catch_rethrow {A} (body : Task A) (l : Error -> LogLine) :
  cache_safe body ->
  cache_safe (try_catch body (fun error => console_log (l error) ;; throw error)).
Proof.
  intros Hb w. unfold try_catch. specialize (Hb w).
  destruct (body w) as [[a|e] w1]; cbn [fst snd] in *; [exact I | exact Hb].
Qed.

Lemma cache_safe_refreshUserKeys userId discordTag isBackground :
  cache_safe (refreshUserKeys userId discordTag isBackground).
Proof.
  unfold refreshUserKeys.
  apply cache_safe_bind; [apply preserves_Date_now|]. intros startTime.
  apply cache_safe_try_catch_rethrow.
  apply cache_safe_bind; [apply preserves_Promise_all2; reflexivity|]. intros snapshots.
  apply cache_safe_bind; [apply preserves_Date_now|]. intros now.
  apply cache_safe_bind; [apply preserves_process_fallback; reflexivity|]. intros acc2.
  apply cache_safe_bind; [apply preserves_process_whitelist; reflexivity|]. intros acc3.
  apply cache_safe_bind.
  { destruct (0 <? length (snd acc3))%nat; [|apply preserves_ret].
    apply preserves_bind; [apply preserves_safeBatchCommit; reflexivity|]. intros _.
    apply preserves_ret. }
  intros _.
  apply cache_safe_total. intros w. eexists. reflexivity.
Qed.

(** C5: when the store rejects a request of a refresh, the refresh throws
    the error of a rejected request, and the key cache is what it was
    before the call. *)
Theorem refresh_failure_keeps_cache userId discordTag isBackground w :
  (exists rq,
      In (rq, false)
         (concat (new_rounds w (snd (refreshUserKeys userId discordTag isBackground w))))) ->
  exists e,
    fst (refreshUserKeys userId discordTag isBackground w) = Thrown e
    /\ (exists rq,
          e = StoreError rq
          /\ In (rq, false)
               (concat (new_rounds w (snd (refreshUserKeys userId discordTag isBackground w)))))
    /\ userKeyCache (snd (refreshUserKeys userId discordTag isBackground w)) = userKeyCache w.
Proof.
  intros (rq & Hrq).
  destruct (traced_refreshUserKeys userId discordTag isBackground w) as (rounds & Hio & Hout).
  pose proof (cache_safe_refreshUserKeys userId discordTag isBackground w) as Hcache.
  rewrite (new_rounds_app _ _ _ Hio) in *.
  destruct (fst (refreshUserKeys userId discordTag isBackground w)) as [keys|e].
  - exfalso. exact (all_accepted_no_failure _ _ Hout Hrq).
  - exists e. split; [reflexivity|]. split; [exact Hout | exact Hcache].
Qed.

Lemma refresh_failure_keeps_cache_witness :
  (exists e, fst (refreshUserKeys "1001" "bob" false outage_world) = Thrown e)
  /\ userKeyCache (snd (refreshUserKeys "1001" "bob" false outage_world)) !! "1001"
     = Some {| c_keys := ["VORAHUB-AAAAAA-111111-BBBBBB"];
               c_expires := 1699999000000;
               c_lastRefresh := 1699998700000 |}.
Proof.
  destruct (refresh_failure_keeps_cache "1001" "bob" false outage_world)
    as (e & He & _ & Hcache).
  - exists (KeysWhereUserId "1001"). vm_compute. auto.
  - split; [exists e; exact He|]. rewrite Hcache. vm_compute. reflexivity.
Defined.

(** ** Background refresh *)

Lemma marker_released (userId : string) (q : gset string) :
  userId ∉ ({[userId]} ∪ q) ∖ {[userId]}.
Proof.
  intros Hin. apply elem_of_difference in Hin. destruct Hin as [_ Hn].
  apply Hn. apply elem_of_singleton. reflexivity.
Qed.

Lemma marker_restored (userId : string) (q : gset string) :
  userId ∉ q -> ({[userId]} ∪ q) ∖ {[userId]} = q.
Proof.
  intros Hq. apply set_eq. intros x.
  rewrite elem_of_difference, elem_of_union, elem_of_singleton. split.
  - intros [[Hx|Hx] Hn]; [contradiction | exact Hx].
  - intros Hx. split; [right; exact Hx | intros ->; contradiction].
Qed.

(** C6: [refreshUserKeysBackground] always returns normally. When the
    marker of the identity is already set it changes nothing: no refresh
    is started and the marker stays with the refresh that owns it.
    Otherwise the call sets the marker before it waits for the refresh,
    so that a second call for the identity made in the meantime returns
    at once and the two calls together do what one does; the marker is
    still set when the refresh settles and, whether the refresh returned
    or threw, it is removed afterwards; a thrown error ends up on the
    console only. *)
Theorem background_refresh_single_flight userId discordTag w :
  let run := refreshUserKeysBackground userId discordTag w in
  let held := with_backgroundRefreshQueue ({[userId]} ∪ backgroundRefreshQueue w) w in
  let inner := refreshUserKeys userId discordTag true held in
  fst run = Resolved tt
  /\ (userId ∈ backgroundRefreshQueue w ->
      refreshUserKeysBackground_async userId discordTag w = (Finished (Resolved tt), w)
      /\ snd run = w)
  /\ (userId ∉ backgroundRefreshQueue w ->
      (exists resume,
          refreshUserKeysBackground_async userId discordTag w
          = (Awaiting (refreshUserKeys userId discordTag true) resume, held))
      /\ userId ∈ backgroundRefreshQueue held
      /\ (forall tag, refreshUserKeysBackground userId tag held = (Resolved tt, held))
      /\ (forall tag,
             overlapped (refreshUserKeysBackground_async userId discordTag)
               (refreshUserKeysBackground userId tag) w
             = run)
      /\ userId ∈ backgroundRefreshQueue (snd inner)
      /\ (userId ∉ backgroundRefreshQueue (snd run))
      /\ backgroundRefreshQueue (snd run) = backgroundRefreshQueue w
      /\ io (snd run) = io (snd inner)
      /\ userKeyCache (snd run) = userKeyCache (snd inner)
      /\ console (snd run)
         = match fst inner with
           | Resolved _ => console (snd inner)
           | Thrown e => console (snd inner) ++ [LogBgRefreshError discordTag e]
           end).
Proof.
  cbv zeta.
  set (held := with_backgroundRefreshQueue ({[userId]} ∪ backgroundRefreshQueue w) w).
  assert (Hheld : userId ∈ backgroundRefreshQueue held).
  { cbn [held backgroundRefreshQueue with_backgroundRefreshQueue].
    apply elem_of_union. left. apply elem_of_singleton. reflexivity. }
  assert (Hsecond : forall tag, refreshUserKeysBackground userId tag held = (Resolved tt, held)).
  { intros tag. unfold refreshUserKeysBackground, complete, refreshUserKeysBackground_async.
    rewrite (bool_decide_eq_true_2 _ Hheld). reflexivity. }
  destruct (decide (userId ∈ backgroundRefreshQueue w)) as [Hin|Hnin].
  - assert (Hcall : refreshUserKeysBackground_async userId discordTag w
                    = (Finished (Resolved tt), w)).
    { unfold refreshUserKeysBackground_async. rewrite (bool_decide_eq_true_2 _ Hin).
      reflexivity. }
    unfold refreshUserKeysBackground at 1 2, complete. rewrite Hcall. cbn [fst snd].
    split; [reflexivity|]. split; [auto|]. intros Hn. contradiction.
  - set (resume := fun settled : Outcome (list string) =>
                     try_finally
                       (try_catch
                          (settle settled ;; ret tt)
                          (fun error => console_log (LogBgRefreshError discordTag error)))
                       (fun w' =>
                          with_backgroundRefreshQueue
                            (backgroundRefreshQueue w' ∖ {[userId]}) w')).
    assert (Hcall : refreshUserKeysBackground_async userId discordTag w
                    = (Awaiting (refreshUserKeys userId discordTag true) resume, held)).
    { unfold refreshUserKeysBackground_async. rewrite (bool_decide_eq_false_2 _ Hnin).
      reflexivity. }
    assert (Hrun : refreshUserKeysBackground userId discordTag w
                   = (let (x, w'') := refreshUserKeys userId discordTag true held in
                      resume x w'')).
    { unfold refreshUserKeysBackground, complete. rewrite Hcall. reflexivity. }
    assert (Hover : forall tag,
               overlapped (refreshUserKeysBackground_async userId discordTag)
                 (refreshUserKeysBackground userId tag) w
               = refreshUserKeysBackground userId discordTag w).
    { intros tag. unfold overlapped. rewrite Hcall, (Hsecond tag), Hrun. reflexivity. }
    pose proof (refreshUserKeys_backgroundRefreshQueue userId discordTag true held) as Hq.
    rewrite Hrun. unfold resume, try_finally, try_catch, bind, settle.
    destruct (refreshUserKeys userId discordTag true held) as [[keys|e] w1];
      cbn [fst snd] in *.
    + split; [reflexivity|]. split; [intros Hin; contradiction|]. intros _.
      split; [exists resume; exact Hcall|]. split; [exact Hheld|].
      split; [exact Hsecond|]. split; [intros tag; rewrite (Hover tag); exact Hrun|].
      split; [rewrite Hq; exact Hheld|].
      cbv [ret].
      cbn [snd backgroundRefreshQueue with_backgroundRefreshQueue io userKeyCache console].
      rewrite Hq. split; [apply marker_released|].
      split; [apply marker_restored; exact Hnin|]. repeat split; reflexivity.
    + split; [reflexivity|]. split; [intros Hin; contradiction|]. intros _.
      split; [exists resume; exact Hcall|]. split; [exact Hheld|].
      split; [exact Hsecond|]. split; [intros tag; rewrite (Hover tag); exact Hrun|].
      split; [rewrite Hq; exact Hheld|].
      cbv [console_log].
      cbn [snd backgroundRefreshQueue with_backgroundRefreshQueue with_console
             io userKeyCache console].
      rewrite Hq. split; [apply marker_released|].
      split; [apply marker_restored; exact Hnin|]. repeat split; reflexivity.
Qed.

(** A background refresh in front of a store that is down: the refresh
    inside throws, the caller gets a normal return and the marker is
    gone. *)
Example background_refresh_during_outage :
  (exists e, fst (refreshUserKeys "1001" "bob" true
                    (with_backgroundRefreshQueue {[ "1001" ]} outage_world)) = Thrown e)
  /\ fst (refreshUserKeysBackground "1001" "bob" outage_world) = Resolved tt
  /\ "1001" ∉ backgroundRefreshQueue (snd (refreshUserKeysBackground "1001" "bob" outage_world)).
Proof.
  split; [eexists; vm_compute; reflexivity|].
  split; [vm_compute; reflexivity|].
  intros Hx. vm_compute in Hx. discriminate Hx.
Qed.

(** The interactive caller of a soft refresh: the cached keys come back
    although the refresh it started failed; the failure is on the console
    and the marker is gone. *)
Example soft_refresh_during_outage :
  fst (getUserActiveKeys "1001" "bob" false soft_stale_outage_world)
  = Resolved ["VORAHUB-AAAAAA-111111-BBBBBB"%string]
  /\ userKeyCache (snd (getUserActiveKeys "1001" "bob" false soft_stale_outage_world))
     = userKeyCache soft_stale_outage_world
  /\ console (snd (getUserActiveKeys "1001" "bob" false soft_stale_outage_world))
     = [LogRefreshError "bob" (StoreError (KeysWhereUserId "1001"));
        LogBgRefreshError "bob" (StoreError (KeysWhereUserId "1001"))]
  /\ "1001" ∉ backgroundRefreshQueue
                (snd (getUserActiveKeys "1001" "bob" false soft_stale_outage_world)).
Proof.
  split; [vm_compute; reflexivity|]. split; [vm_compute; reflexivity|].
  split; [vm_compute; reflexivity|].
  intros Hx. vm_compute in Hx. discriminate Hx.
Qed.

(** ** getUserActiveKeys *)

(** C4: while the cache entry of an identity is not hard-expired and its
    last refresh is within the soft-refresh window, two consecutive calls
    without [forceRefresh] return the cached keys both times, send nothing
    to the store and leave the process as it was. *)
Theorem cached_reads_are_idempotent userId discordTag w cached d :
  userKeyCache w !! userId = Some cached ->
  0 <= d ->
  clock w + d < c_expires cached ->
  clock w + d - c_lastRefresh cached <= CACHE_SOFT_REFRESH ->
  let first := getUserActiveKeys userId discordTag false w in
  let second := getUserActiveKeys userId discordTag false (later d (snd first)) in
  fst first = Resolved (c_keys cached)
  /\ fst second = Resolved (c_keys cached)
  /\ new_rounds w (snd second) = []
  /\ snd first = w
  /\ snd second = later d w.
Proof.
  intros Hc Hd Hexp Hsoft.
  assert (Hhit : forall w0 : World,
             userKeyCache w0 !! userId = Some cached ->
             clock w <= clock w0 <= clock w + d ->
             getUserActiveKeys userId discordTag false w0 = (Resolved (c_keys cached), w0)).
  { intros w0 Hc0 Hclock. unfold getUserActiveKeys.
    cbv [bind userKeyCache_get Date_now]. rewrite Hc0.
    assert ((c_expires cached >? clock w0) = true) as -> by (apply Z.gtb_lt; lia).
    assert ((clock w0 - c_lastRefresh cached >? CACHE_SOFT_REFRESH) = false) as ->
        by (rewrite Z.gtb_ltb; apply Z.ltb_ge; lia).
    rewrite andb_false_r. reflexivity. }
  cbv zeta. rewrite (Hhit w Hc) by lia. cbn [fst snd].
  rewrite (Hhit (later d w)); [|exact Hc | cbn [later clock with_clock]; lia].
  cbn [fst snd]. split; [reflexivity|]. split; [reflexivity|].
  split; [|split; reflexivity].
  apply new_rounds_app. cbn [later io with_clock]. rewrite app_nil_r. reflexivity.
Qed.

Lemma cached_reads_are_idempotent_witness :
  fst (getUserActiveKeys "1001" "bob" false warm_cache_world)
  = Resolved ["VORAHUB-AAAAAA-111111-BBBBBB"%string]
  /\ fst (getUserActiveKeys "1001" "bob" false
            (later 5000 (snd (getUserActiveKeys "1001" "bob" false warm_cache_world))))
     = Resolved ["VORAHUB-AAAAAA-111111-BBBBBB"%string]
  /\ new_rounds warm_cache_world
       (snd (getUserActiveKeys "1001" "bob" false
               (later 5000 (snd (getUserActiveKeys "1001" "bob" false warm_cache_world)))))
     = [].
Proof.
  destruct (cached_reads_are_idempotent "1001" "bob" warm_cache_world
              {| c_keys := ["VORAHUB-AAAAAA-111111-BBBBBB"%string];
                 c_expires := 1700000270000;
                 c_lastRefresh := 1699999970000 |} 5000)
    as (H1 & H2 & H3 & _).
  - vm_compute. reflexivity.
  - vm_compute. discriminate.
  - vm_compute. reflexivity.
  - vm_compute. discriminate.
  - split; [exact H1|]. split; [exact H2 | exact H3].
Defined.

Lemma accepted_end_round (r : Round) (w : World) (k : nat) :
  accepted (end_round r w) k = accepted w (length r + k).
Proof.
  unfold accepted, sent. cbn [end_round io with_clock with_io rejects].
  rewrite concat_app, length_app. cbn [concat]. rewrite app_nil_r.
  rewrite Nat.add_assoc. reflexivity.
Qed.

(** C3, as the code has it: for an identity without key records (by
    identity or by alias) and without whitelist entry, a call that is not
    answered from the cache returns an empty sequence after two rounds
    with the store, four reads in all, when the store answers them: the
    identity query with the whitelist entry, then the two alias queries.
    Nothing is written and nothing is retried. *)
Theorem unknown_identity_resolves_empty userId discordTag forceRefresh w :
  forceRefresh = true \/ cache_hit userId w = false ->
  keys_where_userId userId (keys_collection (db w)) = [] ->
  keys_where_usedByDiscord discordTag 5 (keys_collection (db w)) = [] ->
  keys_where_usedByDiscord (username_of discordTag) 5 (keys_collection (db w)) = [] ->
  whitelist_collection (db w) !! userId = None ->
  (forall k, (k < 4)%nat -> accepted w k = true) ->
  let run := getUserActiveKeys userId discordTag forceRefresh w in
  fst run = Resolved []
  /\ new_rounds w (snd run)
     = [[(KeysWhereUserId userId, true); (WhitelistDoc userId, true)];
        [(KeysWhereUsedByDiscord discordTag 5, true);
         (KeysWhereUsedByDiscord (username_of discordTag) 5, true)]]
  /\ db (snd run) = db w.
Proof.
  intros Hmiss Hid Htag Huser Hwl Hok.
  assert (Hrefresh :
            fst (refreshUserKeys userId discordTag false w) = Resolved []
            /\ new_rounds w (snd (refreshUserKeys userId discordTag false w))
               = [[(KeysWhereUserId userId, true); (WhitelistDoc userId, true)];
                  [(KeysWhereUsedByDiscord discordTag 5, true);
                   (KeysWhereUsedByDiscord (username_of discordTag) 5, true)]]
            /\ db (snd (refreshUserKeys userId discordTag false w)) = db w).
  { unfold refreshUserKeys, process_fallback, process_whitelist.
    cbv [bind try_catch Date_now Promise_all2].
    rewrite !Hok by lia.
    cbn [answer request db_keys_where_userId db_whitelist_doc fst snd].
    rewrite Hid, Hwl. cbn [fold_left fst snd length Nat.eqb andb negb].
    rewrite !accepted_end_round. cbn [length Nat.add]. rewrite !Hok by lia.
    cbn [answer request db_keys_where_usedByDiscord fst snd db end_round with_clock with_io].
    rewrite Htag, Huser.
    cbv [ret console_log userKeyCache_set].
    cbn [fold_left fst snd length Nat.ltb Nat.leb].
    split; [reflexivity|]. split; [|reflexivity].
    apply new_rounds_app. unfold end_round.
    cbn [io with_userKeyCache with_console with_clock with_io].
    rewrite <- app_assoc. reflexivity. }
  cbv zeta. unfold getUserActiveKeys. cbv [bind userKeyCache_get Date_now].
  destruct forceRefresh; [exact Hrefresh|].
  destruct Hmiss as [Hf|Hmiss]; [discriminate Hf|].
  unfold cache_hit in Hmiss.
  destruct (userKeyCache w !! userId) as [cached|]; [|exact Hrefresh].
  rewrite Hmiss. exact Hrefresh.
Qed.

Lemma unknown_identity_resolves_empty_witness :
  fst (getUserActiveKeys "1001" "bob#0420" false empty_world) = Resolved []
  /\ new_rounds empty_world (snd (getUserActiveKeys "1001" "bob#0420" false empty_world))
     = [[(KeysWhereUserId "1001", true); (WhitelistDoc "1001", true)];
        [(KeysWhereUsedByDiscord "bob#0420" 5, true);
         (KeysWhereUsedByDiscord "bob" 5, true)]].
Proof.
  destruct (unknown_identity_resolves_empty "1001" "bob#0420" false empty_world)
    as (H1 & H2 & _).
  - right. vm_compute. reflexivity.
  - reflexivity.
  - reflexivity.
  - reflexivity.
  - vm_compute. reflexivity.
  - intros k _. reflexivity.
  - split; [exact H1 | exact H2].
Defined.

(** An identity unknown to the store, a process without cache: the call
    returns an empty sequence after two rounds and four reads, not one. *)
Lemma unknown_identity_takes_two_rounds :
  keys_collection (db empty_world) = []
  /\ whitelist_collection (db empty_world) !! "1001" = None
  /\ generated_keys_collection (db empty_world) = ∅
  /\ fst (getUserActiveKeys "1001" "bob" false empty_world) = Resolved []
  /\ length (new_rounds empty_world
               (snd (getUserActiveKeys "1001" "bob" false empty_world))) = 2%nat
  /\ length (concat (new_rounds empty_world
                       (snd (getUserActiveKeys "1001" "bob" false empty_world)))) = 4%nat
  /\ length (new_rounds empty_world
               (snd (getUserActiveKeys "1001" "bob" false empty_world))) <> 1%nat.
Proof.
  split; [reflexivity|]. split; [vm_compute; reflexivity|]. split; [reflexivity|].
  split; [vm_compute; reflexivity|]. split; [vm_compute; reflexivity|].
  split; [vm_compute; reflexivity|]. vm_compute. discriminate.
Qed.

(** ** Redeeming a key that is already bound *)

Example isValidKeyFormat_examples :
  isValidKeyFormat "VORAHUB-ABCDEF-123456-789012" = true
  /\ isValidKeyFormat "VORAHUB-abcdef-123456-789012" = false
  /\ isValidKeyFormat "VORAHUB-12345-123456-789012" = false.
Proof. repeat split; reflexivity. Qed.

Lemma holder_label_cases (activeData : KeyData) :
  (forall tag, k_usedByDiscord activeData = Some tag -> tag <> "" ->
               holder_label activeData = tag)
  /\ (truthy_string (k_usedByDiscord activeData) = false ->
      forall uid, k_userId activeData = Some uid -> uid <> "" ->
                  holder_label activeData = uid)
  /\ (truthy_string (k_usedByDiscord activeData) = false ->
      truthy_string (k_userId activeData) = false ->
      holder_label activeData = "Unknown").
Proof.
  unfold holder_label. split; [|split].
  - intros tag -> Hne. cbn [truthy_string].
    destruct (String.eqb_spec tag ""); [contradiction | reflexivity].
  - intros Hno uid -> Hne.
    assert (negb (String.eqb uid "") = true) as Huid
      by (destruct (String.eqb_spec uid ""); [contradiction | reflexivity]).
    destruct (k_usedByDiscord activeData) as [tag|];
      cbn [truthy_string] in *; rewrite ?Hno, Huid; reflexivity.
  - intros Hno Hnu.
    destruct (k_usedByDiscord activeData) as [tag|];
      destruct (k_userId activeData) as [uid|];
      cbn [truthy_string] in *; rewrite ?Hno, ?Hnu; reflexivity.
Qed.

(** The cooldown gate in front of the branch. *)
Lemma checkCooldown_run userId duration w :
  checkCooldown userId duration w = (fst (checkCooldown userId duration w), w).
Proof.
  unfold checkCooldown. destruct (cooldowns w !! userId) as [userCooldown|]; [|reflexivity].
  destruct (truthy (JsNumber userCooldown) && (clock w <? userCooldown)); reflexivity.
Qed.

Lemma redeem_submit_cooling userId discordTag inputKey w remaining :
  fst (checkCooldown userId COOLDOWN_DURATION w) = Resolved (OnCooldown remaining) ->
  redeem_submit userId discordTag inputKey w = (Resolved (cooldown_message remaining), w).
Proof.
  intros Hgate. unfold redeem_submit, bind.
  rewrite (checkCooldown_run userId COOLDOWN_DURATION w), Hgate. reflexivity.
Qed.

Lemma redeem_submit_held userId discordTag inputKey w :
  fst (checkCooldown userId COOLDOWN_DURATION w) = Resolved NoCooldown ->
  activeOperations w !! operation_key userId "redeem" <> None ->
  redeem_submit userId discordTag inputKey w
  = (Resolved "⚠️ Kamu sedang melakukan redeem. Tunggu hingga selesai!"%string, w).
Proof.
  intros Hgate Hheld. unfold redeem_submit, bind.
  rewrite (checkCooldown_run userId COOLDOWN_DURATION w), Hgate. unfold startOperation.
  destruct (activeOperations w !! operation_key userId "redeem"); [reflexivity | congruence].
Qed.

Lemma redeem_submit_free userId discordTag inputKey w :
  fst (checkCooldown userId COOLDOWN_DURATION w) = Resolved NoCooldown ->
  activeOperations w !! operation_key userId "redeem" = None ->
  let w0 := with_activeOperations
              (<[operation_key userId "redeem" := clock w]> (activeOperations w)) w in
  redeem_submit userId discordTag inputKey w
  = (fst (redeem_try userId discordTag inputKey w0),
     endOperation userId "redeem" (snd (redeem_try userId discordTag inputKey w0))).
Proof.
  intros Hgate Hfree. cbv zeta. unfold redeem_submit, bind.
  rewrite (checkCooldown_run userId COOLDOWN_DURATION w), Hgate. unfold startOperation.
  rewrite Hfree. cbn [negb]. unfold try_finally.
  destruct (redeem_try userId discordTag inputKey _). reflexivity.
Qed.

(** C9, as the code has it: a redemption of a key that is already in
    [keys], by an identity that is not on cooldown, is answered with the
    holder's display label when the document has a non-empty one, and
    then the reply does not depend on the holder's [userId]; when the
    document has no label the reply shows the holder's [userId], and
    [Unknown] when it has neither. *)
Theorem already_bound_reply userId discordTag inputKey w activeData :
  fst (checkCooldown userId COOLDOWN_DURATION w) = Resolved NoCooldown ->
  activeOperations w !! operation_key userId "redeem" = None ->
  userId ∉ blacklist_collection (db w) ->
  isValidKeyFormat inputKey = true ->
  keys_doc inputKey (keys_collection (db w)) = Some activeData ->
  accepted w 0 = true -> accepted w 1 = true ->
  fst (redeem_submit userId discordTag inputKey w)
  = Resolved (already_used_by (holder_label activeData))
  /\ (forall tag, k_usedByDiscord activeData = Some tag -> tag <> "" ->
                  holder_label activeData = tag)
  /\ (truthy_string (k_usedByDiscord activeData) = false ->
      forall uid, k_userId activeData = Some uid -> uid <> "" ->
                  holder_label activeData = uid)
  /\ (truthy_string (k_usedByDiscord activeData) = false ->
      truthy_string (k_userId activeData) = false ->
      holder_label activeData = "Unknown").
Proof.
  intros Hgate Hop Hbl Hfmt Hdoc Hok0 Hok1.
  split; [|apply holder_label_cases].
  rewrite (redeem_submit_free _ _ _ _ Hgate Hop). cbn [fst].
  unfold redeem_try, bind, get.
  assert (Hacc : forall k, accepted (with_activeOperations
                   (<[operation_key userId "redeem" := clock w]> (activeOperations w)) w) k
                 = accepted w k) by reflexivity.
  rewrite Hacc, Hok0.
  cbn [answer db_blacklist_doc db with_activeOperations].
  rewrite (bool_decide_eq_false_2 _ Hbl). rewrite Hfmt. cbn [negb].
  rewrite accepted_end_round. cbn [length Nat.add]. rewrite Hacc, Hok1.
  cbn [answer db_keys_doc db end_round with_clock with_io with_activeOperations].
  rewrite Hdoc. reflexivity.
Qed.

Lemma already_bound_reply_witness :
  fst (redeem_submit "2002" "eve" "VORAHUB-AAAAAA-111111-BBBBBB" labelled_world)
  = Resolved (already_used_by "bob").
Proof.
  destruct (already_bound_reply "2002" "eve" "VORAHUB-AAAAAA-111111-BBBBBB" labelled_world
              (snd bound_doc)) as (Hrun & Htag & _).
  - reflexivity.
  - vm_compute. reflexivity.
  - intros Hin. vm_compute in Hin. discriminate Hin.
  - reflexivity.
  - reflexivity.
  - reflexivity.
  - reflexivity.
  - rewrite Hrun. rewrite (Htag "bob"%string); [reflexivity | reflexivity | discriminate].
Defined.

(** A redemption against a key that is already bound, answered with the
    raw identity of the holder: the document has no alias label. *)
Lemma already_bound_reply_shows_identity :
  k_userId (snd unlabelled_doc) = Some "1001"%string
  /\ k_usedByDiscord (snd unlabelled_doc) = None
  /\ fst (redeem_submit "2002" "eve" "VORAHUB-AAAAAA-111111-BBBBBB" unlabelled_world)
     = Resolved "❌ Key sudah dipakai oleh **1001**!"%string.
Proof.
  split; [reflexivity|]. split; [reflexivity|]. vm_compute. reflexivity.
Qed.

(** * The rest of the code *)

(** ** Key format and key generation *)

Lemma strip_prefix_Some (p s r : string) :
  strip_prefix p s = Some r <-> s = p +:+ r.
Proof.
  revert s. induction p as [|a p IH]; intros s; cbn [strip_prefix String.append].
  - split; [intros H; inversion H; reflexivity | intros ->; reflexivity].
  - destruct s as [|b s].
    + split; intros H; discriminate H.
    + destruct (Ascii.eqb_spec a b) as [->|Hne].
      * rewrite IH. split; [intros ->; reflexivity | intros H; inversion H; reflexivity].
      * split; [intros H; discriminate H | intros H; inversion H; congruence].
Qed.

Lemma key_chars_Some (n : nat) (s r : string) :
  key_chars n s = Some r
  <-> exists g, s = g +:+ r /\ String.length g = n /\ all_key_chars g = true.
Proof.
  revert s. induction n as [|n IH]; intros s; cbn [key_chars].
  - split.
    + intros H. inversion H; subst. exists EmptyString. repeat split.
    + intros (g & -> & Hlen & _). destruct g; [reflexivity | discriminate Hlen].
  - destruct s as [|c s].
    + split; [intros H; discriminate H|].
      intros (g & Hs & Hlen & _). destruct g; [discriminate Hlen | discriminate Hs].
    + destruct (is_key_char c) eqn:Ec.
      * rewrite IH. split.
        -- intros (g & -> & Hlen & Hall). exists (String c g).
           cbn [String.append String.length all_key_chars]. rewrite Ec, Hlen, Hall. auto.
        -- intros (g & Hs & Hlen & Hall). destruct g as [|c' g]; [discriminate Hlen|].
           cbn [String.append String.length all_key_chars] in *.
           inversion Hs; subst. apply andb_true_iff in Hall. destruct Hall as [_ Hall].
           exists g. auto.
      * split; [intros H; discriminate H|].
        intros (g & Hs & Hlen & Hall). destruct g as [|c' g]; [discriminate Hlen|].
        cbn [String.append all_key_chars] in *. inversion Hs; subst.
        rewrite Ec in Hall. discriminate Hall.
Qed.

Lemma key_group_Some (s r : string) :
  key_group s = Some r <-> exists g, s = "-" +:+ g +:+ r /\ key_group_ok g.
Proof.
  unfold key_group, key_group_ok. destruct s as [|c s].
  - split; [intros H; discriminate H | intros (g & H & _); discriminate H].
  - destruct (Ascii.eqb_spec c "-"%char) as [->|Hne].
    + rewrite key_chars_Some. split.
      * intros (g & -> & Hlen & Hall). exists g. auto.
      * intros (g & Hs & Hlen & Hall). cbn [String.append] in Hs. inversion Hs; subst.
        exists g. auto.
    + split; [intros H; discriminate H|].
      intros (g & Hs & _). cbn [String.append] in Hs. inversion Hs; congruence.
Qed.

Lemma append_cons (c : ascii) (s r : string) : String c s +:+ r = String c (s +:+ r).
Proof. reflexivity. Qed.

Lemma append_empty_r (s : string) : s +:+ "" = s.
Proof.
  induction s as [|c s IH]; [reflexivity | rewrite append_cons, IH; reflexivity].
Qed.

Lemma length_append (a b : string) :
  String.length (a +:+ b) = (String.length a + String.length b)%nat.
Proof.
  induction a as [|c a IH]; [reflexivity|].
  rewrite append_cons. cbn [String.length]. rewrite IH. reflexivity.
Qed.

Lemma isValidKeyFormat_groups (key : string) :
  isValidKeyFormat key = true
  <-> exists g1 g2 g3,
       key = KEY_PREFIX +:+ "-" +:+ g1 +:+ "-" +:+ g2 +:+ "-" +:+ g3
       /\ key_group_ok g1 /\ key_group_ok g2 /\ key_group_ok g3.
Proof.
  unfold isValidKeyFormat. split.
  - destruct (strip_prefix KEY_PREFIX key) as [s1|] eqn:E1; [|discriminate].
    destruct (key_group s1) as [s2|] eqn:E2; [|discriminate].
    destruct (key_group s2) as [s3|] eqn:E3; [|discriminate].
    destruct (key_group s3) as [[|c s4]|] eqn:E4; try discriminate. intros _.
    apply strip_prefix_Some in E1. apply key_group_Some in E2, E3, E4.
    destruct E2 as (g1 & -> & H1), E3 as (g2 & -> & H2), E4 as (g3 & -> & H3).
    exists g1, g2, g3. split; [|auto]. rewrite E1.
    rewrite append_empty_r. unfold KEY_PREFIX. cbn [String.append]. reflexivity.
  - intros (g1 & g2 & g3 & -> & H1 & H2 & H3).
    assert (E1 : strip_prefix KEY_PREFIX
                   (KEY_PREFIX +:+ "-" +:+ g1 +:+ "-" +:+ g2 +:+ "-" +:+ g3)
                 = Some ("-" +:+ g1 +:+ "-" +:+ g2 +:+ "-" +:+ g3)).
    { apply strip_prefix_Some. unfold KEY_PREFIX. cbn [String.append]. reflexivity. }
    rewrite E1.
    assert (E2 : key_group ("-" +:+ g1 +:+ "-" +:+ g2 +:+ "-" +:+ g3)
                 = Some ("-" +:+ g2 +:+ "-" +:+ g3))
      by (apply key_group_Some; exists g1; auto).
    rewrite E2.
    assert (E3 : key_group ("-" +:+ g2 +:+ "-" +:+ g3) = Some ("-" +:+ g3))
      by (apply key_group_Some; exists g2; auto).
    rewrite E3.
    assert (E4 : key_group ("-" +:+ g3) = Some EmptyString).
    { apply key_group_Some. exists g3. split; [|exact H3].
      rewrite append_empty_r. reflexivity. }
    rewrite E4. reflexivity.
Qed.

(** X1: [isValidKeyFormat] accepts exactly the strings made of the prefix
    and three groups of six characters of [[A-F0-9]], each after a
    hyphen; an accepted key has 28 characters. *)
Theorem isValidKeyFormat_shape (key : string) :
  (isValidKeyFormat key = true
   <-> exists g1 g2 g3,
        key = KEY_PREFIX +:+ "-" +:+ g1 +:+ "-" +:+ g2 +:+ "-" +:+ g3
        /\ key_group_ok g1 /\ key_group_ok g2 /\ key_group_ok g3)
  /\ (isValidKeyFormat key = true -> String.length key = 28%nat).
Proof.
  split; [apply isValidKeyFormat_groups|].
  intros H. apply isValidKeyFormat_groups in H.
  destruct H as (g1 & g2 & g3 & -> & [L1 _] & [L2 _] & [L3 _]).
  rewrite !length_append, L1, L2, L3. reflexivity.
Qed.

Lemma digits_of_byte (b : Byte.byte) :
  is_key_char (high_digit b) = true
  /\ is_key_char (low_digit b) = true
  /\ decode_byte (high_digit b) (low_digit b) = Some b.
Proof. destruct b; vm_compute; auto. Qed.

Lemma key_group_of_ok (a b c : Byte.byte) : key_group_ok (key_group_of a b c).
Proof.
  split; [reflexivity|]. unfold key_group_of. cbn [all_key_chars].
  destruct (digits_of_byte a) as (-> & -> & _).
  destruct (digits_of_byte b) as (-> & -> & _).
  destruct (digits_of_byte c) as (-> & -> & _). reflexivity.
Qed.

Lemma generateKey_9 (b1 b2 b3 b4 b5 b6 b7 b8 b9 : Byte.byte) :
  generateKey [b1; b2; b3; b4; b5; b6; b7; b8; b9]
  = KEY_PREFIX +:+ "-" +:+ key_group_of b1 b2 b3 +:+ "-" +:+ key_group_of b4 b5 b6
    +:+ "-" +:+ key_group_of b7 b8 b9.
Proof. reflexivity. Qed.

(** X2: whatever nine bytes the random generator returns, the key made
    from them passes [isValidKeyFormat]. *)
Theorem generateKey_is_valid (bytes : list Byte.byte) :
  length bytes = 9%nat -> isValidKeyFormat (generateKey bytes) = true.
Proof.
  intros Hlen.
  do 10 (destruct bytes as [|? bytes]; try discriminate Hlen).
  rewrite generateKey_9. apply isValidKeyFormat_groups.
  eexists _, _, _. split; [reflexivity|].
  repeat split; apply key_group_of_ok.
Qed.

Lemma generateKey_is_valid_witness :
  generateKey sample_bytes = "VORAHUB-00FF1A-B23CD4-5EF607"%string
  /\ isValidKeyFormat (generateKey sample_bytes) = true.
Proof.
  split; [reflexivity|]. apply (generateKey_is_valid sample_bytes). reflexivity.
Defined.

Lemma digits_inj (a b : Byte.byte) :
  high_digit a = high_digit b -> low_digit a = low_digit b -> a = b.
Proof.
  intros Hh Hl.
  destruct (digits_of_byte a) as (_ & _ & Ha), (digits_of_byte b) as (_ & _ & Hb).
  rewrite Hh, Hl in Ha. congruence.
Qed.

Lemma key_group_of_inj (a b c a' b' c' : Byte.byte) (r r' : string) :
  key_group_of a b c +:+ r = key_group_of a' b' c' +:+ r' ->
  a = a' /\ b = b' /\ c = c' /\ r = r'.
Proof.
  unfold key_group_of. rewrite !append_cons.
  change ("" +:+ r) with r. change ("" +:+ r') with r'.
  intros H. inversion H.
  repeat split; try apply digits_inj; assumption.
Qed.

(** X3: the key keeps all 72 random bits: two draws of nine bytes give
    the same key only when the bytes are the same. *)
Theorem generateKey_injective (bytes bytes' : list Byte.byte) :
  length bytes = 9%nat -> length bytes' = 9%nat ->
  generateKey bytes = generateKey bytes' -> bytes = bytes'.
Proof.
  intros Hlen Hlen' Heq.
  do 10 (destruct bytes as [|? bytes]; try discriminate Hlen).
  do 10 (destruct bytes' as [|? bytes']; try discriminate Hlen').
  rewrite !generateKey_9 in Heq.
  apply String.app_inj in Heq. apply (String.app_inj "-") in Heq.
  apply key_group_of_inj in Heq. destruct Heq as (-> & -> & -> & Heq).
  apply (String.app_inj "-") in Heq.
  apply key_group_of_inj in Heq. destruct Heq as (-> & -> & -> & Heq).
  apply (String.app_inj "-") in Heq.
  apply (f_equal (fun s => s +:+ "")) in Heq.
  apply key_group_of_inj in Heq. destruct Heq as (-> & -> & -> & _).
  reflexivity.
Qed.

Lemma generateKey_injective_witness :
  sample_bytes = sample_bytes.
Proof.
  apply (generateKey_injective sample_bytes sample_bytes); reflexivity.
Defined.

(** ** Cooldowns *)

Lemma ceil_seconds_bounds (x : Z) :
  1000 * (ceil_seconds x - 1) < x <= 1000 * ceil_seconds x.
Proof.
  unfold ceil_seconds.
  pose proof (Z.div_mod (- x) 1000 ltac:(lia)) as Hdm.
  pose proof (Z.mod_pos_bound (- x) 1000 ltac:(lia)) as Hm. lia.
Qed.

(** X4: after [setCooldown] the identity is on cooldown for exactly
    [duration] milliseconds: a check [d] ms later reports the remaining
    time rounded up to whole seconds while [d < duration], and reports no
    cooldown from then on. Checking changes nothing. *)
Theorem cooldown_window userId duration unused w d :
  0 <= clock w -> 0 < duration -> 0 <= d ->
  let w1 := later d (snd (setCooldown userId duration w)) in
  snd (checkCooldown userId unused w1) = w1
  /\ (d < duration ->
      exists remaining,
        fst (checkCooldown userId unused w1) = Resolved (OnCooldown remaining)
        /\ 1000 * (remaining - 1) < duration - d <= 1000 * remaining
        /\ 1 <= remaining)
  /\ (duration <= d -> fst (checkCooldown userId unused w1) = Resolved NoCooldown).
Proof.
  intros Hclock Hdur Hd w1.
  assert (Hlook : cooldowns w1 !! userId = Some (clock w + duration)).
  { subst w1. cbn [later setCooldown snd cooldowns with_clock with_cooldowns].
    apply lookup_insert_eq. }
  assert (Hnow : clock w1 = clock w + d) by reflexivity.
  unfold checkCooldown. rewrite Hlook, Hnow. cbn [truthy].
  assert ((clock w + duration =? 0) = false) as -> by (apply Z.eqb_neq; lia).
  cbn [negb andb].
  destruct (Z.ltb_spec (clock w + d) (clock w + duration)) as [Hlt|Hge]; cbn [fst snd].
  - split; [reflexivity|]. split; [|intros; lia]. intros _.
    eexists. split; [reflexivity|].
    pose proof (ceil_seconds_bounds (clock w + duration - (clock w + d))) as Hb.
    split; lia.
  - split; [reflexivity|]. split; [intros; lia | reflexivity].
Qed.

Lemma cooldown_window_witness :
  fst (checkCooldown "1001" COOLDOWN_DURATION
         (later 1200 (snd (setCooldown "1001" COOLDOWN_DURATION empty_world))))
  = Resolved (OnCooldown 2)
  /\ fst (checkCooldown "1001" COOLDOWN_DURATION
            (later 3000 (snd (setCooldown "1001" COOLDOWN_DURATION empty_world))))
     = Resolved NoCooldown.
Proof.
  split.
  - destruct (cooldown_window "1001" COOLDOWN_DURATION COOLDOWN_DURATION empty_world 1200)
      as (_ & Hon & _); [vm_compute; discriminate | reflexivity | vm_compute; discriminate |].
    destruct Hon as (r & Hr & Hb & _); [reflexivity|].
    rewrite Hr. repeat f_equal. unfold COOLDOWN_DURATION in Hb. lia.
  - apply (cooldown_window "1001" COOLDOWN_DURATION COOLDOWN_DURATION empty_world 3000);
      [vm_compute; discriminate | reflexivity | vm_compute; discriminate
       | vm_compute; discriminate].
Defined.

(** ** The single-flight guard *)



Lemma operation_key_inj (u1 u2 op1 op2 : string) :
  no_hyphen u1 = true -> no_hyphen u2 = true ->
  operation_key u1 op1 = operation_key u2 op2 -> u1 = u2 /\ op1 = op2.
Proof.
  unfold operation_key. revert u2.
  induction u1 as [|c u1 IH]; intros u2 H1 H2 Heq; destruct u2 as [|c2 u2].
  - rewrite !append_cons in Heq. inversion Heq. auto.
  - exfalso. rewrite !append_cons in Heq. inversion Heq; subst.
    cbn [no_hyphen] in H2. rewrite Ascii.eqb_refl in H2. discriminate H2.
  - exfalso. rewrite !append_cons in Heq. inversion Heq; subst.
    cbn [no_hyphen] in H1. rewrite Ascii.eqb_refl in H1. discriminate H1.
  - rewrite !append_cons in Heq. inversion Heq; subst.
    cbn [no_hyphen] in H1, H2.
    apply andb_true_iff in H1, H2. destruct H1 as [_ H1], H2 as [_ H2].
    destruct (IH u2 H1 H2 ltac:(assumption)) as [-> ->]. auto.
Qed.

(** X6: for identities without hyphen (the platform's ids are decimal),
    the marker of one identity and kind never blocks another identity or
    another kind: [startOperation] answers for them as if the first
    operation had not started. *)
Theorem single_flight_is_per_identity_and_kind u1 op1 u2 op2 w :
  no_hyphen u1 = true -> no_hyphen u2 = true ->
  (u1, op1) <> (u2, op2) ->
  fst (startOperation u2 op2 (snd (startOperation u1 op1 w)))
  = fst (startOperation u2 op2 w).
Proof.
  intros H1 H2 Hne.
  assert (Hk : operation_key u1 op1 <> operation_key u2 op2).
  { intros Heq. apply Hne. destruct (operation_key_inj _ _ _ _ H1 H2 Heq) as [-> ->].
    reflexivity. }
  unfold startOperation at 2.
  destruct (activeOperations w !! operation_key u1 op1); cbn [snd]; [reflexivity|].
  unfold startOperation. cbn [activeOperations with_activeOperations].
  rewrite lookup_insert_ne by exact Hk.
  destruct (activeOperations w !! operation_key u2 op2); reflexivity.
Qed.

Lemma single_flight_is_per_identity_and_kind_witness :
  fst (startOperation "1001" "reset" (snd (startOperation "1001" "redeem" empty_world)))
  = Resolved true.
Proof.
  rewrite (single_flight_is_per_identity_and_kind "1001" "redeem" "1001" "reset" empty_world);
    [vm_compute; reflexivity | reflexivity | reflexivity | discriminate].
Defined.

(** Identities with a hyphen can share a marker. *)
Example operation_key_collision :
  operation_key "a-b" "c" = operation_key "a" "b-c".
Proof. reflexivity. Qed.

(** ** The periodic cleanup *)

Lemma size_filter_complement {A} (P : string * A -> Prop) `{!forall x, Decision (P x)}
    (m : gmap string A) :
  size (filter P m) = (size m - size (filter (fun kv => ~ P kv) m))%nat.
Proof.
  rewrite <- (map_filter_union_complement P m) at 2.
  rewrite map_size_disj_union by apply map_disjoint_filter_complement.
  lia.
Qed.

(** The process after the cleanup. *)
Lemma periodic_cleanup_state (w : World) :
  let now := clock w in
  let w' := snd (periodic_cleanup w) in
  cooldowns w' = filter (fun kv : string * Z => ~ (snd kv < now)) (cooldowns w)
  /\ userKeyCache w'
     = filter (fun kv : string * CacheEntry => ~ (c_expires (snd kv) < now - CACHE_DURATION * 2))
         (userKeyCache w)
  /\ activeOperations w'
     = filter (fun kv : string * Z => ~ (now - snd kv > 300000)) (activeOperations w)
  /\ db w' = db w /\ io w' = io w /\ clock w' = clock w
  /\ backgroundRefreshQueue w' = backgroundRefreshQueue w
  /\ fst (periodic_cleanup w) = Resolved tt.
Proof.
  cbv zeta. unfold periodic_cleanup. cbv [bind console_log ret].
  destruct ((0 <? _) || (0 <? _) || (0 <? _))%nat; repeat split; reflexivity.
Qed.

(** X7: the cleanup only deletes, and never what is live: the store, the
    store traffic, the clock and the background markers are untouched;
    every cooldown check answers as before; a cache entry whose hard
    expiry is less than two cache lifetimes old and an operation marker
    younger than five minutes stay as they are; what is left of the three
    collections was there before. The console gains the [[MEMORY]] line
    with the sizes of what is left, after the [[CLEANUP]] line with the
    numbers of entries removed when something was removed. *)
Theorem cleanup_keeps_what_is_live (w : World) :
  let w' := snd (periodic_cleanup w) in
  let removedCooldowns := (size (cooldowns w) - size (cooldowns w'))%nat in
  let removedCache := (size (userKeyCache w) - size (userKeyCache w'))%nat in
  let removedOperations := (size (activeOperations w) - size (activeOperations w'))%nat in
  db w' = db w /\ io w' = io w /\ clock w' = clock w
  /\ console w'
     = console w
       ++ (if ((0 <? removedCooldowns) || (0 <? removedCache) || (0 <? removedOperations))%nat
           then [LogCleanup removedCooldowns removedCache removedOperations]
           else [])
       ++ [LogMemory (size (cooldowns w')) (size (userKeyCache w'))
             (size (activeOperations w'))]
  /\ backgroundRefreshQueue w' = backgroundRefreshQueue w
  /\ (forall userId duration,
        fst (checkCooldown userId duration w') = fst (checkCooldown userId duration w))
  /\ (forall userId cached,
        userKeyCache w !! userId = Some cached ->
        clock w - CACHE_DURATION * 2 <= c_expires cached ->
        userKeyCache w' !! userId = Some cached)
  /\ (forall key startedAt,
        activeOperations w !! key = Some startedAt ->
        clock w - startedAt <= 300000 ->
        activeOperations w' !! key = Some startedAt)
  /\ (forall userId cached,
        userKeyCache w' !! userId = Some cached -> userKeyCache w !! userId = Some cached)
  /\ (forall key startedAt,
        activeOperations w' !! key = Some startedAt ->
        activeOperations w !! key = Some startedAt)
  /\ (forall userId expiry,
        cooldowns w' !! userId = Some expiry -> cooldowns w !! userId = Some expiry).
Proof.
  cbv zeta.
  destruct (periodic_cleanup_state w) as (Hcd & Hca & Hop & Hdb & Hio & Hclock & Hq & _).
  cbv zeta in Hcd, Hca, Hop.
  split; [exact Hdb|]. split; [exact Hio|]. split; [exact Hclock|].
  split.
  { rewrite Hcd, Hca, Hop, <- !size_filter_complement.
    unfold periodic_cleanup. cbv [bind console_log ret].
    destruct ((0 <? _) || (0 <? _) || (0 <? _))%nat;
      cbn [snd console with_console with_activeOperations with_userKeyCache with_cooldowns];
      rewrite <- ?app_assoc; reflexivity. }
  split; [exact Hq|].
  split.
  { intros userId duration. unfold checkCooldown. rewrite Hclock, Hcd. cbn [fst].
    destruct (cooldowns w !! userId) as [expiry|] eqn:E.
    - destruct (Z.ltb_spec (clock w) expiry) as [Hlt|Hge].
      + erewrite map_lookup_filter_Some_2; [|exact E | cbn [snd]; lia].
        simpl. destruct (negb (expiry =? 0)); cbn [andb];
          [destruct (Z.ltb_spec (clock w) expiry); [reflexivity | lia] | reflexivity].
      + rewrite andb_false_r. cbn [fst].
        destruct (filter _ (cooldowns w) !! userId) as [e'|] eqn:E'; [|reflexivity].
        apply map_lookup_filter_Some in E'. destruct E' as [E' _].
        rewrite E in E'. inversion E'; subst e'.
        destruct (Z.ltb_spec (clock w) expiry); [lia|]. rewrite andb_false_r. reflexivity.
    - assert (filter (fun kv : string * Z => ~ (snd kv < clock w)) (cooldowns w) !! userId
              = None) as ->
          by (apply map_lookup_filter_None; left; exact E).
      reflexivity. }
  rewrite Hcd, Hca, Hop.
  split.
  { intros userId cached Hc Hlive.
    apply map_lookup_filter_Some. split; [exact Hc | cbn [snd]; lia]. }
  split.
  { intros key startedAt Hk Hyoung.
    apply map_lookup_filter_Some. split; [exact Hk | cbn [snd]; lia]. }
  split; [intros ? ? H; apply map_lookup_filter_Some in H; tauto|].
  split; intros ? ? H; apply map_lookup_filter_Some in H; tauto.
Qed.

Lemma filter_filter_same {A} (P : string * A -> Prop) `{!forall x, Decision (P x)}
    (m : gmap string A) :
  filter P (filter P m) = filter P m.
Proof.
  apply map_eq. intros i. apply option_eq. intros x.
  rewrite !map_lookup_filter_Some. tauto.
Qed.

(** X8: after the cleanup no cooldown whose expiry lies before the time
    of the cleanup is left, no cache entry is hard-expired for more than
    two cache lifetimes and no operation marker is older than five
    minutes; an operation whose marker was older can start again. A
    cooldown that runs out at the very time of the cleanup is kept,
    although [checkCooldown] no longer reports it. *)
Theorem cleanup_reclaims (w : World) :
  let w' := snd (periodic_cleanup w) in
  (forall userId expiry, cooldowns w' !! userId = Some expiry -> clock w <= expiry)
  /\ (forall userId expiry,
        cooldowns w !! userId = Some expiry -> expiry < clock w ->
        cooldowns w' !! userId = None)
  /\ (forall userId duration,
        cooldowns w !! userId = Some (clock w) ->
        cooldowns w' !! userId = Some (clock w)
        /\ fst (checkCooldown userId duration w') = Resolved NoCooldown)
  /\ (forall userId cached,
        userKeyCache w' !! userId = Some cached ->
        clock w - CACHE_DURATION * 2 <= c_expires cached)
  /\ (forall key startedAt,
        activeOperations w' !! key = Some startedAt -> clock w - startedAt <= 300000)
  /\ (forall userId operationType startedAt,
        activeOperations w !! operation_key userId operationType = Some startedAt ->
        clock w - startedAt > 300000 ->
        fst (startOperation userId operationType w) = Resolved false
        /\ fst (startOperation userId operationType w') = Resolved true).
Proof.
  cbv zeta.
  destruct (periodic_cleanup_state w) as (Hcd & Hca & Hop & _ & _ & Hclock & _).
  cbv zeta in Hcd, Hca, Hop.
  split; [rewrite Hcd; intros ? ? H; apply map_lookup_filter_Some in H; cbn [snd] in H; lia|].
  split.
  { intros userId expiry Hk Hpast. rewrite Hcd. apply map_lookup_filter_None. right.
    intros x Hx. rewrite Hk in Hx. inversion Hx; subst x. cbn [snd]. lia. }
  split.
  { intros userId duration Hk.
    assert (Hkept : cooldowns (snd (periodic_cleanup w)) !! userId = Some (clock w)).
    { rewrite Hcd. apply map_lookup_filter_Some. split; [exact Hk | cbn [snd]; lia]. }
    split; [exact Hkept|]. unfold checkCooldown. rewrite Hkept, Hclock.
    rewrite Z.ltb_irrefl, andb_false_r. reflexivity. }
  split; [rewrite Hca; intros ? ? H; apply map_lookup_filter_Some in H; cbn [snd] in H; lia|].
  split; [rewrite Hop; intros ? ? H; apply map_lookup_filter_Some in H; cbn [snd] in H; lia|].
  intros userId operationType startedAt Hk Hold. unfold startOperation.
  rewrite Hk, Hop. cbn [fst]. split; [reflexivity|].
  assert (filter (fun kv : string * Z => ~ (clock w - snd kv > 300000)) (activeOperations w)
            !! operation_key userId operationType = None) as ->.
  { apply map_lookup_filter_None. right. intros x Hx.
    rewrite Hk in Hx. inversion Hx; subst x. cbn [snd]. lia. }
  reflexivity.
Qed.

Example cleanup_of_a_cluttered_process :
  console (snd (periodic_cleanup cluttered_world))
  = [LogCleanup 1 1 1; LogMemory 1 1 1]
  /\ fst (startOperation "1001" "redeem" (snd (periodic_cleanup cluttered_world)))
     = Resolved true
  /\ fst (startOperation "1001" "reset" (snd (periodic_cleanup cluttered_world)))
     = Resolved false.
Proof. repeat split; vm_compute; reflexivity. Qed.

(** A second cleanup at the same time removes nothing: it prints the
    [[MEMORY]] line only. *)
Lemma cleanup_twice (w : World) :
  let w' := snd (periodic_cleanup w) in
  let w'' := snd (periodic_cleanup w') in
  cooldowns w'' = cooldowns w' /\ userKeyCache w'' = userKeyCache w'
  /\ activeOperations w'' = activeOperations w'.
Proof.
  cbv zeta.
  destruct (periodic_cleanup_state w) as (Hcd & Hca & Hop & _ & _ & Hclock & _).
  destruct (periodic_cleanup_state (snd (periodic_cleanup w)))
    as (Hcd' & Hca' & Hop' & _).
  cbv zeta in *. rewrite Hcd', Hca', Hop', Hclock, Hcd, Hca, Hop.
  rewrite !filter_filter_same. auto.
Qed.

(** ** Batches *)

Lemma batch_loop_sizes (operations : list WriteOp) :
  forall batches current count batches' current' count',
    count = length current -> (count < BATCH_LIMIT)%nat ->
    Forall (fun b => length b = BATCH_LIMIT) batches ->
    batch_loop operations batches current count = (batches', current', count') ->
    Forall (fun b => length b = BATCH_LIMIT) batches'
    /\ count' = length current' /\ (count' < BATCH_LIMIT)%nat.
Proof.
  induction operations as [|op rest IH];
    intros batches current count batches' current' count' Hc Hlt Hfull H.
  - cbn [batch_loop] in H. inversion H; subst. auto.
  - cbn [batch_loop] in H.
    destruct (Nat.leb_spec BATCH_LIMIT (S count)) as [Hle|Hlt'].
    + apply IH in H; [exact H | reflexivity | unfold BATCH_LIMIT; lia |].
      apply Forall_app. split; [exact Hfull|]. constructor; [|constructor].
      rewrite length_app. cbn [length]. lia.
    + apply IH in H; [exact H | rewrite length_app; cbn [length]; lia | exact Hlt' | exact Hfull].
Qed.

Lemma make_batches_sizes (operations : list WriteOp) :
  Forall (fun b => (0 < length b <= BATCH_LIMIT)%nat) (make_batches operations).
Proof.
  unfold make_batches.
  destruct (batch_loop operations [] [] 0%nat) as [[batches current] count] eqn:E.
  assert (H0 : (0 < BATCH_LIMIT)%nat) by (unfold BATCH_LIMIT; lia).
  pose proof (batch_loop_sizes operations [] [] 0%nat _ _ _ eq_refl H0
                (List.Forall_nil _) E) as (Hfull & Hcount & Hlt).
  assert (Hall : Forall (fun b => (0 < length b <= BATCH_LIMIT)%nat) batches).
  { eapply Forall_impl; [exact Hfull|]. cbn. intros b ->. unfold BATCH_LIMIT. lia. }
  destruct (Nat.ltb_spec 0 count) as [Hpos|Hzero]; [|exact Hall].
  apply Forall_app. split; [exact Hall|]. constructor; [lia | constructor].
Qed.

(** X9: whatever the operation list, [safeBatchCommit] cuts it into
    batches that keep the order and drop nothing, none empty and none
    above [BATCH_LIMIT], all full except possibly the last, so that there
    are as many batches as the list needs and no more. *)
Theorem batches_respect_the_limit (operations : list WriteOp) :
  concat (make_batches operations) = operations
  /\ Forall (fun b => (0 < length b <= BATCH_LIMIT)%nat) (make_batches operations)
  /\ (exists full last,
        make_batches operations = full ++ last
        /\ Forall (fun b => length b = BATCH_LIMIT) full
        /\ (length last <= 1)%nat)
  /\ length (make_batches operations)
     = ((length operations + (BATCH_LIMIT - 1)) / BATCH_LIMIT)%nat.
Proof.
  split; [apply make_batches_concat|].
  pose proof (make_batches_concat operations) as Hcat.
  unfold make_batches in *.
  destruct (batch_loop operations [] [] 0%nat) as [[batches current] count] eqn:E.
  assert (H0 : (0 < BATCH_LIMIT)%nat) by (unfold BATCH_LIMIT; lia).
  pose proof (batch_loop_sizes operations [] [] 0%nat _ _ _ eq_refl H0
                (List.Forall_nil _) E) as (Hfull & Hcount & Hlt).
  assert (Hlen : length (concat batches) = (BATCH_LIMIT * length batches)%nat).
  { clear - Hfull. induction Hfull as [|b bs Hb _ IH]; [cbn; lia|].
    cbn [concat length]. rewrite length_app, IH, Hb. lia. }
  destruct (Nat.ltb_spec 0 count) as [Hpos|Hzero].
  - split.
    { apply Forall_app. split.
      - eapply Forall_impl; [exact Hfull|]. cbn. intros b ->. unfold BATCH_LIMIT. lia.
      - constructor; [lia | constructor]. }
    split; [exists batches, [current]; auto|].
    rewrite <- Hcat at 1. rewrite concat_app, !length_app, Hlen. cbn [concat length].
    rewrite app_nil_r, <- Hcount.
    apply (Nat.div_unique _ _ _ (count - 1)); unfold BATCH_LIMIT in *; lia.
  - split.
    { eapply Forall_impl; [exact Hfull|]. cbn. intros b ->. unfold BATCH_LIMIT. lia. }
    split; [exists batches, []; rewrite app_nil_r; auto|].
    rewrite <- Hcat at 1. rewrite Hlen.
    apply (Nat.div_unique _ _ _ (BATCH_LIMIT - 1)); unfold BATCH_LIMIT in *; lia.
Qed.

(** ** How much a refresh talks to the store *)

Lemma traffic_silent {A} (P : Request -> Prop) (m : Task A) :
  (forall w, io (snd (m w)) = io w) -> traffic 0 P m.
Proof.
  intros H w. exists []. rewrite H, app_nil_r. split; [reflexivity|].
  split; [reflexivity | intros rq ok []].
Qed.

Lemma traffic_weaken {A} (n n' : nat) (P : Request -> Prop) (m : Task A) :
  (n <= n')%nat -> traffic n P m -> traffic n' P m.
Proof.
  intros Hle H w. destruct (H w) as (rounds & Hio & Hlen & HP).
  exists rounds. split; [exact Hio|]. split; [lia | exact HP].
Qed.

Lemma traffic_bind {A B} (n1 n2 : nat) (P : Request -> Prop) (m : Task A) (k : A -> Task B) :
  traffic n1 P m -> (forall a, traffic n2 P (k a)) -> traffic (n1 + n2) P (bind m k).
Proof.
  intros Hm Hk w. unfold bind. destruct (Hm w) as (r1 & Hio1 & Hlen1 & HP1).
  destruct (m w) as [[a|e] w1]; cbn [fst snd] in *.
  - destruct (Hk a w1) as (r2 & Hio2 & Hlen2 & HP2). exists (r1 ++ r2).
    split; [rewrite Hio2, Hio1, app_assoc; reflexivity|].
    split; [rewrite length_app; lia|].
    intros rq ok Hin. rewrite concat_app in Hin. apply in_app_or in Hin.
    destruct Hin; eauto.
  - exists r1. split; [exact Hio1|]. split; [lia | exact HP1].
Qed.

Lemma traffic_try_catch_rethrow {A} (n : nat) (P : Request -> Prop) (body : Task A)
    (l : Error -> LogLine) :
  traffic n P body ->
  traffic n P (try_catch body (fun error => console_log (l error) ;; throw error)).
Proof.
  intros Hb w. unfold try_catch. destruct (Hb w) as (r & Hio & Hlen & HP).
  destruct (body w) as [[a|e] w1]; cbn [fst snd] in *; exists r; auto.
Qed.

Lemma traffic_get {A} (P : Request -> Prop) (r : Read A) :
  P (request r) -> traffic 1 P (get r).
Proof.
  intros HP w. unfold get. exists [[(request r, accepted w 0)]].
  split; [destruct (accepted w 0); reflexivity|]. split; [reflexivity|].
  intros rq ok [Hin|[]]. inversion Hin; subst. exact HP.
Qed.

Lemma traffic_Promise_all2 {A B} (P : Request -> Prop) (r1 : Read A) (r2 : Read B) :
  P (request r1) -> P (request r2) -> traffic 1 P (Promise_all2 r1 r2).
Proof.
  intros H1 H2 w. unfold Promise_all2.
  exists [[(request r1, accepted w 0); (request r2, accepted w 1)]].
  split; [destruct (accepted w 0), (accepted w 1); reflexivity|]. split; [reflexivity|].
  intros rq ok [Hin|[Hin|[]]]; inversion Hin; subst; assumption.
Qed.

Lemma traffic_safeBatchCommit (P : Request -> Prop) (operations : list WriteOp) :
  (forall b, (0 < length b <= BATCH_LIMIT)%nat -> P (BatchCommit b)) ->
  traffic 1 P (safeBatchCommit operations).
Proof.
  intros HP. destruct operations as [|op ops].
  { apply (traffic_weaken 0); [lia|]. apply traffic_silent. reflexivity. }
  intros w.
  destruct (safeBatchCommit_run (op :: ops) w) as (round & s & failure & _ & Hreq & Hrun);
    [discriminate|].
  exists [round].
  split; [destruct failure; [destruct Hrun as [-> _] | destruct Hrun as (-> & _)]; reflexivity|].
  split; [reflexivity|].
  intros rq ok Hin. cbn [concat] in Hin. rewrite app_nil_r in Hin.
  apply (in_map fst) in Hin. rewrite Hreq in Hin. cbn [fst] in Hin.
  apply in_map_iff in Hin. destruct Hin as (b & <- & Hb). apply HP.
  pose proof (make_batches_sizes (op :: ops)) as Hall.
  rewrite Forall_forall in Hall. apply Hall. apply list_elem_of_In. exact Hb.
Qed.

Lemma traffic_refreshUserKeys userId discordTag isBackground :
  traffic 4 (refresh_request userId discordTag isBackground)
    (refreshUserKeys userId discordTag isBackground).
Proof.
  unfold refreshUserKeys.
  apply (traffic_bind 0 4); [apply traffic_silent; reflexivity|]. intros startTime.
  apply traffic_try_catch_rethrow.
  apply (traffic_bind 1 3); [apply traffic_Promise_all2; reflexivity|]. intros snapshots.
  apply (traffic_bind 0 3); [apply traffic_silent; reflexivity|]. intros now.
  apply (traffic_bind 1 2).
  { unfold process_fallback.
    destruct ((length (fst _) =? 0)%nat && negb isBackground) eqn:E.
    - apply andb_true_iff in E. destruct E as [_ E]. apply negb_true_iff in E.
      apply (traffic_bind 1 0).
      + apply traffic_Promise_all2; cbn [request db_keys_where_usedByDiscord refresh_request];
          auto.
      + intros x. apply (traffic_bind 0 0); [apply traffic_silent; reflexivity|].
        intros y. apply traffic_silent. reflexivity.
    - apply (traffic_weaken 0); [lia|]. apply traffic_silent. reflexivity. }
  intros acc2.
  apply (traffic_bind 1 1).
  { unfold process_whitelist. destruct acc2 as [keys ops].
    destruct (snd snapshots) as [whitelistData|].
    2:{ apply (traffic_weaken 0); [lia|]. apply traffic_silent. reflexivity. }
    destruct (wl_key whitelistData) as [key|].
    2:{ apply (traffic_weaken 0); [lia|]. apply traffic_silent. reflexivity. }
    destruct (truthy_string (Some key) && negb (Set_has key keys)).
    2:{ apply (traffic_weaken 0); [lia|]. apply traffic_silent. reflexivity. }
    apply (traffic_bind 1 0); [apply traffic_get; exact I|]. intros keyDoc.
    destruct keyDoc; apply traffic_silent; reflexivity. }
  intros acc3.
  apply (traffic_bind 1 0).
  { destruct (0 <? length (snd acc3))%nat.
    - apply (traffic_bind 1 0); [|intros; apply traffic_silent; reflexivity].
      apply traffic_safeBatchCommit. intros b Hb. exact Hb.
    - apply (traffic_weaken 0); [lia|]. apply traffic_silent. reflexivity. }
  intros _.
  apply (traffic_bind 0 0); [apply traffic_silent; reflexivity|]. intros finished.
  apply (traffic_bind 0 0); [apply traffic_silent; reflexivity|]. intros _.
  apply (traffic_bind 0 0); [apply traffic_silent; reflexivity|]. intros _.
  apply traffic_silent. reflexivity.
Qed.

(** X10: a refresh, whatever its outcome, takes at most four rounds with
    the store: the identity query with the whitelist entry, the two alias
    queries (never for a background refresh), the whitelist key, one
    round of batch commits of at most [BATCH_LIMIT] writes each. It reads
    no other identity and nothing is retried. *)
Theorem refresh_traffic_is_bounded userId discordTag isBackground w :
  (length (new_rounds w (snd (refreshUserKeys userId discordTag isBackground w))) <= 4)%nat
  /\ forall rq ok,
      In (rq, ok)
         (concat (new_rounds w (snd (refreshUserKeys userId discordTag isBackground w)))) ->
      refresh_request userId discordTag isBackground rq.
Proof.
  destruct (traffic_refreshUserKeys userId discordTag isBackground w)
    as (rounds & Hio & Hlen & HP).
  rewrite (new_rounds_app _ _ _ Hio). split; [exact Hlen | exact HP].
Qed.

(** ** What a refresh returns and leaves behind *)

Lemma NoDup_Set_add (k : string) (keys : list string) :
  List.NoDup keys -> List.NoDup (Set_add k keys).
Proof.
  intros Hnd. unfold Set_add. destruct (Set_has k keys) eqn:E; [exact Hnd|].
  apply NoDup_ListNoDup. apply (proj2 (NoDup_app keys [k])). repeat split.
  - apply NoDup_ListNoDup. exact Hnd.
  - intros x Hx Hin. apply list_elem_of_In in Hx, Hin. destruct Hin as [<-|[]].
    apply Set_has_In in Hx. congruence.
  - apply NoDup_singleton.
Qed.

Lemma pass_NoDup (step : Acc -> Doc -> Acc) (now : Z) :
  (forall acc doc,
      fst (step acc doc)
      = if not_expired now (snd doc) then Set_add (fst doc) (fst acc) else fst acc) ->
  forall docs acc, List.NoDup (fst acc) -> List.NoDup (fst (fold_left step docs acc)).
Proof.
  intros Hstep docs. induction docs as [|d docs IH]; intros acc Hnd; cbn [fold_left];
    [exact Hnd|].
  apply IH. rewrite Hstep. destruct (not_expired now (snd d)); [|exact Hnd].
  apply NoDup_Set_add. exact Hnd.
Qed.

(** X11: the sequence a refresh returns has no duplicate, also when a key
    is found by several lookups (identity, alias, whitelist). *)
Theorem refresh_keys_are_distinct userId discordTag isBackground w keys w' :
  refreshUserKeys userId discordTag isBackground w = (Resolved keys, w') ->
  List.NoDup keys.
Proof.
  intros Hrun. apply refreshUserKeys_anatomy in Hrun. cbv zeta in Hrun.
  destruct Hrun as (acc2 & acc3 & fb & wl & cm & Hfb & Hwl & _ & -> & _).
  assert (H1 : List.NoDup
                 (fst (fold_left (userId_step (clock_after 1 w) discordTag)
                         (keys_where_userId userId (keys_collection (db w))) ([], [])))).
  { apply (pass_NoDup _ _ (userId_step_keys _ discordTag)). apply List.NoDup_nil. }
  assert (H2 : List.NoDup (fst acc2)).
  { destruct Hfb as [(_ & -> & _)|(_ & _ & -> & _)]; [exact H1|].
    do 2 apply (pass_NoDup _ _ (fallback_step_keys _ userId)). exact H1. }
  destruct Hwl as [(-> & _)|(wd & key & _ & _ & _ & Hnin & _ & -> & _)]; [exact H2|].
  apply NoDup_ListNoDup. apply (proj2 (NoDup_app (fst acc2) [key])). repeat split.
  - apply NoDup_ListNoDup. exact H2.
  - intros x Hx Hin. apply list_elem_of_In in Hx, Hin. destruct Hin as [<-|[]]. contradiction.
  - apply NoDup_singleton.
Qed.

Lemma refresh_keys_are_distinct_witness :
  List.NoDup ["VORAHUB-AAAAAA-111111-BBBBBB"%string].
Proof.
  apply (refresh_keys_are_distinct "1001" "bob" false whitelist_link_world _
           (snd (refreshUserKeys "1001" "bob" false whitelist_link_world))).
  apply run_resolved. vm_compute. reflexivity.
Defined.

Lemma refreshUserKeys_other_entries userId discordTag isBackground w other :
  other <> userId ->
  userKeyCache (snd (refreshUserKeys userId discordTag isBackground w)) !! other
  = userKeyCache w !! other.
Proof.
  intros Hne.
  pose proof (cache_safe_refreshUserKeys userId discordTag isBackground w) as Hsafe.
  destruct (refreshUserKeys userId discordTag isBackground w) as [[keys|e] w'] eqn:E;
    cbn [fst snd] in *.
  - apply refreshUserKeys_anatomy in E. cbv zeta in E.
    destruct E as (_ & _ & _ & _ & _ & _ & _ & _ & _ & _ & ->).
    apply lookup_insert_ne. congruence.
  - rewrite Hsafe. reflexivity.
Qed.

(** X12: a refresh, whatever its outcome, writes no cache entry but the
    one of its own identity, and touches neither the cooldowns nor the
    operation markers nor the background markers. *)
Theorem refresh_minds_its_own_cache_entry userId discordTag isBackground w :
  let w' := snd (refreshUserKeys userId discordTag isBackground w) in
  (forall other, other <> userId -> userKeyCache w' !! other = userKeyCache w !! other)
  /\ cooldowns w' = cooldowns w
  /\ activeOperations w' = activeOperations w
  /\ backgroundRefreshQueue w' = backgroundRefreshQueue w.
Proof.
  cbv zeta. split.
  - intros other Hne. apply refreshUserKeys_other_entries. exact Hne.
  - split; [|split].
    + apply (preserves_refreshUserKeys cooldowns); try reflexivity. intros ? ?; reflexivity.
    + apply (preserves_refreshUserKeys activeOperations); try reflexivity.
      intros ? ?; reflexivity.
    + apply refreshUserKeys_backgroundRefreshQueue.
Qed.

(** ** Reads served from the cache *)

Lemma refreshUserKeysBackground_held userId discordTag w :
  userId ∈ backgroundRefreshQueue w ->
  refreshUserKeysBackground userId discordTag w = (Resolved tt, w).
Proof.
  intros Hin. unfold refreshUserKeysBackground, complete, refreshUserKeysBackground_async.
  rewrite bool_decide_eq_true_2 by exact Hin. reflexivity.
Qed.

Lemma refreshUserKeysBackground_io userId discordTag w :
  (userId ∉ backgroundRefreshQueue w) ->
  io (snd (refreshUserKeysBackground userId discordTag w))
  = io (snd (refreshUserKeys userId discordTag true
               (with_backgroundRefreshQueue ({[userId]} ∪ backgroundRefreshQueue w) w))).
Proof.
  intros Hnin. unfold refreshUserKeysBackground, complete, refreshUserKeysBackground_async.
  rewrite bool_decide_eq_false_2 by exact Hnin.
  unfold try_finally, try_catch, bind, settle.
  destruct (refreshUserKeys userId discordTag true
              (with_backgroundRefreshQueue ({[userId]} ∪ backgroundRefreshQueue w) w))
    as [[keys|e] w1]; reflexivity.
Qed.

Lemma getUserActiveKeys_hit userId discordTag w cached :
  userKeyCache w !! userId = Some cached ->
  clock w < c_expires cached ->
  fst (getUserActiveKeys userId discordTag false w) = Resolved (c_keys cached)
  /\ (clock w - c_lastRefresh cached <= CACHE_SOFT_REFRESH ->
      snd (getUserActiveKeys userId discordTag false w) = w).
Proof.
  intros Hc Hlive. unfold getUserActiveKeys.
  cbv [bind userKeyCache_get Date_now]. rewrite Hc.
  assert ((c_expires cached >? clock w) = true) as -> by (apply Z.gtb_lt; lia).
  destruct (truthy (JsNumber (c_lastRefresh cached))
            && (clock w - c_lastRefresh cached >? CACHE_SOFT_REFRESH)) eqn:Esoft.
  - unfold detach.
    destruct (refreshUserKeysBackground userId discordTag w) as [r w1].
    cbv [ret]. cbn [fst snd]. split; [reflexivity|]. intros Hwin. exfalso.
    apply andb_true_iff in Esoft. destruct Esoft as [_ Esoft].
    apply Z.gtb_lt in Esoft. lia.
  - cbv [ret]. cbn [fst snd]. split; reflexivity.
Qed.

(** X13: a call without [forceRefresh] that finds a cache entry which is
    not hard-expired returns the cached keys whatever the store does,
    also when the entry is due for a soft refresh and the refresh fails;
    within the soft-refresh window, or when a background refresh of the
    identity is already in flight, the call changes nothing and sends
    nothing. *)
Theorem cache_hit_never_fails userId discordTag w cached :
  userKeyCache w !! userId = Some cached ->
  clock w < c_expires cached ->
  let run := getUserActiveKeys userId discordTag false w in
  fst run = Resolved (c_keys cached)
  /\ (clock w - c_lastRefresh cached <= CACHE_SOFT_REFRESH
      \/ userId ∈ backgroundRefreshQueue w -> snd run = w)
  /\ (length (new_rounds w (snd run)) <= 4)%nat.
Proof.
  intros Hc Hlive. cbv zeta. unfold getUserActiveKeys.
  cbv [bind userKeyCache_get Date_now]. rewrite Hc.
  assert ((c_expires cached >? clock w) = true) as -> by (apply Z.gtb_lt; lia).
  destruct (truthy (JsNumber (c_lastRefresh cached))
            && (clock w - c_lastRefresh cached >? CACHE_SOFT_REFRESH)) eqn:Esoft.
  - unfold detach.
    pose proof (refreshUserKeysBackground_held userId discordTag w) as Hheld.
    pose proof (refreshUserKeysBackground_io userId discordTag w) as Hfree.
    destruct (refreshUserKeysBackground userId discordTag w) as [r w1] eqn:Ebg.
    cbv [ret]. cbn [fst snd] in *. split; [reflexivity|]. split.
    + intros [Hwin|Hin]; [|exact (f_equal snd (Hheld Hin))]. exfalso.
      apply andb_true_iff in Esoft. destruct Esoft as [_ Esoft].
      apply Z.gtb_lt in Esoft. lia.
    + destruct (decide (userId ∈ backgroundRefreshQueue w)) as [Hin|Hnin].
      * pose proof (f_equal snd (Hheld Hin)) as Hw. cbn [snd] in Hw.
        rewrite Hw, new_rounds_refl. cbn [length]. lia.
      * destruct (traffic_refreshUserKeys userId discordTag true
                    (with_backgroundRefreshQueue ({[userId]} ∪ backgroundRefreshQueue w) w))
          as (rounds & Hio & Hlen & _).
        unfold new_rounds. rewrite (Hfree Hnin), Hio.
        change (io (with_backgroundRefreshQueue ({[userId]} ∪ backgroundRefreshQueue w) w))
          with (io w).
        rewrite drop_app_length. exact Hlen.
  - cbv [ret]. cbn [fst snd]. split; [reflexivity|]. split; [reflexivity|].
    rewrite new_rounds_refl. cbn [length]. lia.
Qed.

Lemma cache_hit_never_fails_witness :
  fst (getUserActiveKeys "1001" "bob" false soft_stale_outage_world)
  = Resolved ["VORAHUB-AAAAAA-111111-BBBBBB"%string].
Proof.
  refine (proj1 (cache_hit_never_fails "1001" "bob" soft_stale_outage_world
                   {| c_keys := ["VORAHUB-AAAAAA-111111-BBBBBB"%string];
                      c_expires := 1700000100000;
                      c_lastRefresh := 1699999800000 |} _ _)).
  - vm_compute. reflexivity.
  - vm_compute. reflexivity.
Defined.

(** X14: a refresh that returns fills the cache with exactly what it
    returned, valid for [CACHE_DURATION]: a call without [forceRefresh]
    within that time returns the same keys, and within
    [CACHE_SOFT_REFRESH] it does so without any request to the store. *)
Theorem refresh_then_read_from_cache userId discordTag isBackground w keys w' d :
  refreshUserKeys userId discordTag isBackground w = (Resolved keys, w') ->
  0 <= d < CACHE_DURATION ->
  userKeyCache w' !! userId
  = Some {| c_keys := keys; c_expires := clock w' + CACHE_DURATION; c_lastRefresh := clock w' |}
  /\ fst (getUserActiveKeys userId discordTag false (later d w')) = Resolved keys
  /\ (d <= CACHE_SOFT_REFRESH ->
      getUserActiveKeys userId discordTag false (later d w') = (Resolved keys, later d w')).
Proof.
  intros Hrun Hd.
  apply refreshUserKeys_anatomy in Hrun. cbv zeta in Hrun.
  destruct Hrun as (_ & _ & _ & _ & _ & _ & _ & _ & _ & _ & Hcache).
  assert (Hentry : userKeyCache (later d w') !! userId
                   = Some {| c_keys := keys; c_expires := clock w' + CACHE_DURATION;
                             c_lastRefresh := clock w' |}).
  { cbn [later userKeyCache with_clock]. rewrite Hcache. apply lookup_insert_eq. }
  split; [rewrite Hcache; apply lookup_insert_eq|].
  destruct (getUserActiveKeys_hit userId discordTag (later d w') _ Hentry) as (Hkeys & Hsame).
  { cbn [later clock with_clock c_expires]. lia. }
  cbn [c_keys c_lastRefresh] in *.
  split; [exact Hkeys|]. intros Hsoft.
  rewrite (surjective_pairing (getUserActiveKeys userId discordTag false (later d w'))).
  rewrite Hkeys, Hsame; [reflexivity|]. cbn [later clock with_clock]. lia.
Qed.

Lemma refresh_then_read_from_cache_witness :
  fst (getUserActiveKeys "1001" "bob" false
         (later 45000 (snd (refreshUserKeys "1001" "bob" false labelled_world))))
  = Resolved ["VORAHUB-AAAAAA-111111-BBBBBB"%string].
Proof.
  refine (proj1 (proj2 (refresh_then_read_from_cache "1001" "bob" false labelled_world
                          ["VORAHUB-AAAAAA-111111-BBBBBB"%string]
                          (snd (refreshUserKeys "1001" "bob" false labelled_world))
                          45000 _ _))).
  - apply run_resolved. vm_compute. reflexivity.
  - vm_compute. split; [discriminate | reflexivity].
Defined.

(** ** invalidateUserCache *)

(** X15: [invalidateUserCache] never throws and never leaves the old
    entry behind: when the store accepted every request of its refresh
    the identity has a fresh entry, valid for [CACHE_DURATION] from the
    end of the refresh; otherwise it has no entry at all. Other
    identities keep theirs. *)
Theorem invalidate_replaces_or_clears userId discordTag w :
  let w' := snd (invalidateUserCache userId discordTag w) in
  fst (invalidateUserCache userId discordTag w) = Resolved tt
  /\ (if all_accepted (new_rounds w w')
      then exists keys,
          userKeyCache w' !! userId
          = Some {| c_keys := keys; c_expires := clock w' + CACHE_DURATION;
                    c_lastRefresh := clock w' |}
      else userKeyCache w' !! userId = None)
  /\ (forall other, other <> userId -> userKeyCache w' !! other = userKeyCache w !! other).
Proof.
  cbv zeta. unfold invalidateUserCache. cbv [bind console_log try_catch].
  set (w0 := with_console (console (with_userKeyCache (delete userId (userKeyCache w)) w)
                             ++ [LogCacheInvalidated discordTag])
               (with_userKeyCache (delete userId (userKeyCache w)) w)).
  assert (Hio0 : io w0 = io w) by reflexivity.
  assert (Hcache0 : userKeyCache w0 = delete userId (userKeyCache w)) by reflexivity.
  destruct (traced_refreshUserKeys userId discordTag false w0) as (rounds & Hio & Hout).
  pose proof (cache_safe_refreshUserKeys userId discordTag false w0) as Hsafe.
  pose proof (refreshUserKeys_other_entries userId discordTag false w0) as Hown.
  destruct (refreshUserKeys userId discordTag false w0) as [[keys|e] w1] eqn:E;
    cbn [fst snd] in *.
  - cbv [ret]. cbn [fst snd]. split; [reflexivity|].
    unfold new_rounds. rewrite Hio, <- Hio0, drop_app_length, Hout.
    split.
    + apply refreshUserKeys_anatomy in E. cbv zeta in E.
      destruct E as (_ & _ & _ & _ & _ & _ & _ & _ & _ & _ & Hcache).
      exists keys. rewrite Hcache. apply lookup_insert_eq.
    + intros other Hne. rewrite (Hown other Hne), Hcache0. apply lookup_delete_ne. congruence.
  - cbn [fst snd userKeyCache with_console]. split; [reflexivity|].
    unfold new_rounds. cbn [io with_console]. rewrite Hio, <- Hio0, drop_app_length.
    destruct Hout as (rq & _ & Hin).
    destruct (all_accepted rounds) eqn:Eall;
      [exfalso; exact (all_accepted_no_failure _ _ Eall Hin)|].
    split.
    + rewrite Hsafe, Hcache0. apply lookup_delete_eq.
    + intros other Hne. rewrite (Hown other Hne), Hcache0. apply lookup_delete_ne. congruence.
Qed.

Example invalidate_during_outage :
  fst (invalidateUserCache "1001" "bob" outage_world) = Resolved tt
  /\ userKeyCache (snd (invalidateUserCache "1001" "bob" outage_world)) !! "1001" = None.
Proof. split; vm_compute; reflexivity. Qed.

(** ** What a refresh writes *)

Lemma writes_of_app (r1 r2 : list Round) :
  writes_of (r1 ++ r2) = writes_of r1 ++ writes_of r2.
Proof. unfold writes_of. rewrite concat_app, flat_map_app. reflexivity. Qed.

Lemma writes_of_reads (round : Round) :
  Forall (fun sent : Request * bool =>
            match fst sent with BatchCommit _ => False | _ => True end) round ->
  writes_of [round] = [].
Proof.
  unfold writes_of. cbn [concat]. rewrite app_nil_r.
  induction 1 as [|[rq ok] rest Hrq _ IH]; [reflexivity|].
  cbn [flat_map fst] in *. rewrite IH. destruct rq; try reflexivity. contradiction.
Qed.

Lemma writes_of_commits (round : Round) (batches : list (list WriteOp)) :
  map fst round = map BatchCommit batches -> writes_of [round] = concat batches.
Proof.
  unfold writes_of. cbn [concat]. rewrite app_nil_r.
  revert batches. induction round as [|[rq ok] rest IH]; intros [|b batches] H;
    try discriminate H; [reflexivity|].
  cbn [map fst] in H. inversion H; subst. cbn [flat_map fst concat].
  rewrite (IH batches); [reflexivity | assumption].
Qed.

Lemma writes_of_In (rounds : list Round) (ops : list WriteOp) (ok : bool) (op : WriteOp) :
  In (BatchCommit ops, ok) (concat rounds) -> In op ops -> In op (writes_of rounds).
Proof.
  intros Hin Hop. unfold writes_of. apply in_flat_map.
  exists (BatchCommit ops, ok). split; [exact Hin | exact Hop].
Qed.

Lemma triple_bind_l {A B} Pre (m : Task A) (k : A -> Task B) (W : list WriteOp -> Prop)
    Mid Post Fail :
  W [] ->
  triple Pre m no_writes Mid Fail ->
  (forall a, triple (Mid a) (k a) W Post Fail) ->
  triple Pre (bind m k) W Post Fail.
Proof.
  intros HW Hm Hk w Hpre. unfold bind.
  destruct (Hm w Hpre) as (r1 & Hio1 & HW1 & Hpost1). unfold no_writes in HW1.
  destruct (m w) as [[a|e] w1]; cbn [fst snd] in *.
  - destruct (Hk a w1 Hpost1) as (r2 & Hio2 & HW2 & Hpost2).
    exists (r1 ++ r2). split; [rewrite Hio2, Hio1, app_assoc; reflexivity|].
    split; [|exact Hpost2]. rewrite writes_of_app, HW1. exact HW2.
  - exists r1. rewrite HW1. auto.
Qed.

Lemma triple_bind_r {A B} Pre (m : Task A) (k : A -> Task B) (W : list WriteOp -> Prop)
    Mid Post Fail :
  triple Pre m W Mid Fail ->
  (forall a, triple (Mid a) (k a) no_writes Post Fail) ->
  triple Pre (bind m k) W Post Fail.
Proof.
  intros Hm Hk w Hpre. unfold bind.
  destruct (Hm w Hpre) as (r1 & Hio1 & HW1 & Hpost1).
  destruct (m w) as [[a|e] w1]; cbn [fst snd] in *.
  - destruct (Hk a w1 Hpost1) as (r2 & Hio2 & HW2 & Hpost2). unfold no_writes in HW2.
    exists (r1 ++ r2). split; [rewrite Hio2, Hio1, app_assoc; reflexivity|].
    split; [|exact Hpost2]. rewrite writes_of_app, HW2, app_nil_r. exact HW1.
  - exists r1. auto.
Qed.

Lemma triple_quiet {A} (Pre : World -> Prop) (m : Task A)
    (Post : A -> World -> Prop) Fail :
  (forall w, Pre w ->
     exists a w', m w = (Resolved a, w') /\ io w' = io w /\ Post a w') ->
  triple Pre m no_writes Post Fail.
Proof.
  intros H w Hpre. destruct (H w Hpre) as (a & w' & -> & Hio & Hpost).
  exists []. cbn [fst snd]. rewrite Hio, app_nil_r.
  split; [reflexivity|]. split; [reflexivity | exact Hpost].
Qed.

Lemma triple_try_catch_rethrow {A} Pre (body : Task A) W Post (Fail : World -> Prop)
    (l : Error -> LogLine) :
  (forall w c, Fail w -> Fail (with_console c w)) ->
  triple Pre body W Post Fail ->
  triple Pre (try_catch body (fun error => console_log (l error) ;; throw error)) W Post Fail.
Proof.
  intros Hc Hb w Hpre. unfold try_catch.
  destruct (Hb w Hpre) as (r & Hio & HP & Hpost).
  destruct (body w) as [[a|e] w1]; cbn [fst snd] in *; exists r.
  - auto.
  - split; [exact Hio|]. split; [exact HP|]. apply Hc. exact Hpost.
Qed.

Lemma keys_doc_Some_In (id : string) (d : KeyData) (docs : list Doc) :
  keys_doc id docs = Some d -> In (id, d) docs.
Proof.
  induction docs as [|[i x] rest IH]; cbn [keys_doc]; [discriminate|].
  destruct (String.eqb_spec i id) as [->|Hne].
  - intros H. inversion H; subst. left. reflexivity.
  - intros H. right. exact (IH H).
Qed.

Lemma In_keys_doc (id : string) (d : KeyData) (docs : list Doc) :
  List.NoDup (map fst docs) -> In (id, d) docs -> keys_doc id docs = Some d.
Proof.
  intros Hnd Hin.
  destruct (keys_doc id docs) as [d'|] eqn:E.
  - apply keys_doc_Some_In in E.
    pose proof (NoDup_fst_eq docs (id, d) (id, d') Hnd Hin E eq_refl) as Heq.
    inversion Heq; subst. reflexivity.
  - exfalso. apply (keys_doc_In docs (id, d) Hin). exact E.
Qed.

Section Repairs.
Variables userId discordTag : string.
Variable s0 : Store.

Let docs := keys_collection s0.
Let repair := repair_write userId discordTag s0.
Let update := fun op : WriteOp => repair op /\ is_creation op = false.
Let W := repairs userId discordTag s0.
Let Fail := fun w : World => repaired_from userId discordTag s0 (db w).

Lemma updates_are_repairs (ops : list WriteOp) : Forall update ops -> W ops.
Proof.
  intros H. split.
  - eapply Forall_impl; [exact H|]. intros op [Hop _]. exact Hop.
  - induction H as [|op rest [_ Hop] _ IH]; [cbn; lia|].
    cbn [List.filter]. rewrite Hop. lia.
Qed.

Lemma creation_after_updates (ops : list WriteOp) (op : WriteOp) :
  Forall update ops -> repair op -> W (ops ++ [op]).
Proof.
  intros H Hop. destruct (updates_are_repairs ops H) as [Hall _]. split.
  - apply Forall_app. split; [exact Hall|]. constructor; [exact Hop | constructor].
  - rewrite List.filter_app, length_app.
    assert (Hnone : List.filter is_creation ops = []).
    { clear Hall. induction H as [|x rest [_ Hx] _ IH]; [reflexivity|].
      cbn [List.filter]. rewrite Hx. exact IH. }
    rewrite Hnone. cbn [length List.filter]. destruct (is_creation op); cbn [length]; lia.
Qed.

Lemma push_update_updates keyId updates ops :
  Forall update ops ->
  ((0 < Object_keys_length updates)%nat -> repair (BatchUpdateKey keyId updates)) ->
  Forall update (push_update keyId updates ops).
Proof.
  intros Hops Hop. unfold push_update.
  destruct (Nat.ltb_spec 0 (Object_keys_length updates)) as [Hpos|_]; [|exact Hops].
  apply Forall_app. split; [exact Hops|].
  constructor; [split; [exact (Hop Hpos) | reflexivity] | constructor].
Qed.

Lemma userId_step_updates now (acc : Acc) (doc : Doc) :
  In doc docs -> Forall update (snd acc) ->
  Forall update (snd (userId_step now discordTag acc doc)).
Proof.
  intros Hin Hops. destruct acc as [keys ops], doc as [keyId data].
  unfold userId_step. cbn [fst snd] in *.
  destruct (negb (k_whitelisted data) && negb (truthy (isKeyExpired now (Some data)))).
  - cbn [snd]. apply push_update_updates; [exact Hops|].
    destruct (negb (truthy_string (k_usedByDiscord data))) eqn:E.
    + intros Hpos. split; [exact Hpos|]. exists data. split; [exact Hin|].
      cbn [u_userId u_usedByDiscord u_whitelisted]. unfold fills_blank. rewrite E. auto.
    + cbn. lia.
  - destruct (k_whitelisted data || is_null (k_expiresAt data)); exact Hops.
Qed.

Lemma fallback_step_updates now (acc : Acc) (doc : Doc) :
  In doc docs -> Forall update (snd acc) ->
  Forall update (snd (fallback_step now userId acc doc)).
Proof.
  intros Hin Hops. destruct acc as [keys ops], doc as [keyId data].
  unfold fallback_step. cbn [fst snd] in *.
  destruct (Set_has keyId keys); [exact Hops|].
  destruct (negb (truthy (isKeyExpired now (Some data)))); [|exact Hops].
  cbn [snd]. apply push_update_updates; [exact Hops|].
  destruct (negb (truthy_string (k_userId data))) eqn:E.
  - intros Hpos. split; [exact Hpos|]. exists data. split; [exact Hin|].
    cbn [u_userId u_usedByDiscord u_whitelisted]. unfold fills_blank. rewrite E. auto.
  - cbn. lia.
Qed.

Lemma pass_updates (step : Acc -> Doc -> Acc) (snapshot : list Doc) :
  (forall acc doc, In doc docs -> Forall update (snd acc) -> Forall update (snd (step acc doc))) ->
  (forall doc, In doc snapshot -> In doc docs) ->
  forall acc, Forall update (snd acc) -> Forall update (snd (fold_left step snapshot acc)).
Proof.
  intros Hstep. induction snapshot as [|d rest IH]; intros Hsub acc Hacc; cbn [fold_left];
    [exact Hacc|].
  apply IH; [intros doc H; apply Hsub; right; exact H|].
  apply Hstep; [apply Hsub; left; reflexivity | exact Hacc].
Qed.

Lemma whitelist_updates_repair key keyData :
  In (key, keyData) docs ->
  (0 < Object_keys_length (whitelist_updates userId discordTag keyData))%nat ->
  repair (BatchUpdateKey key (whitelist_updates userId discordTag keyData)).
Proof.
  intros Hin Hpos. split; [exact Hpos|]. exists keyData. split; [exact Hin|].
  unfold whitelist_updates, fills_blank. cbn [u_userId u_usedByDiscord u_whitelisted].
  destruct (negb (truthy_string (k_userId keyData))),
    (negb (truthy_string (k_usedByDiscord keyData))), (negb (k_whitelisted keyData)); auto.
Qed.

Lemma apply_batch_repaired now (b : list WriteOp) :
  Forall repair b ->
  forall s s', repaired_from userId discordTag s0 s -> apply_batch now b s = Some s' ->
               repaired_from userId discordTag s0 s'.
Proof.
  induction 1 as [|op rest Hop _ IH]; intros s s' Hs H; cbn [apply_batch] in H.
  - inversion H; subst. exact Hs.
  - destruct (apply_op now op s) as [s1|] eqn:E; [|discriminate].
    apply (IH s1 s'); [|exact H]. exact (repaired_step _ _ _ s now op s1 Hs Hop E).
Qed.

Lemma commit_batches_repaired (w : World) (batches : list (list WriteOp)) :
  Forall (Forall repair) batches ->
  forall k s round s' failure,
    repaired_from userId discordTag s0 s ->
    commit_batches w k batches s = (round, s', failure) ->
    repaired_from userId discordTag s0 s'.
Proof.
  induction 1 as [|b rest Hb _ IH]; intros k s round s' failure Hs H;
    cbn [commit_batches] in H.
  - inversion H; subst. exact Hs.
  - destruct (commit_batches w (S k) rest _) as [[round1 s1] failure1] eqn:E.
    inversion H; subst. eapply IH; [|exact E].
    destruct (accepted w k); [|exact Hs].
    destruct (apply_batch (clock w) b s) as [sb|] eqn:Eb; [|exact Hs].
    exact (apply_batch_repaired _ _ Hb _ _ Hs Eb).
Qed.

Lemma make_batches_repairs (ops : list WriteOp) :
  Forall repair ops -> Forall (Forall repair) (make_batches ops).
Proof.
  intros Hops. rewrite <- (make_batches_concat ops) in Hops.
  induction (make_batches ops) as [|b rest IH]; [constructor|].
  cbn [concat] in Hops. apply Forall_app in Hops. destruct Hops as [Hb Hrest].
  constructor; [exact Hb | exact (IH Hrest)].
Qed.

Lemma triple_safeBatchCommit (ops : list WriteOp) :
  W ops ->
  triple (fun w => db w = s0) (safeBatchCommit ops) W (fun _ w => Fail w) Fail.
Proof.
  intros Hops w Hdb. destruct ops as [|op ops].
  { exists []. cbn. rewrite app_nil_r. split; [reflexivity|].
    split; [exact Hops|]. unfold Fail. rewrite Hdb. apply repaired_refl. }
  destruct (safeBatchCommit_run (op :: ops) w) as (round & s & failure & Hcb & Hreq & Hrun);
    [discriminate|].
  pose proof (make_batches_repairs _ (proj1 Hops)) as Hall.
  assert (Hs : repaired_from userId discordTag s0 s).
  { eapply (commit_batches_repaired w _ Hall); [|exact Hcb]. rewrite Hdb. apply repaired_refl. }
  exists [round].
  assert (HW : W (writes_of [round])).
  { rewrite (writes_of_commits _ _ Hreq), make_batches_concat. exact Hops. }
  destruct failure as [e|]; [destruct Hrun as [-> _] | destruct Hrun as (-> & _)];
    cbn [fst snd]; (split; [reflexivity|]); (split; [exact HW | exact Hs]).
Qed.

(** The refresh as a whole: the batches it sends hold repairs only, with
    at most one creation, and the store it leaves is reached from the one
    it found by repairs that were accepted. *)
Lemma triple_refreshUserKeys isBackground :
  triple (fun w => db w = s0) (refreshUserKeys userId discordTag isBackground) W
    (fun _ w => Fail w) Fail.
Proof.
  assert (HW0 : W []) by (apply updates_are_repairs; constructor).
  assert (Hfailed : forall (w : World) (r : Round), db w = s0 -> Fail (end_round r w)).
  { intros w r Hdb. unfold Fail. cbn [db end_round with_clock with_io]. rewrite Hdb.
    apply repaired_refl. }
  unfold refreshUserKeys.
  apply (triple_bind_l _ _ _ _ (fun _ w => db w = s0)); [exact HW0 | |].
  { apply triple_quiet. intros w Hdb. exists (clock w), w. auto. }
  intros startTime.
  apply triple_try_catch_rethrow; [intros w c H; exact H|].
  apply (triple_bind_l _ _ _ _
           (fun snapshots w =>
              db w = s0
              /\ (forall doc, In doc (fst snapshots) -> In doc docs)
              /\ snd snapshots = whitelist_collection s0 !! userId)); [exact HW0 | |].
  { intros w Hdb. unfold Promise_all2.
    exists [[(KeysWhereUserId userId, accepted w 0); (WhitelistDoc userId, accepted w 1)]].
    split; [destruct (accepted w 0), (accepted w 1); reflexivity|].
    split; [apply writes_of_reads; repeat constructor|].
    destruct (accepted w 0), (accepted w 1); cbn [fst snd]; try (apply Hfailed; exact Hdb).
    split; [exact Hdb|]. split.
    - intros doc Hin. cbn [answer db_keys_where_userId] in Hin.
      rewrite Hdb in Hin. unfold keys_where_userId in Hin. apply filter_In in Hin. tauto.
    - cbn [answer db_whitelist_doc]. rewrite Hdb. reflexivity. }
  intros snapshots.
  apply (triple_bind_l _ _ _ _
           (fun _ w =>
              db w = s0
              /\ (forall doc, In doc (fst snapshots) -> In doc docs)
              /\ snd snapshots = whitelist_collection s0 !! userId)); [exact HW0 | |].
  { apply triple_quiet. intros w H. exists (clock w), w. auto. }
  intros now.
  apply (triple_bind_l _ _ _ _
           (fun acc w =>
              db w = s0 /\ Forall update (snd acc)
              /\ snd snapshots = whitelist_collection s0 !! userId)); [exact HW0 | |].
  { intros w (Hdb & Hsub & Hwl).
    assert (Hacc1 : Forall update
                      (snd (fold_left (userId_step now discordTag) (fst snapshots) ([], [])))).
    { apply pass_updates; [intros; apply userId_step_updates; assumption | exact Hsub
                           | constructor]. }
    unfold process_fallback.
    destruct ((length (fst _) =? 0)%nat && negb isBackground).
    2:{ exists []. cbn [ret fst snd]. rewrite app_nil_r. split; [reflexivity|].
        split; [reflexivity|]. auto. }
    unfold bind, Promise_all2.
    exists [[(KeysWhereUsedByDiscord discordTag 5, accepted w 0);
             (KeysWhereUsedByDiscord (username_of discordTag) 5, accepted w 1)]].
    split; [destruct (accepted w 0), (accepted w 1); reflexivity|].
    split; [apply writes_of_reads; repeat constructor|].
    destruct (accepted w 0), (accepted w 1); cbn [fst snd Date_now ret];
      try (apply Hfailed; exact Hdb).
    split; [exact Hdb|]. split; [|exact Hwl]. cbn [fold_left].
    assert (Hsnap : forall label doc,
               In doc (keys_where_usedByDiscord label 5 (keys_collection (db w))) ->
               In doc docs).
    { intros label doc Hin. rewrite Hdb in Hin. unfold keys_where_usedByDiscord in Hin.
      apply In_firstn in Hin. apply filter_In in Hin. tauto. }
    apply pass_updates; [intros; apply fallback_step_updates; assumption | apply Hsnap|].
    apply pass_updates; [intros; apply fallback_step_updates; assumption | apply Hsnap|].
    exact Hacc1. }
  intros acc2.
  apply (triple_bind_l _ _ _ _ (fun acc w => db w = s0 /\ W (snd acc))); [exact HW0 | |].
  { intros w (Hdb & Hacc & Hwl). unfold process_whitelist. destruct acc2 as [keys ops].
    cbn [snd] in Hacc.
    assert (Hsame : exists rounds : list Round,
               io w = io w ++ rounds
               /\ no_writes (writes_of rounds)
               /\ db w = s0 /\ W ops).
    { exists []. rewrite app_nil_r. split; [reflexivity|].
      split; [reflexivity|]. split; [exact Hdb | apply updates_are_repairs; exact Hacc]. }
    destruct (snd snapshots) as [whitelistData|]; [|exact Hsame].
    destruct (wl_key whitelistData) as [key|] eqn:Ekey; [|exact Hsame].
    destruct (truthy_string (Some key) && negb (Set_has key keys)) eqn:Egate; [|exact Hsame].
    apply andb_true_iff in Egate. destruct Egate as [Hkey _].
    cbn [truthy_string] in Hkey. apply negb_true_iff, String.eqb_neq in Hkey.
    unfold bind, get. exists [[(KeysDoc key, accepted w 0)]].
    split; [destruct (accepted w 0); [destruct (answer _ _)|]; reflexivity|].
    split; [apply writes_of_reads; repeat constructor|].
    destruct (accepted w 0); cbn [fst snd]; [|apply Hfailed; exact Hdb].
    cbn [answer db_keys_doc]. rewrite Hdb. fold docs.
    destruct (keys_doc key docs) as [keyData|] eqn:Edoc; cbn [ret fst snd];
      (split; [exact Hdb|]).
    - apply updates_are_repairs. apply push_update_updates; [exact Hacc|].
      apply whitelist_updates_repair. apply keys_doc_Some_In. exact Edoc.
    - apply creation_after_updates; [exact Hacc|].
      split; [exact Hkey|]. split; [|split; [exact Edoc | reflexivity]].
      exists whitelistData. split; [symmetry; exact Hwl | exact Ekey]. }
  intros acc3.
  apply (triple_bind_r _ _ _ _ (fun _ w => Fail w)).
  { intros w [Hdb Hacc]. destruct (0 <? length (snd acc3))%nat.
    - apply (triple_bind_r (fun w => db w = s0) _ _ _ (fun _ w => Fail w));
        [apply triple_safeBatchCommit; exact Hacc | | exact Hdb].
      intros n. apply triple_quiet. intros w1 H1. exists tt, w1. auto.
    - exists []. cbn [ret fst snd]. rewrite app_nil_r. split; [reflexivity|].
      split; [exact HW0|]. unfold Fail. rewrite Hdb. apply repaired_refl. }
  intros _.
  apply (triple_bind_l _ _ _ _ (fun _ w => Fail w)); [reflexivity | |].
  { apply triple_quiet. intros w H. exists (clock w), w. auto. }
  intros finished.
  apply (triple_bind_l _ _ _ _ (fun _ w => Fail w)); [reflexivity | |].
  { apply triple_quiet. intros w H. eexists tt, _. split; [reflexivity|]. split; [reflexivity|].
    exact H. }
  intros _.
  apply (triple_bind_l _ _ _ _ (fun _ w => Fail w)); [reflexivity | |].
  { apply triple_quiet. intros w H. eexists tt, _. split; [reflexivity|]. split; [reflexivity|].
    exact H. }
  intros _. apply triple_quiet. intros w H. eexists _, w. auto.
Qed.
End Repairs.

Lemma keys_doc_keys_set_ne (k id : string) (d : KeyData) (docs : list Doc) :
  k <> id -> keys_doc k (keys_set id d docs) = keys_doc k docs.
Proof.
  intros Hne. induction docs as [|[i x] rest IH]; cbn [keys_set keys_doc].
  - destruct (String.eqb_spec id k); [congruence | reflexivity].
  - destruct (String.eqb_spec i id) as [->|Hi].
    + cbn [keys_doc]. destruct (String.eqb_spec id k); [congruence | reflexivity].
    + destruct (String.ltb id i); cbn [keys_doc].
      * destruct (String.eqb_spec id k); [congruence | reflexivity].
      * rewrite IH. reflexivity.
Qed.

Lemma keys_doc_keys_update (k id : string) (u : Updates) (docs docs' : list Doc) :
  keys_update id u docs = Some docs' ->
  keys_doc k docs'
  = if String.eqb id k then option_map (apply_updates u) (keys_doc k docs)
    else keys_doc k docs.
Proof.
  revert docs'. induction docs as [|[i x] rest IH]; intros docs' H; cbn [keys_update] in H;
    [discriminate|].
  destruct (String.eqb_spec i id) as [->|Hi].
  - inversion H; subst. cbn [keys_doc].
    destruct (String.eqb_spec id k); reflexivity.
  - destruct (keys_update id u rest) as [rest'|]; [|discriminate].
    inversion H; subst. cbn [keys_doc]. rewrite (IH rest' eq_refl).
    destruct (String.eqb_spec i k) as [->|Hk]; [|reflexivity].
    destruct (String.eqb_spec id k); [congruence | reflexivity].
Qed.

Lemma kept_refl (d : KeyData) : kept d d.
Proof. unfold kept. repeat split; auto. Qed.

Lemma kept_apply_updates (userId discordTag : string) (d di : KeyData) (u : Updates) :
  kept d di ->
  fills_blank (u_userId u) userId (negb (truthy_string (k_userId d))) ->
  fills_blank (u_usedByDiscord u) discordTag (negb (truthy_string (k_usedByDiscord d))) ->
  fills_blank (u_whitelisted u) true (negb (k_whitelisted d)) ->
  kept d (apply_updates u di).
Proof.
  intros (H1 & H2 & H3 & H4 & H5 & H6 & H7 & Hu & Hl & Hw) Fu Fl Fw.
  unfold kept. cbn [apply_updates k_expiresAt k_hwid k_hwidLimit k_used k_alreadyRedeem
                      k_usedAt k_createdAt k_userId k_usedByDiscord k_whitelisted].
  repeat (split; [assumption|]). split; [|split].
  - intros Ht. destruct Fu as [->|[_ Hb]]; [auto|]. rewrite Ht in Hb. discriminate.
  - intros Ht. destruct Fl as [->|[_ Hb]]; [auto|]. rewrite Ht in Hb. discriminate.
  - intros Ht. destruct Fw as [->|[-> _]]; [auto | reflexivity].
Qed.

(** Repairs keep every record of the store they start from, with its
    terms, its holder and its label, and touch no other collection. *)
Lemma repaired_from_kept (userId discordTag : string) (s0 s : Store) :
  List.NoDup (map fst (keys_collection s0)) ->
  repaired_from userId discordTag s0 s ->
  whitelist_collection s = whitelist_collection s0
  /\ generated_keys_collection s = generated_keys_collection s0
  /\ blacklist_collection s = blacklist_collection s0
  /\ forall k d, keys_doc k (keys_collection s0) = Some d ->
                 exists d', keys_doc k (keys_collection s) = Some d' /\ kept d d'.
Proof.
  intros Hnd Hrep. induction Hrep as [|s now op s' _ IH Hop Happ].
  - repeat (split; [reflexivity|]). intros k d H. exists d. split; [exact H | apply kept_refl].
  - destruct IH as (Hwl & Hgen & Hbl & Hdocs).
    destruct op as [id data|id u|id]; cbn [apply_op repair_write] in *.
    + inversion Happ; subst.
      cbn [with_keys whitelist_collection generated_keys_collection blacklist_collection
             keys_collection].
      repeat (split; [assumption|]). intros k d Hk.
      destruct Hop as (_ & _ & Hnone & _).
      rewrite keys_doc_keys_set_ne by (intros ->; congruence). exact (Hdocs k d Hk).
    + destruct (keys_update id u (keys_collection s)) as [docs'|] eqn:E; [|discriminate].
      inversion Happ; subst.
      cbn [with_keys whitelist_collection generated_keys_collection blacklist_collection
             keys_collection].
      repeat (split; [assumption|]). intros k d Hk.
      destruct (Hdocs k d Hk) as (di & Hdi & Hkept).
      rewrite (keys_doc_keys_update k id u _ _ E), Hdi.
      destruct (String.eqb_spec id k) as [->|Hne]; [|exists di; auto].
      cbn [option_map]. eexists. split; [reflexivity|].
      destruct Hop as (_ & data & Hin & Fu & Fl & Fw).
      apply (In_keys_doc _ _ _ Hnd) in Hin. rewrite Hk in Hin. inversion Hin; subst.
      exact (kept_apply_updates userId discordTag _ _ _ Hkept Fu Fl Fw).
    + contradiction.
Qed.

(** X16: whatever its outcome, a refresh writes nothing but repairs of
    the store it read. Every write of every batch it sends is an update
    that assigns at least one field and only fields the record did not
    have ([userId] to the identity, [usedByDiscord] to its tag,
    [whitelisted] to [true]), or the creation of the record of the key
    that the whitelist entry of the identity links, when that key is not
    empty and has no record; there is at most one creation in all, and no
    deletion. *)
Theorem refresh_only_fills_blanks userId discordTag isBackground w :
  let rounds := new_rounds w (snd (refreshUserKeys userId discordTag isBackground w)) in
  Forall (repair_write userId discordTag (db w)) (writes_of rounds)
  /\ (length (List.filter is_creation (writes_of rounds)) <= 1)%nat
  /\ forall ops ok,
      In (BatchCommit ops, ok) (concat rounds) ->
      Forall (repair_write userId discordTag (db w)) ops.
Proof.
  cbv zeta.
  destruct (triple_refreshUserKeys userId discordTag (db w) isBackground w eq_refl)
    as (rounds & Hio & [Hall Hone] & _).
  rewrite (new_rounds_app _ _ _ Hio).
  split; [exact Hall|]. split; [exact Hone|].
  intros ops ok Hin. apply Forall_forall. intros op Hop. apply list_elem_of_In in Hop.
  rewrite Forall_forall in Hall. apply Hall. apply list_elem_of_In.
  exact (writes_of_In _ _ _ _ Hin Hop).
Qed.

(** The write of a refresh that meets a record carrying the alias and no
    holder, and the writes of one that meets a whitelist entry whose key
    has no record. *)
Example refresh_writes_of_two_processes :
  writes_of (new_rounds legacy_world (snd (refreshUserKeys "1001" "bob" false legacy_world)))
  = [BatchUpdateKey "VORAHUB-EEEEEE-333333-FFFFFF"
       {| u_userId := Some "1001"%string; u_usedByDiscord := None; u_whitelisted := None |}]
  /\ writes_of (new_rounds dangling_whitelist_world
                  (snd (refreshUserKeys "1001" "bob" false dangling_whitelist_world)))
     = [BatchSetKey "VORAHUB-AAAAAA-111111-BBBBBB" (whitelist_key_data "1001" "bob")].
Proof. split; vm_compute; reflexivity. Qed.

(** X17: whatever its outcome, a refresh leaves the whitelist, the
    pending keys and the blacklist as they were, and keeps every record
    of [keys]: none is deleted, none changes its expiry, its device
    binding or its dates, a record that has a holder keeps it, a record
    that has a label keeps it, and a whitelisted record stays
    whitelisted. *)
Theorem refresh_keeps_records userId discordTag isBackground w :
  List.NoDup (map fst (keys_collection (db w))) ->
  let s' := db (snd (refreshUserKeys userId discordTag isBackground w)) in
  whitelist_collection s' = whitelist_collection (db w)
  /\ generated_keys_collection s' = generated_keys_collection (db w)
  /\ blacklist_collection s' = blacklist_collection (db w)
  /\ forall k d, keys_doc k (keys_collection (db w)) = Some d ->
                 exists d', keys_doc k (keys_collection s') = Some d' /\ kept d d'.
Proof.
  intros Hnd. cbv zeta.
  destruct (triple_refreshUserKeys userId discordTag (db w) isBackground w eq_refl)
    as (_ & _ & _ & Hpost).
  apply (repaired_from_kept userId discordTag); [exact Hnd|].
  destruct (fst (refreshUserKeys userId discordTag isBackground w)); exact Hpost.
Qed.

Lemma refresh_keeps_records_witness :
  exists d',
    keys_doc "VORAHUB-EEEEEE-333333-FFFFFF"
      (keys_collection (db (snd (refreshUserKeys "1001" "bob" false legacy_world)))) = Some d'
    /\ kept (snd legacy_doc) d'.
Proof.
  refine (proj2 (proj2 (proj2 (refresh_keeps_records "1001" "bob" false legacy_world _)))
            "VORAHUB-EEEEEE-333333-FFFFFF"%string (snd legacy_doc) _).
  - vm_compute. repeat constructor. intros [].
  - reflexivity.
Defined.

(** ** The redemption *)


Lemma checkCooldown_cases userId duration w :
  (exists remaining, fst (checkCooldown userId duration w) = Resolved (OnCooldown remaining))
  \/ fst (checkCooldown userId duration w) = Resolved NoCooldown.
Proof.
  unfold checkCooldown. destruct (cooldowns w !! userId) as [userCooldown|]; [|right; reflexivity].
  destruct (truthy (JsNumber userCooldown) && (clock w <? userCooldown));
    [left; eexists; reflexivity | right; reflexivity].
Qed.

Section PreservesRedeem.
Context {X : Type}.
Variable f : World -> X.
Hypothesis f_round : forall r w, f (end_round r w) = f w.
Hypothesis f_console : forall c w, f (with_console c w) = f w.
Hypothesis f_db : forall s w, f (with_db s w) = f w.
Hypothesis f_cache : forall c w, f (with_userKeyCache c w) = f w.
Hypothesis f_cooldowns : forall c w, f (with_cooldowns c w) = f w.

Lemma preserves_invalidateUserCache userId discordTag :
  preserves f (invalidateUserCache userId discordTag).
Proof.
  unfold invalidateUserCache.
  apply preserves_bind; [intros w; apply f_cache|]. intros _.
  apply preserves_bind; [apply preserves_console_log; exact f_console|]. intros _.
  apply preserves_try_catch.
  - apply preserves_bind; [|intros; apply preserves_ret].
    apply preserves_refreshUserKeys; try assumption. intros entry w. apply f_cache.
  - intros e. apply preserves_console_log. exact f_console.
Qed.

Lemma preserves_redeem_try userId discordTag inputKey :
  preserves f (redeem_try userId discordTag inputKey).
Proof.
  unfold redeem_try.
  apply preserves_bind; [apply preserves_get; exact f_round|]. intros blacklisted.
  destruct blacklisted; [apply preserves_ret|].
  destruct (negb (isValidKeyFormat inputKey)); [apply preserves_ret|].
  apply preserves_bind; [apply preserves_get; exact f_round|]. intros [activeData|];
    [apply preserves_ret|].
  apply preserves_bind; [apply preserves_get; exact f_round|]. intros [pendingData|];
    [|apply preserves_ret].
  apply preserves_bind; [apply preserves_Date_now|]. intros now.
  apply preserves_bind; [intros w; reflexivity|]. intros data.
  apply preserves_bind; [apply preserves_safeBatchCommit; assumption|]. intros _.
  apply preserves_bind; [apply preserves_invalidateUserCache|]. intros _.
  apply preserves_bind; [intros w; apply f_cooldowns|]. intros _.
  apply preserves_ret.
Qed.
End PreservesRedeem.

(** X18: a redemption never leaves its marker behind: whatever the
    answer, also when a store request throws, the operation markers are
    afterwards what they were before the call, and so is the set of
    background refreshes. A call by an identity on cooldown is answered
    with the time to wait, and a call that passes the gate and finds the
    marker of its identity set with the request to wait; both at once,
    with nothing sent and nothing changed. *)
Theorem redeem_marker_discipline userId discordTag inputKey w :
  let run := redeem_submit userId discordTag inputKey w in
  activeOperations (snd run) = activeOperations w
  /\ backgroundRefreshQueue (snd run) = backgroundRefreshQueue w
  /\ (forall remaining,
        fst (checkCooldown userId COOLDOWN_DURATION w) = Resolved (OnCooldown remaining) ->
        run = (Resolved (cooldown_message remaining), w))
  /\ (fst (checkCooldown userId COOLDOWN_DURATION w) = Resolved NoCooldown ->
      activeOperations w !! operation_key userId "redeem" <> None ->
      run = (Resolved "⚠️ Kamu sedang melakukan redeem. Tunggu hingga selesai!"%string, w)).
Proof.
  cbv zeta.
  split; [|split]; [| |split; [apply redeem_submit_cooling | apply redeem_submit_held]].
  - destruct (checkCooldown_cases userId COOLDOWN_DURATION w) as [[remaining Hgate]|Hgate];
      [rewrite (redeem_submit_cooling _ _ _ _ _ Hgate); reflexivity|].
    destruct (activeOperations w !! operation_key userId "redeem") as [t|] eqn:E.
    + rewrite redeem_submit_held by congruence. reflexivity.
    + rewrite (redeem_submit_free _ _ _ _ Hgate E).
      cbn [snd endOperation activeOperations with_activeOperations].
      rewrite (preserves_redeem_try activeOperations) by reflexivity.
      cbn [activeOperations with_activeOperations].
      apply delete_insert_id. exact E.
  - destruct (checkCooldown_cases userId COOLDOWN_DURATION w) as [[remaining Hgate]|Hgate];
      [rewrite (redeem_submit_cooling _ _ _ _ _ Hgate); reflexivity|].
    destruct (activeOperations w !! operation_key userId "redeem") as [t|] eqn:E.
    + rewrite redeem_submit_held by congruence. reflexivity.
    + rewrite (redeem_submit_free _ _ _ _ Hgate E).
      cbn [snd endOperation backgroundRefreshQueue with_activeOperations].
      rewrite (preserves_redeem_try backgroundRefreshQueue) by reflexivity.
      reflexivity.
Qed.

Example redeem_during_outage :
  (exists e, fst (redeem_submit "1001" "bob" "VORAHUB-AAAAAA-111111-BBBBBB" outage_world)
             = Thrown e)
  /\ activeOperations (snd (redeem_submit "1001" "bob" "VORAHUB-AAAAAA-111111-BBBBBB"
                              outage_world)) = ∅.
Proof.
  split; [eexists; vm_compute; reflexivity|].
  rewrite (redeem_submit_free "1001" "bob" "VORAHUB-AAAAAA-111111-BBBBBB" outage_world)
    by reflexivity.
  cbn [snd endOperation activeOperations with_activeOperations].
  rewrite (preserves_redeem_try activeOperations) by reflexivity.
  reflexivity.
Qed.

(** An identity that redeemed a second ago is turned away at the gate:
    nothing is read, the key stays pending. *)
Example redeem_on_cooldown :
  redeem_submit "2002" "eve" "VORAHUB-0A1B2C-3D4E5F-678901" cooling_world
  = (Resolved "⏰ Tunggu 2 detik sebelum menggunakan fitur ini lagi!"%string, cooling_world).
Proof.
  apply (redeem_submit_cooling "2002" "eve" "VORAHUB-0A1B2C-3D4E5F-678901" cooling_world 2).
  vm_compute. reflexivity.
Qed.




(** A key that is to last three million days: the timestamp of its expiry
    cannot be built, the redemption throws before anything is sent to
    commit, the key stays pending and the marker is released. *)
Example redeem_with_expiry_out_of_range :
  fst (redeem_submit "2002" "eve" "VORAHUB-0A1B2C-3D4E5F-678901" far_future_world)
  = Thrown (TimestampOutOfRange 260900000000060)
  /\ db (snd (redeem_submit "2002" "eve" "VORAHUB-0A1B2C-3D4E5F-678901" far_future_world))
     = db far_future_world
  /\ activeOperations
       (snd (redeem_submit "2002" "eve" "VORAHUB-0A1B2C-3D4E5F-678901" far_future_world))
     = ∅
  /\ length (io (snd (redeem_submit "2002" "eve" "VORAHUB-0A1B2C-3D4E5F-678901"
                        far_future_world))) = 3%nat.
Proof. repeat split; vm_compute; reflexivity. Qed.










(** After the redemption of the pending key, a second attempt within the
    cooldown is turned away at the gate. *)
Example redeem_again_at_once :
  redeem_submit "2002" "eve" "VORAHUB-0A1B2C-3D4E5F-678901"
    (snd (redeem_submit "2002" "eve" "VORAHUB-0A1B2C-3D4E5F-678901" pending_world))
  = (Resolved "⏰ Tunggu 3 detik sebelum menggunakan fitur ini lagi!"%string,
     snd (redeem_submit "2002" "eve" "VORAHUB-0A1B2C-3D4E5F-678901" pending_world)).
Proof.
  apply (redeem_submit_cooling "2002" "eve" "VORAHUB-0A1B2C-3D4E5F-678901" _ 3).
  vm_compute. reflexivity.
Qed.
